(** * Error tracking: ingestion, deduplication and resolution

    A shallow embedding of the error-tracking application
    ([services/error_tracker.py], [models/error_log.py],
    [admin/error_log.py]) together with the properties of its
    ingestion-and-deduplication engine and of its resolution state
    machine.

    Conventions of the embedding.
    - Python [str] is [string]: a text of code points below 256, one
      character each (ASCII and Latin-1); text with other code points is
      outside the model.  [int] is [Z]; [None]-able values are [option];
      timestamps are [Z].
    - A Python [dict] with string keys is an association list that keeps
      insertion order; [dict_set] is [d[k] = v], [dict_update] is
      [d.update(e)].
    - An attribute that a duck-typed object may lack is an [option] field:
      [None] is "the attribute is absent" ([getattr] default, [hasattr]
      false, or [AttributeError] on plain access).
    - Code that can raise runs in the monad [M]: a state transformer over
      the [World] (table rows, id sequence, logger output) whose result is
      [Ok v] or [Raise e].  Only subclasses of Python's [Exception] are
      modelled; signals such as [KeyboardInterrupt] are not.  Of the code
      that the caller's objects bring along, the [__str__] of an exception
      object is modelled: it returns a text or raises.
    - The ORM is the environment.  The table is the list of its rows, a
      query reads it, [Model.save] and [QuerySet.update] rewrite it, each
      statement committed as it runs (autocommit).
      Backend-specific column checks (lengths, integer ranges) are not
      modelled; an unavailable or rejecting backend is the [db_fault] of
      the call's environment. *)

From Stdlib Require Import ZArith List Bool Ascii String Lia DecimalString.
Import ListNotations.
Open Scope string_scope.
Open Scope Z_scope.
Set Warnings "-register-all".

(** ** Python strings *)

(** [str.lower] on one character: [A]-[Z], and the capital letters of
    Latin-1 (code points 192-222 without the multiplication sign 215). *)
Definition ascii_lower (c : ascii) : ascii :=
  let n := nat_of_ascii c in
  if ((Nat.leb 65 n && Nat.leb n 90)
      || (Nat.leb 192 n && Nat.leb n 222 && negb (Nat.eqb n 215)))%bool
  then ascii_of_nat (n + 32) else c.

(** [s.lower()] *)
Fixpoint lower (s : string) : string :=
  match s with
  | EmptyString => EmptyString
  | String c t => String (ascii_lower c) (lower t)
  end.

(** [sub in s] *)
Fixpoint str_in (sub s : string) : bool :=
  String.prefix sub s ||
  match s with
  | EmptyString => false
  | String _ t => str_in sub t
  end.

(** [c.isspace()]: tab to carriage return, the four separators, the
    space, next line (133) and the no-break space (160). *)
Definition isspace (c : ascii) : bool :=
  let n := nat_of_ascii c in
  ((Nat.leb 9 n && Nat.leb n 13) || (Nat.leb 28 n && Nat.leb n 32)
   || Nat.eqb n 133 || Nat.eqb n 160)%bool.

Fixpoint lstrip (s : string) : string :=
  match s with
  | EmptyString => EmptyString
  | String c t => if isspace c then lstrip t else s
  end.

Fixpoint rstrip (s : string) : string :=
  match s with
  | EmptyString => EmptyString
  | String c t =>
      match rstrip t with
      | EmptyString => if isspace c then EmptyString else String c EmptyString
      | t' => String c t'
      end
  end.

(** [s.strip()] *)
Definition strip (s : string) : string := rstrip (lstrip s).

(** [s.split(sep)[0]] for a one-character separator. *)
Fixpoint split_first (sep : ascii) (s : string) : string :=
  match s with
  | EmptyString => EmptyString
  | String c t => if Ascii.eqb c sep then EmptyString else String c (split_first sep t)
  end.

Definition str_truthy (s : string) : bool := negb (String.eqb s "").

(** ** Python values that end up in [debug_details] *)

Inductive pyval : Type :=
| PNone
| PBool (b : bool)
| PInt (z : Z)
| PStr (s : string)
| PList (l : list pyval)
| PDict (d : list (string * pyval))
| PObject (repr : string).  (* any object [json.dumps] cannot encode *)

Definition pydict := list (string * pyval).

Definition truthy (v : pyval) : bool :=
  match v with
  | PNone => false
  | PBool b => b
  | PInt z => negb (z =? 0)
  | PStr s => str_truthy s
  | PList l => match l with [] => false | _ => true end
  | PDict d => match d with [] => false | _ => true end
  | PObject _ => true
  end.

(** What [JSONField.get_prep_value] accepts. *)
Fixpoint json_serialisable (v : pyval) : bool :=
  match v with
  | PObject _ => false
  | PList l => forallb json_serialisable l
  | PDict d => forallb (fun kv => json_serialisable (snd kv)) d
  | _ => true
  end.

(** ** Dictionaries *)

Section Dict.
Context {V : Type}.

(** [d.get(k)] *)
Fixpoint dict_get (k : string) (d : list (string * V)) : option V :=
  match d with
  | [] => None
  | (k', v) :: t => if String.eqb k k' then Some v else dict_get k t
  end.

(** [d[k] = v] *)
Fixpoint dict_set (k : string) (v : V) (d : list (string * V)) : list (string * V) :=
  match d with
  | [] => [(k, v)]
  | (k', v') :: t =>
      if String.eqb k k' then (k', v) :: t else (k', v') :: dict_set k v t
  end.

(** [d.update(e)] *)
Definition dict_update (d e : list (string * V)) : list (string * V) :=
  fold_left (fun acc kv => dict_set (fst kv) (snd kv) acc) e d.

(** [dict(items)] *)
Definition dict_of_items (items : list (string * V)) : list (string * V) :=
  dict_update [] items.

(** The binding of [k] that iterating over the items [e] leaves last. *)
Fixpoint last_binding (k : string) (e : list (string * V)) : option V :=
  match e with
  | [] => None
  | (k', v) :: t =>
      match last_binding k t with
      | Some x => Some x
      | None => if String.eqb k k' then Some v else None
      end
  end.

Definition dict_has (k : string) (d : list (string * V)) : bool :=
  match dict_get k d with Some _ => true | None => false end.
End Dict.

Definition dict_get_default {V} (k : string) (dflt : V) (d : list (string * V)) : V :=
  match dict_get k d with Some v => v | None => dflt end.

(** ** Request-like objects *)

(** [MultiValueDict]: each key holds the list of its values. *)
Definition querydict := list (string * list string).

(** [QueryDict.__getitem__]: the last value, or [[]] for an empty list. *)
Definition qd_value (vs : list string) : pyval :=
  match rev vs with
  | [] => PList []
  | v :: _ => PStr v
  end.

(** [QueryDict.items()] *)
Definition qd_items (q : querydict) : list (string * pyval) :=
  map (fun kv => (fst kv, qd_value (snd kv))) q.

Definition qd_truthy (q : querydict) : bool :=
  match q with [] => false | _ => true end.

Record user_obj : Type := {
  u_id : Z;
  u_username : option string;
  u_email : option string;
  u_is_staff : option bool;
  u_is_superuser : option bool;
  u_is_authenticated : bool
}.

Record request_obj : Type := {
  r_method : option string;
  r_path : option string;
  r_get_full_path : option string;      (* result of [get_full_path()] *)
  r_META : option (list (string * string));
  r_session : option (list (string * pyval));
  r_headers : option (list (string * string));
  r_is_secure : option bool;            (* result of [is_secure()] *)
  r_GET : option querydict;
  r_POST : option querydict;
  r_user : option user_obj
}.

(** ** Exceptions and the execution monad *)

Inductive exn : Type :=
| AttributeError (what : string)
| TypeError (what : string)
| OperationalError (what : string)
| JSONDecodeError (what : string)
| ValueError (what : string)
| RecursionError (what : string)
| Thrown (cls : string) (text : option string).
    (* an exception that the [__str__] of the caller's exception object
       raised: its class, and what [str()] of it returns; [None] when
       [str()] of it raises it again *)

Inductive outcome (A : Type) : Type :=
| Ok (a : A)
| Raise (e : exn).
Arguments Ok {A} a.
Arguments Raise {A} e.

(** [str(e)] for an exception of the run: the built-in ones print their
    message. *)
Definition str_of_exn (e : exn) : outcome string :=
  match e with
  | AttributeError what | TypeError what | OperationalError what
  | JSONDecodeError what | ValueError what | RecursionError what => Ok what
  | Thrown _ (Some text) => Ok text
  | Thrown _ None => Raise e
  end.

Definition printable (e : exn) : bool :=
  match str_of_exn e with
  | Ok _ => true
  | Raise _ => false
  end.

Definition opt_str (o : option string) : pyval :=
  match o with Some s => PStr s | None => PNone end.

(** [v = meta.get(k)] followed by [if v:] *)
Definition meta_truthy (k : string) (meta : list (string * string)) : option string :=
  match dict_get k meta with
  | Some v => if str_truthy v then Some v else None
  | None => None
  end.

(** [get_client_ip] ([None] is Python's [None]).  A request without
    [META] raises [AttributeError]. *)
Definition get_client_ip (request : option request_obj) : outcome (option string) :=
  match request with
  | None => Ok None
  | Some rq =>
      match r_META rq with
      | None => Raise (AttributeError "META")
      | Some meta =>
          match meta_truthy "HTTP_X_FORWARDED_FOR" meta with
          | Some x_forwarded_for => Ok (Some (strip (split_first "," x_forwarded_for)))
          | None =>
              match meta_truthy "HTTP_X_REAL_IP" meta with
              | Some x_real_ip => Ok (Some (strip x_real_ip))
              | None => Ok (dict_get "REMOTE_ADDR" meta)
              end
          end
      end
  end.

Definition sensitive_fields : list string :=
  ["password"; "token"; "api_key"; "secret"; "csrf_token"].

(** [any(sensitive in key.lower() for sensitive in sensitive_fields)] *)
Definition is_sensitive (key : string) : bool :=
  existsb (fun sensitive => str_in sensitive (lower key)) sensitive_fields.

Definition FILTERED : pyval := PStr "[FILTERED]".

(** The loop over [request.POST.items()]. *)
Definition filter_post (items : list (string * pyval)) : pydict :=
  fold_left
    (fun post_data kv =>
       if is_sensitive (fst kv) then dict_set (fst kv) FILTERED post_data
       else dict_set (fst kv) (snd kv) post_data)
    items [].

(** [HttpHeaders.get]: header names compare case-insensitively. *)
Fixpoint headers_get (k : string) (h : list (string * string)) : option string :=
  match h with
  | [] => None
  | (k', v) :: t => if String.eqb (lower k) (lower k') then Some v else headers_get k t
  end.

Definition is_ajax (rq : request_obj) : bool :=
  match r_headers rq with
  | None => false
  | Some h =>
      match headers_get "X-Requested-With" h with
      | Some v => String.eqb v "XMLHttpRequest"
      | None => false
      end
  end.

Definition session_key (rq : request_obj) : pyval :=
  match r_session rq with
  | None => PStr ""
  | Some s => dict_get_default "session_key" (PStr "") s
  end.

Definition getattr_str (o : option string) : string :=
  match o with Some s => s | None => "" end.

(** [get_request_details] *)
Definition get_request_details (request : option request_obj) : outcome pydict :=
  match request with
  | None => Ok []
  | Some rq =>
      match r_META rq with
      | None => Raise (AttributeError "META")
      | Some meta =>
          match get_client_ip request with
          | Raise e => Raise e
          | Ok ip =>
              let details :=
                [ ("method", PStr (getattr_str (r_method rq)));
                  ("path", PStr (getattr_str (r_path rq)));
                  ("full_path", PStr (getattr_str (r_get_full_path rq)));
                  ("user_agent", PStr (dict_get_default "HTTP_USER_AGENT" "" meta));
                  ("ip_address", opt_str ip);
                  ("session_key", session_key rq);
                  ("is_ajax", PBool (is_ajax rq));
                  ("is_secure",
                   PBool (match r_is_secure rq with Some b => b | None => false end)) ] in
              let details :=
                match r_GET rq with
                | Some g =>
                    if qd_truthy g
                    then dict_set "get_params" (PDict (dict_of_items (qd_items g))) details
                    else details
                | None => details
                end in
              let details :=
                match r_POST rq with
                | Some p =>
                    if qd_truthy p
                    then dict_set "post_params" (PDict (filter_post (qd_items p))) details
                    else details
                | None => details
                end in
              Ok details
          end
      end
  end.

(** ** The [ErrorLog] model ([models/error_log.py]) *)

Module ErrorLevel.
Definition DEBUG := "debug".
Definition INFO := "info".
Definition WARNING := "warning".
Definition ERROR := "error".
Definition CRITICAL := "critical".
End ErrorLevel.

Record ErrorLog : Type := {
  id : option Z;                 (* [None] until the first save *)
  error_level : string;
  exception_type : string;
  exception_message : string;
  file_path : string;
  line_number : option Z;
  function_name : string;
  user : option Z;               (* foreign key: the user's id *)
  request_method : string;
  request_path : string;
  user_agent : string;
  ip_address : option string;
  stack_trace : string;
  debug_details : pyval;
  resolved : bool;
  resolved_by : option Z;
  resolved_at : option Z;
  notes : string;
  count : Z;
  first_occurrence : Z;
  last_occurrence : Z;
  created_at : Z;
  updated_at : Z
}.

Definition set_id (v : option Z) (r : ErrorLog) : ErrorLog :=
  {| id := v; error_level := error_level r; exception_type := exception_type r;
     exception_message := exception_message r; file_path := file_path r;
     line_number := line_number r; function_name := function_name r; user := user r;
     request_method := request_method r; request_path := request_path r;
     user_agent := user_agent r; ip_address := ip_address r; stack_trace := stack_trace r;
     debug_details := debug_details r; resolved := resolved r;
     resolved_by := resolved_by r; resolved_at := resolved_at r; notes := notes r;
     count := count r; first_occurrence := first_occurrence r;
     last_occurrence := last_occurrence r; created_at := created_at r;
     updated_at := updated_at r |}.

Definition set_debug_details (v : pyval) (r : ErrorLog) : ErrorLog :=
  {| id := id r; error_level := error_level r; exception_type := exception_type r;
     exception_message := exception_message r; file_path := file_path r;
     line_number := line_number r; function_name := function_name r; user := user r;
     request_method := request_method r; request_path := request_path r;
     user_agent := user_agent r; ip_address := ip_address r; stack_trace := stack_trace r;
     debug_details := v; resolved := resolved r;
     resolved_by := resolved_by r; resolved_at := resolved_at r; notes := notes r;
     count := count r; first_occurrence := first_occurrence r;
     last_occurrence := last_occurrence r; created_at := created_at r;
     updated_at := updated_at r |}.

Definition set_count (v : Z) (r : ErrorLog) : ErrorLog :=
  {| id := id r; error_level := error_level r; exception_type := exception_type r;
     exception_message := exception_message r; file_path := file_path r;
     line_number := line_number r; function_name := function_name r; user := user r;
     request_method := request_method r; request_path := request_path r;
     user_agent := user_agent r; ip_address := ip_address r; stack_trace := stack_trace r;
     debug_details := debug_details r; resolved := resolved r;
     resolved_by := resolved_by r; resolved_at := resolved_at r; notes := notes r;
     count := v; first_occurrence := first_occurrence r;
     last_occurrence := last_occurrence r; created_at := created_at r;
     updated_at := updated_at r |}.

Definition set_last_occurrence (v : Z) (r : ErrorLog) : ErrorLog :=
  {| id := id r; error_level := error_level r; exception_type := exception_type r;
     exception_message := exception_message r; file_path := file_path r;
     line_number := line_number r; function_name := function_name r; user := user r;
     request_method := request_method r; request_path := request_path r;
     user_agent := user_agent r; ip_address := ip_address r; stack_trace := stack_trace r;
     debug_details := debug_details r; resolved := resolved r;
     resolved_by := resolved_by r; resolved_at := resolved_at r; notes := notes r;
     count := count r; first_occurrence := first_occurrence r;
     last_occurrence := v; created_at := created_at r;
     updated_at := updated_at r |}.

Definition set_updated_at (v : Z) (r : ErrorLog) : ErrorLog :=
  {| id := id r; error_level := error_level r; exception_type := exception_type r;
     exception_message := exception_message r; file_path := file_path r;
     line_number := line_number r; function_name := function_name r; user := user r;
     request_method := request_method r; request_path := request_path r;
     user_agent := user_agent r; ip_address := ip_address r; stack_trace := stack_trace r;
     debug_details := debug_details r; resolved := resolved r;
     resolved_by := resolved_by r; resolved_at := resolved_at r; notes := notes r;
     count := count r; first_occurrence := first_occurrence r;
     last_occurrence := last_occurrence r; created_at := created_at r;
     updated_at := v |}.

(** The two [auto_now_add] columns. *)
Definition set_added (v : Z) (r : ErrorLog) : ErrorLog :=
  {| id := id r; error_level := error_level r; exception_type := exception_type r;
     exception_message := exception_message r; file_path := file_path r;
     line_number := line_number r; function_name := function_name r; user := user r;
     request_method := request_method r; request_path := request_path r;
     user_agent := user_agent r; ip_address := ip_address r; stack_trace := stack_trace r;
     debug_details := debug_details r; resolved := resolved r;
     resolved_by := resolved_by r; resolved_at := resolved_at r; notes := notes r;
     count := count r; first_occurrence := v;
     last_occurrence := last_occurrence r; created_at := v;
     updated_at := updated_at r |}.

(** The three resolution columns, as [QuerySet.update] and [save_model]
    assign them. *)
Definition set_resolution (res : bool) (rby rat : option Z) (r : ErrorLog) : ErrorLog :=
  {| id := id r; error_level := error_level r; exception_type := exception_type r;
     exception_message := exception_message r; file_path := file_path r;
     line_number := line_number r; function_name := function_name r; user := user r;
     request_method := request_method r; request_path := request_path r;
     user_agent := user_agent r; ip_address := ip_address r; stack_trace := stack_trace r;
     debug_details := debug_details r; resolved := res;
     resolved_by := rby; resolved_at := rat; notes := notes r;
     count := count r; first_occurrence := first_occurrence r;
     last_occurrence := last_occurrence r; created_at := created_at r;
     updated_at := updated_at r |}.

(** ** Logger output *)

Inductive loglevel : Type := LDebug | LInfo | LWarning | LError | LCritical.

Inductive logmsg : Type :=
| MsgStarting                                 (* "Starting error tracking for: ..." *)
| MsgPrepared                                 (* "Prepared error info: ..." *)
| MsgDetailKeys (keys : list string)          (* "Debug details keys: ..." *)
| MsgUpdated (i : option Z) (n : Z)           (* "Updated existing error #i, count: n" *)
| MsgCreated (i : option Z)                   (* "Created new error log #i" *)
| MsgTracked (i : option Z) (ty msg : string) (* "Error tracked #i: ty - msg" *)
| MsgInvalidJson (i : option Z)               (* "Invalid JSON in debug_details ..." *)
| MsgFailed (e : exn).                        (* "Error tracking failed: e" *)

(** ** The world and the monad *)

Record World : Type := {
  rows : list ErrorLog;     (* the table *)
  next_id : Z;              (* the id sequence *)
  log : list (loglevel * logmsg)
}.

Definition M (A : Type) : Type := World -> outcome A * World.

Definition ret {A} (a : A) : M A := fun w => (Ok a, w).

Definition raise {A} (e : exn) : M A := fun w => (Raise e, w).

Definition bind {A B} (m : M A) (k : A -> M B) : M B :=
  fun w =>
    match m w with
    | (Ok a, w') => k a w'
    | (Raise e, w') => (Raise e, w')
    end.

Notation "x <- m ;; k" := (bind m (fun x => k))
  (at level 61, m at next level, right associativity).
Notation "m ;;; k" := (bind m (fun _ => k))
  (at level 61, right associativity).

(** [try: m except Exception as e: h e] *)
Definition try_except {A} (m : M A) (h : exn -> M A) : M A :=
  fun w =>
    match m w with
    | (Ok a, w') => (Ok a, w')
    | (Raise e, w') => h e w'
    end.

Definition lift {A} (o : outcome A) : M A := fun w => (o, w).

Definition logger (lvl : loglevel) (msg : logmsg) : M unit :=
  fun w => (Ok tt, {| rows := rows w; next_id := next_id w; log := log w ++ [(lvl, msg)] |}).

Definition when (b : bool) (m : M unit) : M unit := if b then m else ret tt.

(** ** Exceptions, tracebacks and the caller's environment *)

(** One entry of the [tb_next] chain, with its frame's code object. *)
Record tb_entry : Type := {
  tb_filename : string;   (* [tb_frame.f_code.co_filename] *)
  tb_lineno : Z;
  tb_name : string        (* [tb_frame.f_code.co_name] *)
}.

(** A traceback is its chain, outermost entry first; [[]] is [None]. *)
Definition traceback := list tb_entry.

(** What the [__str__] of an exception object does when it does not
    return. *)
Inductive str_fault : Type :=
| StrRaisesSelf                      (* [raise self] *)
| StrRaises (cls text : string).     (* raises an exception of class [cls]
                                        that prints as [text] *)

Record exc_obj : Type := {
  exc_class : string;                (* [e.__class__.__name__] *)
  exc_str : string;                  (* what [str(e)] returns, when it returns *)
  exc_str_fault : option str_fault;  (* [Some]: [str(e)] raises instead *)
  exc_traceback : traceback          (* [e.__traceback__] *)
}.

(** The [exception] argument: [Optional[Union[Exception, str]]]. *)
Inductive exc_arg : Type :=
| ExcNone
| ExcMessage (s : string)
| ExcObject (e : exc_obj).

Record frame : Type := {
  co_filename : string;
  f_lineno : Z;
  co_name : string
}.

Inductive db_fault : Type := NoFault | FaultOnQuery | FaultOnWrite.

(** What a call reads from the process around it. *)
Record env : Type := {
  e_now : Z;                            (* [timezone.now()] *)
  e_exc_info : option exc_obj;          (* [sys.exc_info()]: the exception being handled *)
  e_caller : option frame;              (* [inspect.currentframe().f_back] *)
  e_DJANGO_VERSION : option pyval;      (* [settings.DJANGO_VERSION], if set *)
  e_DEBUG : option pyval;               (* [settings.DEBUG], if set *)
  e_sys_version : string;
  e_sys_platform : string;
  e_DEBUG_ERROR_TRACKING : bool;
  e_fault : db_fault
}.

Record error_info : Type := {
  i_exception_type : string;
  i_exception_message : string;
  i_stack_trace : string;
  i_file_path : string;
  i_line_number : option Z;
  i_function_name : string
}.

(** The arguments of [track_error]. *)
Record call : Type := {
  a_exception : exc_arg;
  a_error_level : string;
  a_custom_message : option string;
  a_debug_details : pyval;              (* [PNone] when omitted *)
  a_request : option request_obj;
  a_user : option user_obj;
  a_file_path : option string;
  a_line_number : option Z;
  a_function_name : option string;
  a_kwargs : pydict
}.

Definition exc_truthy (x : exc_arg) : bool :=
  match x with
  | ExcNone => false
  | ExcMessage s => str_truthy s
  | ExcObject _ => true
  end.

(** [str(exception)], when it returns. *)
Definition exc_to_str (x : exc_arg) : string :=
  match x with
  | ExcNone => "None"
  | ExcMessage s => s
  | ExcObject e => exc_str e
  end.

(** What [str(exception)] raises, if it raises. *)
Definition str_raises (x : exc_arg) : option exn :=
  match x with
  | ExcObject e =>
      match exc_str_fault e with
      | Some StrRaisesSelf => Some (Thrown (exc_class e) None)
      | Some (StrRaises cls text) => Some (Thrown cls (Some text))
      | None => None
      end
  | _ => None
  end.

(** An evaluation of [str(exception)] for its effect. *)
Definition str_exception (x : exc_arg) : M unit :=
  match str_raises x with
  | Some ex => raise ex
  | None => ret tt
  end.

Definition opt_truthy_str (o : option string) : bool :=
  match o with Some s => str_truthy s | None => false end.

(** [o or ''] *)
Definition or_empty (o : option string) : string :=
  match o with Some s => s | None => "" end.

(** The loop [while last_frame.tb_next: last_frame = last_frame.tb_next]. *)
Fixpoint last_frame (tb : traceback) : option tb_entry :=
  match tb with
  | [] => None
  | x :: t => match t with [] => Some x | _ => last_frame t end
  end.

Definition option_eqb {A} (eqb : A -> A -> bool) (x y : option A) : bool :=
  match x, y with
  | Some a, Some b => eqb a b
  | None, None => true
  | _, _ => false
  end.

Definition has_id (i : Z) (r : ErrorLog) : bool := option_eqb Z.eqb (id r) (Some i).

(** The rows selected by
    [filter(exception_type=..., exception_message=..., file_path=...,
            line_number=..., resolved=False)]. *)
Definition matches_open (info : error_info) (r : ErrorLog) : bool :=
  String.eqb (exception_type r) (i_exception_type info)
  && String.eqb (exception_message r) (i_exception_message info)
  && String.eqb (file_path r) (i_file_path info)
  && option_eqb Z.eqb (line_number r) (i_line_number info)
  && negb (resolved r).

(** [QuerySet.first()] under [Meta.ordering = ['-last_occurrence']]: a row
    with the greatest [last_occurrence]; among equals, table order. *)
Fixpoint first (l : list ErrorLog) : option ErrorLog :=
  match l with
  | [] => None
  | r :: t =>
      match first t with
      | None => Some r
      | Some r' => if last_occurrence r' >? last_occurrence r then Some r' else Some r
      end
  end.

(** [UPDATE ... WHERE id = i] with the values of [obj]. *)
Definition replace_row (i : Z) (obj : ErrorLog) (l : list ErrorLog) : list ErrorLog :=
  map (fun r => if has_id i r then obj else r) l.

Definition set_rows (l : list ErrorLog) (w : World) : World :=
  {| rows := l; next_id := next_id w; log := log w |}.

Section Runtime.

(** Library functions the code calls: [json.loads] on a text (the value
    decoded, or the exception raised: [JSONDecodeError] for a malformed
    document, [ValueError] for an integer beyond the digit limit,
    [RecursionError] for one nested too deep) and
    [traceback.format_exception] joined into one string. *)
Variable json_loads : string -> outcome pyval.
Variable format_exception : string -> exc_obj -> traceback -> string.

(** [extract_traceback_info], given what [sys.exc_info()] returns. *)
Definition extract_traceback_info (exception : exc_obj) (exc_info : option exc_obj)
  : error_info :=
  let exc_tb :=
    match exc_info with
    | Some handled =>
        match exc_traceback handled with
        | [] => exc_traceback exception
        | tb => tb
        end
    | None => exc_traceback exception
    end in
  match last_frame exc_tb with
  | None =>
      {| i_exception_type := exc_class exception;
         i_exception_message := exc_str exception;
         i_stack_trace := "";
         i_file_path := "";
         i_line_number := None;
         i_function_name := "" |}
  | Some last =>
      let value := match exc_info with Some handled => handled | None => exception end in
      {| i_exception_type := exc_class exception;
         i_exception_message := exc_str exception;
         i_stack_trace := format_exception (exc_class value) value exc_tb;
         i_file_path := tb_filename last;
         i_line_number := Some (tb_lineno last);
         i_function_name := tb_name last |}
  end.

(** Django's [Model.save]: [auto_now] and [auto_now_add] columns, JSON
    encoding of [debug_details], then UPDATE by primary key or INSERT. *)
Definition model_save (self : ErrorLog) (e : env) : M ErrorLog :=
  fun w =>
    let adding :=
      match id self with
      | None => true
      | Some i => negb (existsb (has_id i) (rows w))
      end in
    let self := if adding then set_added (e_now e) self else self in
    let self := set_updated_at (e_now e) (set_last_occurrence (e_now e) self) in
    if negb (json_serialisable (debug_details self))
    then (Raise (TypeError "Object is not JSON serializable"), w)
    else
      match e_fault e with
      | FaultOnWrite => (Raise (OperationalError "write"), w)
      | _ =>
          match id self with
          | Some i =>
              if adding then (Ok self, set_rows (rows w ++ [self]) w)
              else (Ok self, set_rows (replace_row i self (rows w)) w)
          | None =>
              let self := set_id (Some (next_id w)) self in
              (Ok self,
               {| rows := rows w ++ [self]; next_id := next_id w + 1; log := log w |})
          end
      end.

(** [except (json.JSONDecodeError, TypeError)] *)
Definition caught_by_save (ex : exn) : bool :=
  match ex with
  | JSONDecodeError _ | TypeError _ => true
  | _ => false
  end.

(** [ErrorLog.save] *)
Definition save (self : ErrorLog) (e : env) : M ErrorLog :=
  self <-
    match debug_details self with
    | PStr s =>
        if str_truthy s then
          match json_loads s with
          | Ok v => ret (set_debug_details v self)
          | Raise ex =>
              if caught_by_save ex then
                logger LWarning (MsgInvalidJson (id self)) ;;;
                ret (set_debug_details (PDict [("raw_data", PStr s)]) self)
              else raise ex
          end
        else ret self
    | _ => ret self
    end ;;
  model_save self e.

(** [ErrorLog.objects.filter(..., resolved=False).first()] *)
Definition find_open (info : error_info) (e : env) : M (option ErrorLog) :=
  fun w =>
    match e_fault e with
    | FaultOnQuery => (Raise (OperationalError "query"), w)
    | _ => (Ok (first (filter (matches_open info) (rows w))), w)
    end.

(** Lines 141-148: the defaults. *)
Definition initial_error_info (a : call) : error_info :=
  {| i_exception_type := "CustomError";
     i_exception_message :=
       if exc_truthy (a_exception a)
       then (if opt_truthy_str (a_custom_message a)
             then or_empty (a_custom_message a)
             else exc_to_str (a_exception a))
       else "Unknown error";
     i_stack_trace := "";
     i_file_path := or_empty (a_file_path a);
     i_line_number := a_line_number a;
     i_function_name := or_empty (a_function_name a) |}.

(** Lines 141-160: the normalized event. *)
Definition compute_error_info (a : call) (e : env) : error_info :=
  let info := initial_error_info a in
  let info :=
    match a_exception a with
    | ExcObject exception => extract_traceback_info exception (e_exc_info e)
    | _ => info
    end in
  if negb (str_truthy (i_file_path info)) && negb (opt_truthy_str (a_file_path a))
  then
    match e_caller e with
    | Some caller_frame =>
        {| i_exception_type := i_exception_type info;
           i_exception_message := i_exception_message info;
           i_stack_trace := i_stack_trace info;
           i_file_path := co_filename caller_frame;
           i_line_number := Some (f_lineno caller_frame);
           i_function_name := co_name caller_frame |}
    | None => info
    end
  else info.

(** Lines 162-164. *)
Definition effective_user (a : call) : option user_obj :=
  match a_user a with
  | Some u => Some u
  | None =>
      match a_request a with
      | Some rq =>
          match r_user rq with
          | Some u => if u_is_authenticated u then Some u else None
          | None => None
          end
      | None => None
      end
  end.

Definition user_details (u : user_obj) : pyval :=
  PDict [ ("id", PInt (u_id u));
          ("username", PStr (or_empty (u_username u)));
          ("email", PStr (or_empty (u_email u)));
          ("is_staff", PBool (match u_is_staff u with Some b => b | None => false end));
          ("is_superuser",
           PBool (match u_is_superuser u with Some b => b | None => false end)) ].

Definition environment_details (e : env) : pyval :=
  PDict [ ("django_version",
           match e_DJANGO_VERSION e with Some v => v | None => PStr "unknown" end);
          ("debug", match e_DEBUG e with Some v => v | None => PBool false end);
          ("python_version", PStr (e_sys_version e));
          ("platform", PStr (e_sys_platform e)) ].

(** Lines 166-191: [combined_debug_details]. *)
Definition combine_debug_details (a : call) (e : env) : outcome pydict :=
  let base := if truthy (a_debug_details a) then a_debug_details a else PDict [] in
  match base with
  | PDict d =>
      let combined := dict_update d (a_kwargs a) in
      match get_request_details (a_request a) with
      | Raise ex => Raise ex
      | Ok request_details =>
          let combined :=
            match a_request a with
            | Some _ => dict_set "request" (PDict request_details) combined
            | None => combined
            end in
          let combined :=
            match effective_user a with
            | Some u => dict_set "user" (user_details u) combined
            | None => combined
            end in
          Ok (dict_set "environment" (environment_details e) combined)
      end
  | _ => Raise (AttributeError "update")
  end.

(** Lines 206-215: the repeat occurrence. *)
Definition merge_existing (existing_error : ErrorLog) (combined : pydict) (e : env)
  : M ErrorLog :=
  let existing_error := set_count (count existing_error + 1) existing_error in
  let existing_error := set_last_occurrence (e_now e) existing_error in
  match debug_details existing_error with
  | PDict d =>
      saved <- save (set_debug_details (PDict (dict_update d combined)) existing_error) e ;;
      when (e_DEBUG_ERROR_TRACKING e)
           (logger LDebug (MsgUpdated (id saved) (count saved))) ;;;
      ret saved
  | _ => raise (AttributeError "update")
  end.

Definition level_of (error_level : string) : loglevel :=
  if String.eqb error_level ErrorLevel.CRITICAL then LCritical
  else if String.eqb error_level ErrorLevel.ERROR then LError
  else if String.eqb error_level ErrorLevel.WARNING then LWarning
  else if String.eqb error_level ErrorLevel.INFO then LInfo
  else LDebug.

(** Lines 217-250: the first sighting. *)
Definition create_new (a : call) (info : error_info) (usr : option user_obj)
           (combined : pydict) (e : env) : M ErrorLog :=
  ua <- lift (match a_request a with
              | Some rq =>
                  match r_META rq with
                  | Some meta => Ok (dict_get_default "HTTP_USER_AGENT" "" meta)
                  | None => Raise (AttributeError "META")
                  end
              | None => Ok ""
              end) ;;
  ip <- lift (get_client_ip (a_request a)) ;;
  error_log <-
    save {| id := None;
            error_level := a_error_level a;
            exception_type := i_exception_type info;
            exception_message := i_exception_message info;
            file_path := i_file_path info;
            line_number := i_line_number info;
            function_name := i_function_name info;
            user := option_map u_id usr;
            request_method :=
              match a_request a with Some rq => getattr_str (r_method rq) | None => "" end;
            request_path :=
              match a_request a with Some rq => getattr_str (r_path rq) | None => "" end;
            user_agent := ua;
            ip_address := ip;
            stack_trace := i_stack_trace info;
            debug_details := PDict combined;
            resolved := false;
            resolved_by := None;
            resolved_at := None;
            notes := "";
            count := 1;
            first_occurrence := e_now e;
            last_occurrence := e_now e;
            created_at := e_now e;
            updated_at := e_now e |} e ;;
  when (e_DEBUG_ERROR_TRACKING e) (logger LDebug (MsgCreated (id error_log))) ;;;
  logger (level_of (a_error_level a))
         (MsgTracked (id error_log) (i_exception_type info) (i_exception_message info)) ;;;
  ret error_log.

(** Lines 137-204 of the [try] block: everything up to and including
    the one SELECT.  The exception is printed for the debug message of
    line 138 and again for [error_info]: an exception object at line 78
    whatever line 143 does, a text as itself.  [compute_error_info] and
    [combine_debug_details] are evaluated after that. *)
Definition track_error_select (a : call) (e : env) : M (pydict * option ErrorLog) :=
  when (e_DEBUG_ERROR_TRACKING e)
       (str_exception (a_exception a) ;;; logger LDebug MsgStarting) ;;;
  str_exception (a_exception a) ;;;
  combined <- lift (combine_debug_details a e) ;;
  when (e_DEBUG_ERROR_TRACKING e)
       (logger LDebug MsgPrepared ;;;
        logger LDebug (MsgDetailKeys (map fst combined))) ;;;
  existing_error <- find_open (compute_error_info a e) e ;;
  ret (combined, existing_error).

(** Lines 206-250: the one UPDATE or INSERT that follows. *)
Definition track_error_write (a : call) (e : env) (found : pydict * option ErrorLog)
  : M ErrorLog :=
  match snd found with
  | Some existing_error => merge_existing existing_error (fst found) e
  | None => create_new a (compute_error_info a e) (effective_user a) (fst found) e
  end.

(** The body of the [try] block of [track_error]. *)
Definition track_error_body (a : call) (e : env) : M ErrorLog :=
  found <- track_error_select a e ;;
  track_error_write a e found.

(** The [except Exception as tracking_error] clause: the message of
    line 254 prints [tracking_error], outside any [try]. *)
Definition track_error_except (tracking_error : exn) : M (option ErrorLog) :=
  lift (str_of_exn tracking_error) ;;;
  logger LError (MsgFailed tracking_error) ;;;
  ret None.

(** [track_error]: [None] is "not tracked"; what the handler raises
    reaches the caller. *)
Definition track_error (a : call) (e : env) : M (option ErrorLog) :=
  try_except
    (error_log <- track_error_body a e ;; ret (Some error_log))
    track_error_except.

End Runtime.

(** ** The administrative actions ([admin/error_log.py]) *)

Section Admin.

Variable json_loads : string -> outcome pyval.

Definition selected_in (selected : list Z) (r : ErrorLog) : bool :=
  match id r with
  | Some i => existsb (Z.eqb i) selected
  | None => false
  end.

(** [QuerySet.update]: one UPDATE over the rows that satisfy [p]; the
    result is the number of rows matched.  It does not call [save], so
    no [auto_now] column moves. *)
Definition queryset_update (p : ErrorLog -> bool) (f : ErrorLog -> ErrorLog) (e : env)
  : M Z :=
  fun w =>
    match e_fault e with
    | FaultOnWrite => (Raise (OperationalError "write"), w)
    | _ =>
        (Ok (Z.of_nat (List.length (filter p (rows w)))),
         set_rows (map (fun r => if p r then f r else r) (rows w)) w)
    end.

(** [QuerySet.delete]: the number of rows removed. *)
Definition queryset_delete (p : ErrorLog -> bool) (e : env) : M Z :=
  fun w =>
    match e_fault e with
    | FaultOnWrite => (Raise (OperationalError "write"), w)
    | _ =>
        (Ok (Z.of_nat (List.length (filter p (rows w)))),
         set_rows (filter (fun r => negb (p r)) (rows w)) w)
    end.

(** [mark_as_resolved]: [request_user] is [request.user], [selected]
    the ids of the queryset; the result is the count reported to the
    operator. *)
Definition mark_as_resolved (request_user : Z) (selected : list Z) (e : env) : M Z :=
  queryset_update
    (fun r => selected_in selected r && negb (resolved r))
    (set_resolution true (Some request_user) (Some (e_now e)))
    e.

(** [mark_as_unresolved] *)
Definition mark_as_unresolved (request_user : Z) (selected : list Z) (e : env) : M Z :=
  queryset_update
    (fun r => selected_in selected r && resolved r)
    (set_resolution false None None)
    e.

(** [bulk_delete_resolved].  Line 285 binds the local name [_] to the
    dictionary that [delete()] returns beside the count; line 286 then
    calls [_] to translate the message, and a dictionary cannot be
    called: the action ends in [TypeError] after the DELETE has run, and
    never reports. *)
Definition bulk_delete_resolved (request_user : Z) (selected : list Z) (e : env) : M Z :=
  deleted_count <- queryset_delete (fun r => selected_in selected r && resolved r) e ;;
  raise (TypeError "'dict' object is not callable").

Definition isSome {A} (o : option A) : bool :=
  match o with Some _ => true | None => false end.

(** The assignments [save_model] makes to [obj] before saving it. *)
Definition save_model_stamp (request_user : Z) (obj : ErrorLog)
           (changed_data : list string) (change : bool) (e : env) : ErrorLog :=
  if change && existsb (String.eqb "resolved") changed_data then
    if resolved obj && negb (isSome (resolved_by obj))
    then set_resolution (resolved obj) (Some request_user) (Some (e_now e)) obj
    else if negb (resolved obj)
    then set_resolution (resolved obj) None None obj
    else obj
  else obj.

(** [save_model]: [obj] carries the values of the submitted form,
    [changed_data] is [form.changed_data]. *)
Definition save_model (request_user : Z) (obj : ErrorLog)
           (changed_data : list string) (change : bool) (e : env) : M ErrorLog :=
  save json_loads (save_model_stamp request_user obj changed_data change e) e.

End Admin.

(** ** Sample library functions

    Executable stand-ins for the two library functions, used only to
    run the examples.  [sample_json_loads] is a decoder for the documents
    of the examples: JSON without fractions, exponents and [\u] escapes;
    a document that has them is outside its range (it answers as for a
    malformed one, which [json.loads] does not), and no example uses one.
    [sample_format_exception] renders a traceback without source
    lines. *)

Definition json_ws (c : ascii) : bool :=
  let n := nat_of_ascii c in
  (Nat.eqb n 32 || Nat.eqb n 9 || Nat.eqb n 10 || Nat.eqb n 13)%bool.

Fixpoint skip_ws (s : string) : string :=
  match s with
  | EmptyString => EmptyString
  | String c t => if json_ws c then skip_ws t else s
  end.

Definition is_digit (c : ascii) : bool :=
  let n := nat_of_ascii c in (Nat.leb 48 n && Nat.leb n 57)%bool.

Fixpoint parse_digits (acc : Z) (s : string) : Z * string :=
  match s with
  | EmptyString => (acc, s)
  | String c t =>
      if is_digit c then parse_digits (10 * acc + Z.of_nat (nat_of_ascii c - 48)) t
      else (acc, s)
  end.

Definition starts_fraction (s : string) : bool :=
  match s with
  | String c _ => (Ascii.eqb c "." || Ascii.eqb c "e" || Ascii.eqb c "E")%bool
  | EmptyString => false
  end.

Definition parse_nat_lit (s : string) : option (Z * string) :=
  match s with
  | String c t =>
      if Ascii.eqb c "0" then (if starts_fraction t then None else Some (0, t))
      else if is_digit c then
        let '(n, rest) := parse_digits 0 s in
        if starts_fraction rest then None else Some (n, rest)
      else None
  | EmptyString => None
  end.

Definition dquote : ascii := ascii_of_nat 34.

Definition unescape (c : ascii) : option ascii :=
  if Ascii.eqb c dquote then Some dquote
  else if Ascii.eqb c "\" then Some "\"%char
  else if Ascii.eqb c "/" then Some "/"%char
  else if Ascii.eqb c "b" then Some (ascii_of_nat 8)
  else if Ascii.eqb c "f" then Some (ascii_of_nat 12)
  else if Ascii.eqb c "n" then Some (ascii_of_nat 10)
  else if Ascii.eqb c "r" then Some (ascii_of_nat 13)
  else if Ascii.eqb c "t" then Some (ascii_of_nat 9)
  else None.

(** The characters after an opening quote, up to the closing one. *)
Fixpoint parse_string_body (s : string) : option (string * string) :=
  match s with
  | EmptyString => None
  | String c t =>
      if Ascii.eqb c dquote then Some (EmptyString, t)
      else if Ascii.eqb c "\" then
        match t with
        | String c' t' =>
            match unescape c', parse_string_body t' with
            | Some x, Some (body, rest) => Some (String x body, rest)
            | _, _ => None
            end
        | EmptyString => None
        end
      else if Nat.ltb (nat_of_ascii c) 32 then None
      else
        match parse_string_body t with
        | Some (body, rest) => Some (String c body, rest)
        | None => None
        end
  end.

Definition drop_prefix (lit s : string) : option string :=
  if String.prefix lit s
  then Some (String.substring (String.length lit) (String.length s - String.length lit) s)
  else None.

Fixpoint parse_value (fuel : nat) (s : string) : option (pyval * string) :=
  match fuel with
  | O => None
  | S n =>
      match skip_ws s with
      | EmptyString => None
      | String c t as s' =>
          if Ascii.eqb c "n" then option_map (pair PNone) (drop_prefix "null" s')
          else if Ascii.eqb c "t" then option_map (pair (PBool true)) (drop_prefix "true" s')
          else if Ascii.eqb c "f" then option_map (pair (PBool false)) (drop_prefix "false" s')
          else if Ascii.eqb c dquote then
            match parse_string_body t with
            | Some (body, rest) => Some (PStr body, rest)
            | None => None
            end
          else if Ascii.eqb c "-" then
            match parse_nat_lit t with
            | Some (z, rest) => Some (PInt (- z), rest)
            | None => None
            end
          else if Ascii.eqb c "[" then
            match skip_ws t with
            | String c' t' =>
                if Ascii.eqb c' "]" then Some (PList [], t') else parse_elements n [] t
            | EmptyString => None
            end
          else if Ascii.eqb c "{" then
            match skip_ws t with
            | String c' t' =>
                if Ascii.eqb c' "}" then Some (PDict [], t') else parse_members n [] t
            | EmptyString => None
            end
          else
            match parse_nat_lit s' with
            | Some (z, rest) => Some (PInt z, rest)
            | None => None
            end
      end
  end
with parse_elements (fuel : nat) (acc : list pyval) (s : string) : option (pyval * string) :=
  match fuel with
  | O => None
  | S n =>
      match parse_value n s with
      | Some (v, rest) =>
          match skip_ws rest with
          | String c t =>
              if Ascii.eqb c "," then parse_elements n (acc ++ [v]) t
              else if Ascii.eqb c "]" then Some (PList (acc ++ [v]), t)
              else None
          | EmptyString => None
          end
      | None => None
      end
  end
with parse_members (fuel : nat) (acc : pydict) (s : string) : option (pyval * string) :=
  match fuel with
  | O => None
  | S n =>
      match skip_ws s with
      | String q t =>
          if Ascii.eqb q dquote then
            match parse_string_body t with
            | Some (key, rest) =>
                match skip_ws rest with
                | String c t' =>
                    if Ascii.eqb c ":" then
                      match parse_value n t' with
                      | Some (v, rest') =>
                          match skip_ws rest' with
                          | String c' t'' =>
                              if Ascii.eqb c' "," then parse_members n (dict_set key v acc) t''
                              else if Ascii.eqb c' "}" then Some (PDict (dict_set key v acc), t'')
                              else None
                          | EmptyString => None
                          end
                      | None => None
                      end
                    else None
                | EmptyString => None
                end
            | None => None
            end
          else None
      | EmptyString => None
      end
  end.

Definition sample_json_loads (s : string) : outcome pyval :=
  match parse_value (S (String.length s)) s with
  | Some (v, rest) =>
      match skip_ws rest with
      | EmptyString => Ok v
      | _ => Raise (JSONDecodeError "Extra data")
      end
  | None => Raise (JSONDecodeError "Expecting value")
  end.

Definition nl : string := String (ascii_of_nat 10) EmptyString.

Definition sample_format_exception (ty : string) (value : exc_obj) (tb : traceback)
  : string :=
  "Traceback (most recent call last):" ++ nl
  ++ String.concat ""
       (map (fun x => "  File " ++ tb_filename x ++ ", in " ++ tb_name x ++ nl) tb)
  ++ ty ++ ": " ++ exc_str value ++ nl.

(** ** Concurrent ingestion

    The code opens no transaction and takes no lock, so between the
    SELECT of one call and its UPDATE or INSERT the statements of other
    calls may run.  A call in progress is a [thread]; a schedule names,
    step by step, the thread that executes its next statement. *)

Section Concurrency.

Variable json_loads : string -> outcome pyval.
Variable format_exception : string -> exc_obj -> traceback -> string.

Inductive thread : Type :=
| Pending (a : call) (e : env)
| Selected (a : call) (e : env) (found : pydict * option ErrorLog)
| Finished (result : outcome (option ErrorLog)).

Definition step_thread (t : thread) (w : World) : thread * World :=
  match t with
  | Pending a e =>
      match track_error_select format_exception a e w with
      | (Ok found, w') => (Selected a e found, w')
      | (Raise ex, w') =>
          let '(result, w'') := track_error_except ex w' in (Finished result, w'')
      end
  | Selected a e found =>
      match track_error_write json_loads format_exception a e found w with
      | (Ok error_log, w') => (Finished (Ok (Some error_log)), w')
      | (Raise ex, w') =>
          let '(result, w'') := track_error_except ex w' in (Finished result, w'')
      end
  | Finished _ => (t, w)
  end.

Fixpoint set_nth {A} (n : nat) (x : A) (l : list A) : list A :=
  match l, n with
  | [], _ => []
  | _ :: t, O => x :: t
  | y :: t, S m => y :: set_nth m x t
  end.

(** Run the threads along a schedule. *)
Fixpoint run (schedule : list nat) (ts : list thread) (w : World) : list thread * World :=
  match schedule with
  | [] => (ts, w)
  | i :: rest =>
      match nth_error ts i with
      | Some t =>
          let '(t', w') := step_thread t w in
          run rest (set_nth i t' ts) w'
      | None => run rest ts w
      end
  end.

Definition is_finished (t : thread) : bool :=
  match t with Finished _ => true | _ => false end.

(** The calls one after the other, each running to its end. *)
Fixpoint run_sequential (calls : list (call * env)) (w : World) : World :=
  match calls with
  | [] => w
  | (a, e) :: rest =>
      run_sequential rest (snd (track_error json_loads format_exception a e w))
  end.

End Concurrency.

(** ** Operations and the states they reach *)

(** The dedup key of a stored record and of a normalized event. *)
Definition dedup_key : Type := string * string * string * option Z.

Definition row_key (r : ErrorLog) : dedup_key :=
  (exception_type r, exception_message r, file_path r, line_number r).

Definition info_key (info : error_info) : dedup_key :=
  (i_exception_type info, i_exception_message info, i_file_path info, i_line_number info).

Definition is_open (r : ErrorLog) : bool := negb (resolved r).

Definition empty_world : World := {| rows := []; next_id := 1; log := [] |}.

Section Operations.

Variable json_loads : string -> outcome pyval.
Variable format_exception : string -> exc_obj -> traceback -> string.

Inductive op : Type :=
| Track (a : call) (e : env)
| Resolve (request_user : Z) (selected : list Z) (e : env)
| Unresolve (request_user : Z) (selected : list Z) (e : env)
| DeleteResolved (request_user : Z) (selected : list Z) (e : env)
| Edit (request_user : Z) (obj : ErrorLog) (changed_data : list string) (e : env).

(** The world after an operation (an exception that escapes an
    administrative action leaves the world as it is at that point). *)
Definition exec (o : op) (w : World) : World :=
  match o with
  | Track a e => snd (track_error json_loads format_exception a e w)
  | Resolve u sel e => snd (mark_as_resolved u sel e w)
  | Unresolve u sel e => snd (mark_as_unresolved u sel e w)
  | DeleteResolved u sel e => snd (bulk_delete_resolved u sel e w)
  | Edit u obj changed_data e => snd (save_model json_loads u obj changed_data true e w)
  end.

Definition exec_all (ops : list op) (w : World) : World :=
  fold_left (fun w o => exec o w) ops w.

Inductive reachable : World -> Prop :=
| reachable_init : reachable empty_world
| reachable_step w o : reachable w -> reachable (exec o w).

(** An edit of a stored record that neither reopens it nor moves an open
    record to another key. *)
Definition edit_keeps_keys (obj : ErrorLog) (w : World) : Prop :=
  exists i old,
    id obj = Some i /\ In old (rows w) /\ id old = Some i /\
    (resolved obj = true \/ (resolved old = false /\ row_key obj = row_key old)).

(** The operations other than the unresolve transitions and the edits
    they exclude. *)
Definition keeps_keys (o : op) (w : World) : Prop :=
  match o with
  | Track _ _ | Resolve _ _ _ | DeleteResolved _ _ _ => True
  | Unresolve _ _ _ => False
  | Edit _ obj _ _ => edit_keeps_keys obj w
  end.

Inductive reachable_keeping : World -> Prop :=
| reachable_keeping_init : reachable_keeping empty_world
| reachable_keeping_step w o :
    reachable_keeping w -> keeps_keys o w -> reachable_keeping (exec o w).

End Operations.

(** No two open records share a dedup key. *)
Definition unique_open (w : World) : Prop :=
  NoDup (map row_key (filter is_open (rows w))).

(** Primary keys: present, distinct and below the sequence. *)
Definition ids_ok (w : World) : Prop :=
  NoDup (map id (rows w)) /\
  forall r, In r (rows w) -> exists i, id r = Some i /\ i < next_id w.

(** A row whose [debug_details] is a JSON object. *)
Definition storable_row (r : ErrorLog) : bool :=
  match debug_details r with
  | PDict d => json_serialisable (PDict d)
  | _ => false
  end.

Definition storable (w : World) : Prop :=
  forall r, In r (rows w) -> storable_row r = true.

(** A call whose exception can be printed and that the enrichment
    accepts, with details JSON can encode, on a backend that answers. *)
Definition call_ok (a : call) (e : env) : bool :=
  match str_raises (a_exception a), e_fault e with
  | None, NoFault =>
      match combine_debug_details a e with
      | Ok combined => json_serialisable (PDict combined)
      | Raise _ => false
      end
  | _, _ => false
  end.

(** A dictionary argument is a dictionary proper: its keys are distinct. *)
Definition proper_dict (v : pyval) : Prop :=
  match v with
  | PDict d => NoDup (map fst d)
  | _ => True
  end.

(** ** Sample inputs *)

Definition sample_env (now : Z) : env :=
  {| e_now := now;
     e_exc_info := None;
     e_caller := Some {| co_filename := "jobs.py"; f_lineno := 7; co_name := "nightly" |};
     e_DJANGO_VERSION := None;
     e_DEBUG := None;
     e_sys_version := "3.11";
     e_sys_platform := "linux";
     e_DEBUG_ERROR_TRACKING := false;
     e_fault := NoFault |}.

(** [ValueError("boom")], raised in [handler] at [views.py:10]. *)
Definition boom : exc_obj :=
  {| exc_class := "ValueError";
     exc_str := "boom";
     exc_str_fault := None;
     exc_traceback :=
       [ {| tb_filename := "app.py"; tb_lineno := 3; tb_name := "main" |};
         {| tb_filename := "views.py"; tb_lineno := 10; tb_name := "handler" |} ] |}.

(** [track_error(exception=boom)] *)
Definition sample_call : call :=
  {| a_exception := ExcObject boom;
     a_error_level := ErrorLevel.ERROR;
     a_custom_message := None;
     a_debug_details := PNone;
     a_request := None;
     a_user := None;
     a_file_path := None;
     a_line_number := None;
     a_function_name := None;
     a_kwargs := [] |}.

(** [track_error(exception=boom, custom_message="custom",
                 file_path="override.py", line_number=99, function_name="overridden")] *)
Definition call_with_overrides : call :=
  {| a_exception := ExcObject boom;
     a_error_level := ErrorLevel.ERROR;
     a_custom_message := Some "custom";
     a_debug_details := PNone;
     a_request := None;
     a_user := None;
     a_file_path := Some "override.py";
     a_line_number := Some 99;
     a_function_name := Some "overridden";
     a_kwargs := [] |}.

(** A POST to [/login?token=abc] with form data
    [{"password": "x", "name": "y"}]. *)
Definition sample_request : request_obj :=
  {| r_method := Some "POST";
     r_path := Some "/login";
     r_get_full_path := Some "/login?token=abc";
     r_META := Some [("REMOTE_ADDR", "10.0.0.1")];
     r_session := None;
     r_headers := None;
     r_is_secure := Some true;
     r_GET := Some [("token", ["abc"])];
     r_POST := Some [("password", ["x"]); ("name", ["y"])];
     r_user := None |}.

(** [track_error(exception=boom, request=sample_request)] *)
Definition call_with_request : call :=
  {| a_exception := ExcObject boom;
     a_error_level := ErrorLevel.ERROR;
     a_custom_message := None;
     a_debug_details := PNone;
     a_request := Some sample_request;
     a_user := None;
     a_file_path := None;
     a_line_number := None;
     a_function_name := None;
     a_kwargs := [] |}.

Definition sample_track := track_error sample_json_loads sample_format_exception.

Definition sample_exec := exec_all sample_json_loads sample_format_exception.

(** The table after [boom] was ingested once, at time 1. *)
Definition world_one : World :=
  Eval vm_compute in sample_exec [Track sample_call (sample_env 1)] empty_world.

(** ... and its record then resolved by user 5, at time 2. *)
Definition world_resolved : World :=
  Eval vm_compute in sample_exec [Resolve 5 [1] (sample_env 2)] world_one.

(** Ingest, resolve, ingest again, reopen the first record. *)
Definition reopen_scenario : list op :=
  [ Track sample_call (sample_env 1);
    Resolve 5 [1] (sample_env 2);
    Track sample_call (sample_env 3);
    Unresolve 5 [1] (sample_env 4) ].

(** [ErrorLog()]: the column defaults of the model. *)
Definition new_ErrorLog : ErrorLog :=
  {| id := None; error_level := ErrorLevel.ERROR; exception_type := "";
     exception_message := ""; file_path := ""; line_number := None; function_name := "";
     user := None; request_method := ""; request_path := ""; user_agent := "";
     ip_address := None; stack_trace := ""; debug_details := PDict [];
     resolved := false; resolved_by := None; resolved_at := None; notes := "";
     count := 1; first_occurrence := 0; last_occurrence := 0;
     created_at := 0; updated_at := 0 |}.

(** The one row of [world_one]. *)
Definition row_one : ErrorLog := hd new_ErrorLog (rows world_one).

(** The change form of [row_one] as user 5 submits it: [resolved] ticked,
    [resolved_by] set to user 7, [resolved_at] left empty. *)
Definition form_resolved_by_only : ErrorLog := set_resolution true (Some 7) None row_one.



(** A request-like object with no attribute at all. *)
Definition bare_request : request_obj :=
  {| r_method := None; r_path := None; r_get_full_path := None; r_META := None;
     r_session := None; r_headers := None; r_is_secure := None;
     r_GET := None; r_POST := None; r_user := None |}.

(** [track_error(exception=boom, request=bare_request)] *)
Definition call_bare_request : call :=
  {| a_exception := ExcObject boom; a_error_level := ErrorLevel.ERROR;
     a_custom_message := None; a_debug_details := PNone;
     a_request := Some bare_request; a_user := None; a_file_path := None;
     a_line_number := None; a_function_name := None; a_kwargs := [] |}.

(** [track_error(exception=boom, connection=<socket object>)] *)
Definition call_with_object : call :=
  {| a_exception := ExcObject boom; a_error_level := ErrorLevel.ERROR;
     a_custom_message := None; a_debug_details := PNone;
     a_request := None; a_user := None; a_file_path := None;
     a_line_number := None; a_function_name := None;
     a_kwargs := [("connection", PObject "<socket object>")] |}.

(** [track_error(exception=boom, debug_details="see ticket 12")] *)
Definition call_with_text_details : call :=
  {| a_exception := ExcObject boom; a_error_level := ErrorLevel.ERROR;
     a_custom_message := None; a_debug_details := PStr "see ticket 12";
     a_request := None; a_user := None; a_file_path := None;
     a_line_number := None; a_function_name := None; a_kwargs := [] |}.

(** The environment of [sample_env] with the backend failing. *)
Definition failing_env (now : Z) (fault : db_fault) : env :=
  {| e_now := now; e_exc_info := None; e_caller := e_caller (sample_env now);
     e_DJANGO_VERSION := None; e_DEBUG := None; e_sys_version := "3.11";
     e_sys_platform := "linux"; e_DEBUG_ERROR_TRACKING := false; e_fault := fault |}.

(** [Bad()] for [class Bad(Exception)] whose [__str__] is [raise self],
    raised in [handler] at [views.py:10]. *)
Definition bad : exc_obj :=
  {| exc_class := "Bad";
     exc_str := "";
     exc_str_fault := Some StrRaisesSelf;
     exc_traceback :=
       [ {| tb_filename := "app.py"; tb_lineno := 3; tb_name := "main" |};
         {| tb_filename := "views.py"; tb_lineno := 10; tb_name := "handler" |} ] |}.

(** [track_error(exception=bad)] *)
Definition call_unprintable : call :=
  {| a_exception := ExcObject bad; a_error_level := ErrorLevel.ERROR;
     a_custom_message := None; a_debug_details := PNone;
     a_request := None; a_user := None; a_file_path := None;
     a_line_number := None; a_function_name := None; a_kwargs := [] |}.



(** A POST to [/login?Token=abc] whose form names its fields in mixed
    case: [{"PassWord": "x", "X-CSRF_Token": "t", "name": "y"}]. *)
Definition mixed_case_request : request_obj :=
  {| r_method := Some "POST";
     r_path := Some "/login";
     r_get_full_path := Some "/login?Token=abc";
     r_META := Some [("REMOTE_ADDR", "10.0.0.1")];
     r_session := None;
     r_headers := None;
     r_is_secure := Some true;
     r_GET := Some [("Token", ["abc"])];
     r_POST := Some [("PassWord", ["x"]); ("X-CSRF_Token", ["t"]); ("name", ["y"])];
     r_user := None |}.

(** [track_error(exception=boom, request=mixed_case_request)] *)
Definition call_mixed_case : call :=
  {| a_exception := ExcObject boom;
     a_error_level := ErrorLevel.ERROR;
     a_custom_message := None;
     a_debug_details := PNone;
     a_request := Some mixed_case_request;
     a_user := None;
     a_file_path := None;
     a_line_number := None;
     a_function_name := None;
     a_kwargs := [] |}.






(** ** The redaction rule as the specification words it

    A key is sensitive when it contains, case-insensitively, one of the
    terms [password], [token], [api_key], [secret], [csrf_token].  The
    terms are in lower case: a character of the key matches a character
    of a term when it is that character or, for a letter, its capital. *)

Definition is_lower_letter (c : ascii) : bool :=
  let n := nat_of_ascii c in (Nat.leb 97 n && Nat.leb n 122)%bool.

Definition spec_matches_ignoring_case (c t : ascii) : bool :=
  (Ascii.eqb c t
   || (is_lower_letter t && Nat.eqb (nat_of_ascii c + 32) (nat_of_ascii t)))%bool.

Fixpoint spec_starts_with_ignoring_case (term key : string) : bool :=
  match term, key with
  | EmptyString, _ => true
  | String t term', String c key' =>
      spec_matches_ignoring_case c t && spec_starts_with_ignoring_case term' key'
  | String _ _, EmptyString => false
  end.

Fixpoint spec_contains_ignoring_case (term key : string) : bool :=
  spec_starts_with_ignoring_case term key
  || match key with
     | EmptyString => false
     | String _ key' => spec_contains_ignoring_case term key'
     end.

Definition spec_sensitive_key (key : string) : bool :=
  (spec_contains_ignoring_case "password" key
   || spec_contains_ignoring_case "token" key
   || spec_contains_ignoring_case "api_key" key
   || spec_contains_ignoring_case "secret" key
   || spec_contains_ignoring_case "csrf_token" key)%bool.

(** The characters the five terms are written in: lower-case letters and
    the underscore. *)
Definition is_term_char (t : ascii) : bool := (is_lower_letter t || Ascii.eqb t "_")%bool.

Fixpoint all_term_chars (term : string) : bool :=
  match term with
  | EmptyString => true
  | String t term' => is_term_char t && all_term_chars term'
  end.

(** The 256 characters. *)
Definition all_ascii : list ascii := map ascii_of_nat (seq 0 256).

(** ** The convenience wrappers ([services/error_tracker.py], lines 258-296)

    A wrapper passes its keyword arguments on to [track_error]; they are
    given here as a [call] whose exception, request and (for the wrappers
    that fix it) level the wrapper sets.  Naming one of those a second
    time among the keyword arguments is a [TypeError] at the call and is
    outside the model.  Inside [track_error] the caller's frame is then
    the wrapper's own frame. *)

Section Wrappers.

Variable json_loads : string -> outcome pyval.
Variable format_exception : string -> exc_obj -> traceback -> string.

(** [__file__] of [services/error_tracker.py], and the line a wrapper's
    frame is at while it calls [track_error]. *)
Variable module_file : string.
Variable wrapper_line : string -> Z.

Definition wrapper_frame (name : string) : frame :=
  {| co_filename := module_file; f_lineno := wrapper_line name; co_name := name |}.

(** What [track_error] reads from the process when wrapper [name] calls it. *)
Definition inside (name : string) (e : env) : env :=
  {| e_now := e_now e;
     e_exc_info := e_exc_info e;
     e_caller := Some (wrapper_frame name);
     e_DJANGO_VERSION := e_DJANGO_VERSION e;
     e_DEBUG := e_DEBUG e;
     e_sys_version := e_sys_version e;
     e_sys_platform := e_sys_platform e;
     e_DEBUG_ERROR_TRACKING := e_DEBUG_ERROR_TRACKING e;
     e_fault := e_fault e |}.


(** [exception=..., error_level=..., request=request, **kwargs] *)
Definition pass_on_level (exception : exc_arg) (error_level : string)
           (request : option request_obj) (kwargs : call) : call :=
  {| a_exception := exception;
     a_error_level := error_level;
     a_custom_message := a_custom_message kwargs;
     a_debug_details := a_debug_details kwargs;
     a_request := request;
     a_user := a_user kwargs;
     a_file_path := a_file_path kwargs;
     a_line_number := a_line_number kwargs;
     a_function_name := a_function_name kwargs;
     a_kwargs := a_kwargs kwargs |}.


(** [track_warning] *)
Definition track_warning (message : string) (request : option request_obj)
           (kwargs : call) (e : env) : M (option ErrorLog) :=
  track_error json_loads format_exception
              (pass_on_level (ExcMessage message) ErrorLevel.WARNING request kwargs)
              (inside "track_warning" e).

(** [track_info] *)
Definition track_info (message : string) (request : option request_obj)
           (kwargs : call) (e : env) : M (option ErrorLog) :=
  track_error json_loads format_exception
              (pass_on_level (ExcMessage message) ErrorLevel.INFO request kwargs)
              (inside "track_info" e).

(** [track_critical] *)
Definition track_critical (exception : exc_arg) (request : option request_obj)
           (kwargs : call) (e : env) : M (option ErrorLog) :=
  track_error json_loads format_exception
              (pass_on_level exception ErrorLevel.CRITICAL request kwargs)
              (inside "track_critical" e).

End Wrappers.

(** ** Display and filtering ([models/error_log.py], [admin/error_log.py]) *)

(** [str(n)] for an integer. *)
Definition str_of_Z (n : Z) : string := DecimalString.NilZero.string_of_int (Z.to_int n).

(** [if n:] for an optional integer. *)
Definition opt_Z_truthy (o : option Z) : bool :=
  match o with
  | Some n => negb (n =? 0)
  | None => false
  end.


(** [s.split(sep)[-1]] for a one-character separator: the text after the
    last separator. *)
Fixpoint split_last (sep : ascii) (s : string) : string :=
  match s with
  | EmptyString => EmptyString
  | String c t =>
      if str_in (String sep EmptyString) t then split_last sep t
      else if Ascii.eqb c sep then t
      else s
  end.


(** [ErrorLog.location_display] *)
Definition location_display (self : ErrorLog) : string :=
  if opt_Z_truthy (line_number self)
  then file_path self ++ ":" ++ str_of_Z (match line_number self with Some n => n | None => 0 end)
  else file_path self.

Section Time.

(** The length of an hour, in the unit of the timestamps. *)
Variable hour : Z.

(** [ErrorLog.is_recent], at time [now]. *)
Definition is_recent (now : Z) (self : ErrorLog) : bool :=
  last_occurrence self >? now - 24 * hour.

(** [RecentErrorsFilter.queryset]: [value] is [self.value()], the
    queryset the list of its rows. *)
Definition RecentErrorsFilter_queryset (value : option string) (now : Z)
           (queryset : list ErrorLog) : list ErrorLog :=
  match value with
  | Some v =>
      if String.eqb v "1h"
      then filter (fun r => last_occurrence r >=? now - hour) queryset
      else if String.eqb v "24h"
      then filter (fun r => last_occurrence r >=? now - 24 * hour) queryset
      else if String.eqb v "7d"
      then filter (fun r => last_occurrence r >=? now - 7 * (24 * hour)) queryset
      else if String.eqb v "30d"
      then filter (fun r => last_occurrence r >=? now - 30 * (24 * hour)) queryset
      else queryset
  | None => queryset
  end.

End Time.

(** [format_html(template, *args)], kept as its arguments: the escaping
    is the library's. *)
Record html : Type := {
  template : string;
  args : list string
}.

Definition quote : string := String dquote EmptyString.


(** [ErrorLogAdmin.location_link] *)
Definition location_link (obj : ErrorLog) : html :=
  let location :=
    if opt_Z_truthy (line_number obj) then
      let location :=
        split_last "/" (file_path obj) ++ ":"
        ++ str_of_Z (match line_number obj with Some n => n | None => 0 end) in
      if str_truthy (function_name obj)
      then location ++ " (" ++ function_name obj ++ ")"
      else location
    else
      if str_truthy (file_path obj) then split_last "/" (file_path obj) else "Unknown" in
  {| template := "<code title=" ++ quote ++ "{}" ++ quote ++ ">{}</code>";
     args := [file_path obj; location] |}.

(** ** Settings ([settings.py]) *)

(** What [extend_superapp_settings] can raise. *)
Inductive py_error : Type :=
| PyKeyError (key : string)
| PyExn (e : exn).

Definition app_label : string := "superapp.apps.error_tracking".

(** The navigation section the function appends.  Lazy translations,
    the lazy URL and the permission callback are objects. *)
Definition error_tracking_nav : pyval :=
  PDict
    [ ("title", PObject "gettext_lazy('Error Tracking')");
      ("icon", PStr "bug_report");
      ("items",
       PList
         [ PDict
             [ ("title", PObject "gettext_lazy('Error Logs')");
               ("icon", PStr "error");
               ("link", PObject "reverse_lazy('admin:error_tracking_errorlog_changelist')");
               ("permission",
                PObject "lambda request: request.user.has_perm('error_tracking.view_errorlog')")
             ] ]) ].

(** [extend_superapp_settings(main_settings)]: the exception it ends
    with, if any, and [main_settings] as it leaves it.  A value that is
    not a list (a tuple is an object here) cannot take [+= [...]]; a value
    that is not a dictionary cannot be searched for a key and assigned to
    one; a value that is not a list has no [append]. *)
Definition extend_superapp_settings (main_settings : pydict) : option py_error * pydict :=
  match dict_get "INSTALLED_APPS" main_settings with
  | None => (Some (PyKeyError "INSTALLED_APPS"), main_settings)
  | Some (PList apps) =>
      let main_settings :=
        dict_set "INSTALLED_APPS" (PList (apps ++ [PStr app_label])) main_settings in
      let main_settings :=
        if dict_has "UNFOLD" main_settings then main_settings
        else dict_set "UNFOLD" (PDict []) main_settings in
      match dict_get "UNFOLD" main_settings with
      | Some (PDict unfold) =>
          let unfold :=
            if dict_has "SIDEBAR" unfold then unfold
            else dict_set "SIDEBAR" (PDict []) unfold in
          match dict_get "SIDEBAR" unfold with
          | Some (PDict sidebar) =>
              let sidebar :=
                if dict_has "navigation" sidebar then sidebar
                else dict_set "navigation" (PList []) sidebar in
              match dict_get "navigation" sidebar with
              | Some (PList navigation) =>
                  (None,
                   dict_set "UNFOLD"
                     (PDict
                        (dict_set "SIDEBAR"
                           (PDict
                              (dict_set "navigation"
                                 (PList (navigation ++ [error_tracking_nav])) sidebar))
                           unfold))
                     main_settings)
              | _ => (Some (PyExn (AttributeError "append")), main_settings)
              end
          | _ => (Some (PyExn (TypeError "SIDEBAR")), main_settings)
          end
      | _ => (Some (PyExn (TypeError "UNFOLD")), main_settings)
      end
  | Some _ => (Some (PyExn (TypeError "INSTALLED_APPS")), main_settings)
  end.

(** [main_settings['INSTALLED_APPS']], when it is a list. *)
Definition installed_apps (main_settings : pydict) : option (list pyval) :=
  match dict_get "INSTALLED_APPS" main_settings with
  | Some (PList apps) => Some apps
  | _ => None
  end.

(** [main_settings['UNFOLD']['SIDEBAR']['navigation']], when the path is
    there and ends in a list. *)
Definition sidebar_navigation (main_settings : pydict) : option (list pyval) :=
  match dict_get "UNFOLD" main_settings with
  | Some (PDict unfold) =>
      match dict_get "SIDEBAR" unfold with
      | Some (PDict sidebar) =>
          match dict_get "navigation" sidebar with
          | Some (PList navigation) => Some navigation
          | _ => None
          end
      | _ => None
      end
  | _ => None
  end.

(** Settings the function accepts: the apps are a list, and as far as the
    path [UNFOLD], [SIDEBAR], [navigation] exists it runs through
    dictionaries to a list. *)
Definition settings_accepted (main_settings : pydict) : bool :=
  match dict_get "INSTALLED_APPS" main_settings with
  | Some (PList _) =>
      match dict_get "UNFOLD" main_settings with
      | None => true
      | Some (PDict unfold) =>
          match dict_get "SIDEBAR" unfold with
          | None => true
          | Some (PDict sidebar) =>
              match dict_get "navigation" sidebar with
              | None => true
              | Some (PList _) => true
              | Some _ => false
              end
          | Some _ => false
          end
      | Some _ => false
      end
  | _ => false
  end.

(** [main_settings['UNFOLD']] and [main_settings['UNFOLD']['SIDEBAR']],
    as far as they are there; empty otherwise. *)
Definition unfold_settings (main_settings : pydict) : pydict :=
  match dict_get "UNFOLD" main_settings with
  | Some (PDict unfold) => unfold
  | _ => []
  end.

Definition sidebar_settings (main_settings : pydict) : pydict :=
  match dict_get "SIDEBAR" (unfold_settings main_settings) with
  | Some (PDict sidebar) => sidebar
  | _ => []
  end.

(** ** Vocabulary of the further properties *)

(** [s[0]] and [s[-1]], when [s] is not empty. *)
Definition first_char (s : string) : option ascii :=
  match s with
  | EmptyString => None
  | String c _ => Some c
  end.

Fixpoint last_char (s : string) : option ascii :=
  match s with
  | EmptyString => None
  | String c t => match t with EmptyString => Some c | _ => last_char t end
  end.

(** The keys [get_request_details] always sets. *)
Definition base_detail_keys : list string :=
  ["method"; "path"; "full_path"; "user_agent"; "ip_address"; "session_key";
   "is_ajax"; "is_secure"].

Definition has_params (q : option querydict) : bool :=
  match q with
  | Some d => qd_truthy d
  | None => false
  end.

(** ** Further sample inputs *)

(** A request that came through a proxy. *)
Definition proxied_request : request_obj :=
  {| r_method := Some "GET";
     r_path := Some "/reports";
     r_get_full_path := None;
     r_META := Some [ ("HTTP_X_FORWARDED_FOR", " 203.0.113.7 , 10.0.0.1");
                      ("HTTP_X_REAL_IP", "10.9.9.9");
                      ("REMOTE_ADDR", "127.0.0.1") ];
     r_session := None; r_headers := None; r_is_secure := None;
     r_GET := None; r_POST := None; r_user := None |}.

(** A request with only [X-Real-IP] set, by a load balancer. *)
Definition balanced_request : request_obj :=
  {| r_method := Some "GET";
     r_path := Some "/reports";
     r_get_full_path := None;
     r_META := Some [ ("HTTP_X_FORWARDED_FOR", "");
                      ("HTTP_X_REAL_IP", " 10.9.9.9 ");
                      ("REMOTE_ADDR", "127.0.0.1") ];
     r_session := None; r_headers := None; r_is_secure := None;
     r_GET := None; r_POST := None; r_user := None |}.

(** [isinstance(exception, Exception)] *)
Definition is_exception_object (x : exc_arg) : bool :=
  match x with
  | ExcObject _ => true
  | _ => false
  end.

(** [boom] once more, as seen while a [KeyError] raised in [load] at
    [cache.py:44] is being handled. *)
Definition missing_key : exc_obj :=
  {| exc_class := "KeyError";
     exc_str := "'user'";
     exc_str_fault := None;
     exc_traceback :=
       [ {| tb_filename := "app.py"; tb_lineno := 5; tb_name := "main" |};
         {| tb_filename := "cache.py"; tb_lineno := 44; tb_name := "load" |} ] |}.

(** [track_error("disk almost full", line_number=99, function_name="overridden")] *)
Definition message_call_partial_overrides : call :=
  {| a_exception := ExcMessage "disk almost full";
     a_error_level := ErrorLevel.WARNING;
     a_custom_message := None; a_debug_details := PNone; a_request := None;
     a_user := None; a_file_path := None; a_line_number := Some 99;
     a_function_name := Some "overridden"; a_kwargs := [] |}.

(** [track_error(custom_message="nightly job failed")] *)
Definition call_custom_message_only : call :=
  {| a_exception := ExcNone;
     a_error_level := ErrorLevel.ERROR;
     a_custom_message := Some "nightly job failed"; a_debug_details := PNone;
     a_request := None; a_user := None; a_file_path := None; a_line_number := None;
     a_function_name := None; a_kwargs := [] |}.

(** A wrapper called with no keyword argument of its own. *)
Definition no_kwargs : call :=
  {| a_exception := ExcNone;
     a_error_level := ErrorLevel.ERROR;
     a_custom_message := None; a_debug_details := PNone;
     a_request := None; a_user := None; a_file_path := None; a_line_number := None;
     a_function_name := None; a_kwargs := [] |}.

(** Where the module of the wrappers is installed, and the lines at
    which the wrappers call [track_error]. *)
Definition sample_module_file : string := "superapp/apps/error_tracking/services/error_tracker.py".

Definition sample_wrapper_line (name : string) : Z :=
  if String.eqb name "track_exception" then 265
  else if String.eqb name "track_warning" then 271
  else if String.eqb name "track_info" then 281
  else 291.

(** Another call site than that of [sample_env]: [charge] at
    [billing.py:120]. *)
Definition billing_env (now : Z) : env :=
  {| e_now := now; e_exc_info := None;
     e_caller := Some {| co_filename := "billing.py"; f_lineno := 120; co_name := "charge" |};
     e_DJANGO_VERSION := None; e_DEBUG := None; e_sys_version := "3.11";
     e_sys_platform := "linux"; e_DEBUG_ERROR_TRACKING := false; e_fault := NoFault |}.


(** Settings of a project that has set a title for the admin but no
    sidebar yet. *)
Definition sample_settings : pydict :=
  [ ("DEBUG", PBool true);
    ("INSTALLED_APPS", PList [PStr "django.contrib.admin"; PStr "unfold"]);
    ("UNFOLD", PDict [("SITE_TITLE", PStr "Back office")]) ].

(** Settings whose [UNFOLD] entry was set to [None]. *)
Definition broken_settings : pydict :=
  [ ("INSTALLED_APPS", PList [PStr "django.contrib.admin"]);
    ("UNFOLD", PNone) ].

(** The environment with [DEBUG_ERROR_TRACKING] set to [flag]. *)
Definition set_debug_flag (flag : bool) (e : env) : env :=
  {| e_now := e_now e;
     e_exc_info := e_exc_info e;
     e_caller := e_caller e;
     e_DJANGO_VERSION := e_DJANGO_VERSION e;
     e_DEBUG := e_DEBUG e;
     e_sys_version := e_sys_version e;
     e_sys_platform := e_sys_platform e;
     e_DEBUG_ERROR_TRACKING := flag;
     e_fault := e_fault e |}.

(** The world with another logger history. *)
Definition set_log (l : list (loglevel * logmsg)) (w : World) : World :=
  {| rows := rows w; next_id := next_id w; log := l |}.

(** A record that has occurred at least once, and not last before first. *)
Definition sane_row (r : ErrorLog) : Prop :=
  1 <= count r /\ first_occurrence r <= last_occurrence r.

Definition sane (w : World) : Prop := forall r, In r (rows w) -> sane_row r.

(** The environment an operation runs in. *)
Definition op_env (o : op) : env :=
  match o with
  | Track _ e => e
  | Resolve _ _ e => e
  | Unresolve _ _ e => e
  | DeleteResolved _ _ e => e
  | Edit _ _ _ e => e
  end.

Definition is_edit (o : op) : bool :=
  match o with
  | Edit _ _ _ _ => true
  | _ => false
  end.

(** A record with its three resolution columns blanked: what is left is
    everything a bulk resolution action has no business with. *)
Definition without_resolution (r : ErrorLog) : ErrorLog := set_resolution false None None r.

(** A record nobody has resolved or stamped yet. *)
Definition untouched (r : ErrorLog) : Prop :=
  resolved r = false /\ resolved_by r = None /\ resolved_at r = None.

(** Two runs that return the same and leave the same table; the logger
    output may differ. *)
Definition same_outcome {A} (x y : outcome A * World) : Prop :=
  fst x = fst y /\ rows (snd x) = rows (snd y) /\ next_id (snd x) = next_id (snd y).

(** * Properties *)

(** ** Python strings *)

Lemma prefix_spec a : forall s,
  String.prefix a s = true <-> exists post, s = a ++ post.
Proof.
  induction a as [|c a IH]; intros s; simpl.
  - destruct s; simpl; split; eauto.
  - destruct s as [|c' s]; simpl.
    + split; [discriminate|]. intros (post & H). discriminate.
    + destruct (ascii_dec c c') as [->|Hne].
      * rewrite IH. split; intros (post & H); exists post; congruence.
      * split; [discriminate|]. intros (post & H). congruence.
Qed.

(** [sub in s] holds exactly when [s] is some text, then [sub], then some
    text. *)
Lemma str_in_spec sub : forall s,
  str_in sub s = true <-> exists pre post, s = pre ++ sub ++ post.
Proof.
  induction s as [|c t IH].
  - change (str_in sub "") with (String.prefix sub "" || false)%bool.
    rewrite orb_false_r, prefix_spec. split.
    + intros (post & H). exists "", post. exact H.
    + intros (pre & post & H). destruct pre; simpl in H; [eauto|discriminate].
  - change (str_in sub (String c t))
      with (String.prefix sub (String c t) || str_in sub t)%bool.
    rewrite orb_true_iff, prefix_spec, IH. split.
    + intros [(post & H)|(pre & post & H)].
      * exists "", post. exact H.
      * exists (String c pre), post. simpl. congruence.
    + intros (pre & post & H). destruct pre as [|c' pre]; simpl in H.
      * left. eauto.
      * right. injection H as _ H. eauto.
Qed.

(** A key is sensitive exactly when its lowercase form contains one of
    the five terms. *)
Lemma is_sensitive_spec key :
  is_sensitive key = true <->
  exists term pre post,
    In term ["password"; "token"; "api_key"; "secret"; "csrf_token"]
    /\ lower key = pre ++ term ++ post.
Proof.
  unfold is_sensitive, sensitive_fields. rewrite existsb_exists. split.
  - intros (term & Hin & H). apply str_in_spec in H. destruct H as (pre & post & H).
    exists term, pre, post. auto.
  - intros (term & pre & post & Hin & H). exists term. split; [exact Hin|].
    apply str_in_spec. eauto.
Qed.

(** ** Dictionaries *)

Section DictFacts.
Context {V : Type}.
Implicit Types (d e : list (string * V)) (k : string).

Lemma dict_get_set k k' (v : V) d :
  dict_get k (dict_set k' v d) = if String.eqb k k' then Some v else dict_get k d.
Proof.
  induction d as [|[k0 v0] t IH]; simpl.
  - rewrite (String.eqb_sym k k'). reflexivity.
  - destruct (String.eqb k' k0) eqn:E'; simpl.
    + apply String.eqb_eq in E'. subst k0.
      destruct (String.eqb k k'); reflexivity.
    + destruct (String.eqb k k0) eqn:E0.
      * apply String.eqb_eq in E0. subst k0.
        rewrite String.eqb_sym, E'. reflexivity.
      * exact IH.
Qed.

Lemma dict_get_update k e : forall d,
  dict_get k (dict_update d e) =
  match last_binding k e with Some v => Some v | None => dict_get k d end.
Proof.
  unfold dict_update.
  induction e as [|[k' v] t IH]; intros d; simpl.
  - reflexivity.
  - rewrite IH, dict_get_set.
    destruct (last_binding k t); [reflexivity|].
    destruct (String.eqb k k'); reflexivity.
Qed.

Lemma dict_get_of_items k e : dict_get k (dict_of_items e) = last_binding k e.
Proof.
  unfold dict_of_items. rewrite dict_get_update. simpl.
  destruct (last_binding k e); reflexivity.
Qed.

Lemma last_binding_In k e v : last_binding k e = Some v -> In (k, v) e.
Proof.
  induction e as [|[k' v'] t IH]; simpl; [discriminate|].
  destruct (last_binding k t) as [x|].
  - intros H. right. apply IH. exact H.
  - destruct (String.eqb k k') eqn:E; [|discriminate].
    apply String.eqb_eq in E. subst k'. intros H. injection H as ->. left. reflexivity.
Qed.

Lemma dict_get_not_in k d : ~ In k (map fst d) -> dict_get k d = None.
Proof.
  induction d as [|[k' v] t IH]; simpl; [reflexivity|].
  intros H. destruct (String.eqb k k') eqn:E.
  - apply String.eqb_eq in E. subst k'. exfalso. apply H. left. reflexivity.
  - apply IH. intros Hin. apply H. right. exact Hin.
Qed.

(** On a dictionary proper (distinct keys) the last binding is the
    binding. *)
Lemma last_binding_nodup k d : NoDup (map fst d) -> last_binding k d = dict_get k d.
Proof.
  induction d as [|[k' v] t IH]; simpl; [reflexivity|].
  intros H. inversion H as [|? ? Hnot Hnd]; subst.
  rewrite (IH Hnd).
  destruct (String.eqb k k') eqn:E.
  - apply String.eqb_eq in E. subst k'.
    rewrite (dict_get_not_in _ _ Hnot). reflexivity.
  - destruct (dict_get k t); reflexivity.
Qed.

Lemma dict_set_keys k (v : V) d :
  map fst (dict_set k v d) = if existsb (String.eqb k) (map fst d)
                             then map fst d else (map fst d ++ [k])%list.
Proof.
  induction d as [|[k' v'] t IH]; simpl; [reflexivity|].
  destruct (String.eqb k k') eqn:E; simpl; [reflexivity|].
  rewrite IH. destruct (existsb (String.eqb k) (map fst t)); reflexivity.
Qed.

Lemma dict_set_nodup k (v : V) d : NoDup (map fst d) -> NoDup (map fst (dict_set k v d)).
Proof.
  intros H. rewrite dict_set_keys.
  destruct (existsb (String.eqb k) (map fst d)) eqn:E; [exact H|].
  apply NoDup_app; [exact H | repeat constructor; intros [] | ].
  { intros x Hx [Hk|[]]. subst x.
    assert (existsb (String.eqb k) (map fst d) = true) as C.
    { apply existsb_exists. exists k. split; [exact Hx | apply String.eqb_refl]. }
    congruence. }
Qed.

Lemma dict_update_nodup e : forall d,
  NoDup (map fst d) -> NoDup (map fst (dict_update d e)).
Proof.
  unfold dict_update.
  induction e as [|[k v] t IH]; intros d H; simpl; [exact H|].
  apply IH. apply dict_set_nodup. exact H.
Qed.

End DictFacts.

(** ** Enrichment: request parameters *)

Lemma is_sensitive_eqb k k' : String.eqb k k' = true -> is_sensitive k = is_sensitive k'.
Proof. intros E. apply String.eqb_eq in E. subst. reflexivity. Qed.

Lemma filter_post_fold items : forall acc1 acc2 : pydict,
  (forall key, dict_get key acc1 =
               option_map (fun v => if is_sensitive key then FILTERED else v)
                          (dict_get key acc2)) ->
  forall key,
    dict_get key
      (fold_left
         (fun post_data kv =>
            if is_sensitive (fst kv) then dict_set (fst kv) FILTERED post_data
            else dict_set (fst kv) (snd kv) post_data) items acc1) =
    option_map (fun v => if is_sensitive key then FILTERED else v)
               (dict_get key (dict_update acc2 items)).
Proof.
  unfold dict_update.
  induction items as [|[k v] t IH]; intros acc1 acc2 H key; simpl.
  - apply H.
  - apply IH. clear IH key. intros key.
    destruct (is_sensitive k) eqn:S; rewrite !dict_get_set;
      destruct (String.eqb key k) eqn:E; simpl; try apply H.
    + rewrite (is_sensitive_eqb _ _ E), S. reflexivity.
    + rewrite (is_sensitive_eqb _ _ E), S. reflexivity.
Qed.

(** The filtered copy holds, for every key, the marker if the key is
    sensitive and the parameter's own value otherwise. *)
Lemma filter_post_get items key :
  dict_get key (filter_post items) =
  option_map (fun v => if is_sensitive key then FILTERED else v)
             (dict_get key (dict_of_items items)).
Proof.
  unfold filter_post, dict_of_items.
  apply filter_post_fold. intros k. reflexivity.
Qed.

Lemma get_request_details_ok rq meta :
  r_META rq = Some meta ->
  exists details, get_request_details (Some rq) = Ok details.
Proof.
  intros HM. unfold get_request_details, get_client_ip. rewrite HM.
  destruct (meta_truthy "HTTP_X_FORWARDED_FOR" meta);
    [|destruct (meta_truthy "HTTP_X_REAL_IP" meta)]; eexists; reflexivity.
Qed.

Lemma get_request_details_post rq meta p details :
  r_META rq = Some meta -> r_POST rq = Some p -> qd_truthy p = true ->
  get_request_details (Some rq) = Ok details ->
  dict_get "post_params" details = Some (PDict (filter_post (qd_items p))).
Proof.
  intros HM HP HT. unfold get_request_details, get_client_ip. rewrite HM, HP, HT.
  destruct (meta_truthy "HTTP_X_FORWARDED_FOR" meta);
    [|destruct (meta_truthy "HTTP_X_REAL_IP" meta)];
    intros H; injection H as <-; rewrite dict_get_set; reflexivity.
Qed.

Lemma get_request_details_get rq meta g details :
  r_META rq = Some meta -> r_GET rq = Some g -> qd_truthy g = true ->
  get_request_details (Some rq) = Ok details ->
  dict_get "get_params" details = Some (PDict (dict_of_items (qd_items g))).
Proof.
  intros HM HG HT. unfold get_request_details, get_client_ip. rewrite HM, HG, HT.
  destruct (meta_truthy "HTTP_X_FORWARDED_FOR" meta);
    [|destruct (meta_truthy "HTTP_X_REAL_IP" meta)];
    intros H; injection H as <-;
    (destruct (r_POST rq) as [p|]; [destruct (qd_truthy p)|]);
    rewrite ?dict_get_set; simpl; rewrite ?dict_get_set; reflexivity.
Qed.

(** ** Queries and saves *)

Lemma first_In l r : first l = Some r -> In r l.
Proof.
  revert r. induction l as [|x t IH]; simpl; intros r H; [discriminate|].
  destruct (first t) as [r'|].
  - destruct (last_occurrence r' >? last_occurrence x); injection H as <-.
    + right. apply IH. reflexivity.
    + left. reflexivity.
  - injection H as <-. left. reflexivity.
Qed.

Lemma first_None l : first l = None -> l = [].
Proof.
  destruct l as [|x t]; simpl; [reflexivity|].
  destruct (first t) as [r'|]; [|discriminate].
  destruct (last_occurrence r' >? last_occurrence x); discriminate.
Qed.

Lemma option_Z_eqb_eq (x y : option Z) : option_eqb Z.eqb x y = true <-> x = y.
Proof.
  destruct x, y; simpl; split; intros H; try discriminate; try reflexivity.
  - apply Z.eqb_eq in H. subst. reflexivity.
  - injection H as ->. apply Z.eqb_refl.
Qed.

Lemma has_id_true i r : has_id i r = true <-> id r = Some i.
Proof. unfold has_id. apply option_Z_eqb_eq. Qed.

Lemma matches_open_spec info r :
  matches_open info r = true <-> row_key r = info_key info /\ resolved r = false.
Proof.
  unfold matches_open, row_key, info_key.
  rewrite !andb_true_iff, !String.eqb_eq, option_Z_eqb_eq, negb_true_iff.
  split.
  - intros [[[[-> ->] ->] ->] ->]. split; reflexivity.
  - intros [H ->]. injection H as -> -> -> ->. repeat split.
Qed.

Lemma found_open info l existing :
  first (filter (matches_open info) l) = Some existing ->
  In existing l /\ row_key existing = info_key info /\ resolved existing = false.
Proof.
  intros H. apply first_In, filter_In in H. destruct H as [Hin Hm].
  apply matches_open_spec in Hm. tauto.
Qed.

Lemma none_open info l r :
  first (filter (matches_open info) l) = None ->
  In r l -> row_key r = info_key info -> resolved r = true.
Proof.
  intros H Hin Hk. apply first_None in H.
  destruct (resolved r) eqn:R; [reflexivity|].
  assert (In r (filter (matches_open info) l)) as C.
  { apply filter_In. split; [exact Hin|]. apply matches_open_spec. tauto. }
  rewrite H in C. destruct C.
Qed.

Lemma existsb_has_id i l r : In r l -> id r = Some i -> existsb (has_id i) l = true.
Proof.
  intros Hin Hid. apply existsb_exists. exists r. split; [exact Hin|].
  apply has_id_true. exact Hid.
Qed.

(** What [Model.save] does to a row that is in the table. *)
Lemma model_save_update self e w i :
  id self = Some i -> existsb (has_id i) (rows w) = true ->
  json_serialisable (debug_details self) = true -> e_fault e <> FaultOnWrite ->
  model_save self e w =
  (Ok (set_updated_at (e_now e) (set_last_occurrence (e_now e) self)),
   set_rows (replace_row i (set_updated_at (e_now e) (set_last_occurrence (e_now e) self))
                         (rows w)) w).
Proof.
  intros Hid Hex Hj Hf. unfold model_save. rewrite Hid, Hex. simpl.
  rewrite Hj, Hid. simpl. destruct (e_fault e) eqn:F; try reflexivity. congruence.
Qed.

(** What [Model.save] does to an object that has no primary key yet. *)
Lemma model_save_insert self e w :
  id self = None ->
  json_serialisable (debug_details self) = true -> e_fault e <> FaultOnWrite ->
  model_save self e w =
  (Ok (set_id (Some (next_id w))
         (set_updated_at (e_now e) (set_last_occurrence (e_now e) (set_added (e_now e) self)))),
   {| rows := rows w ++
              [set_id (Some (next_id w))
                 (set_updated_at (e_now e)
                    (set_last_occurrence (e_now e) (set_added (e_now e) self)))];
      next_id := next_id w + 1; log := log w |}).
Proof.
  intros Hid Hj Hf. unfold model_save. rewrite Hid. simpl.
  rewrite Hj, Hid. simpl. destruct (e_fault e) eqn:F; try reflexivity. congruence.
Qed.

Lemma model_save_not_serialisable self e w :
  json_serialisable (debug_details self) = false ->
  model_save self e w = (Raise (TypeError "Object is not JSON serializable"), w).
Proof.
  intros H. unfold model_save.
  destruct (match id self with Some _ => _ | None => _ end); simpl; rewrite H; reflexivity.
Qed.

Lemma model_save_fault self e w :
  json_serialisable (debug_details self) = true -> e_fault e = FaultOnWrite ->
  model_save self e w = (Raise (OperationalError "write"), w).
Proof.
  intros H F. unfold model_save.
  destruct (match id self with Some _ => _ | None => _ end); simpl; rewrite H, F; reflexivity.
Qed.

Lemma model_save_raise self e w ex w' :
  model_save self e w = (Raise ex, w') -> w' = w.
Proof.
  unfold model_save. intros H.
  repeat match type of H with
         | context [if ?b then _ else _] => destruct b
         | context [match ?x with _ => _ end] => destruct x
         end;
    try discriminate; injection H as _ <-; reflexivity.
Qed.

Lemma replace_row_In i r' l :
  existsb (has_id i) l = true -> In r' (replace_row i r' l).
Proof.
  unfold replace_row. induction l as [|x t IH]; simpl; [discriminate|].
  destruct (has_id i x); simpl; [left; reflexivity|].
  intros H. right. apply IH. exact H.
Qed.

(** A successful [Model.save] leaves the saved object in the table; it
    keeps the object's key, resolution columns, counter, trace and
    details. *)
Lemma model_save_ok self e w r w' :
  model_save self e w = (Ok r, w') ->
  In r (rows w')
  /\ row_key r = row_key self
  /\ resolved r = resolved self /\ resolved_by r = resolved_by self
  /\ resolved_at r = resolved_at self
  /\ debug_details r = debug_details self
  /\ count r = count self /\ stack_trace r = stack_trace self
  /\ last_occurrence r = e_now e /\ updated_at r = e_now e.
Proof.
  unfold model_save.
  destruct (id self) as [i|] eqn:Hid.
  - destruct (existsb (has_id i) (rows w)) eqn:Hex; simpl;
      destruct (negb (json_serialisable (debug_details self))); try discriminate;
      destruct (e_fault e); try discriminate; simpl; rewrite Hid;
      intros H; injection H as <- <-; simpl; repeat split;
      first [ apply replace_row_In; exact Hex
            | apply in_or_app; right; left; reflexivity ].
  - simpl. destruct (negb (json_serialisable (debug_details self))); try discriminate.
    destruct (e_fault e); try discriminate; simpl; rewrite Hid;
      intros H; injection H as <- <-; simpl; repeat split;
      apply in_or_app; right; left; reflexivity.
Qed.

(** ** Rewriting one row *)

Lemma replace_row_absent i r' l :
  (forall r, In r l -> id r <> Some i) -> replace_row i r' l = l.
Proof.
  unfold replace_row. induction l as [|x t IH]; intros H; simpl; [reflexivity|].
  destruct (has_id i x) eqn:E.
  - apply has_id_true in E. exfalso. apply (H x); [left; reflexivity | exact E].
  - f_equal. apply IH. intros r Hr. apply H. right. exact Hr.
Qed.

(** With distinct primary keys, [UPDATE ... WHERE id = i] rewrites the
    one row that has the key and leaves the others alone. *)
Lemma replace_row_split i r' l1 x l2 :
  id x = Some i -> NoDup (map id (l1 ++ x :: l2)) ->
  replace_row i r' (l1 ++ x :: l2) = (l1 ++ r' :: l2)%list.
Proof.
  intros Hid Hnd. unfold replace_row. rewrite map_app. simpl.
  rewrite (proj2 (has_id_true i x) Hid).
  rewrite map_app in Hnd. simpl in Hnd.
  pose proof (NoDup_remove_2 _ _ _ Hnd) as Hnot.
  fold (replace_row i r' l1). fold (replace_row i r' l2).
  rewrite !replace_row_absent; [reflexivity | |].
  - intros r Hr E. apply Hnot. apply in_or_app. right.
    rewrite Hid, <- E. apply in_map. exact Hr.
  - intros r Hr E. apply Hnot. apply in_or_app. left.
    rewrite Hid, <- E. apply in_map. exact Hr.
Qed.

Lemma replace_row_in i r' l x :
  NoDup (map id l) -> In x l -> id x = Some i ->
  exists l1 l2, l = (l1 ++ x :: l2)%list /\ replace_row i r' l = (l1 ++ r' :: l2)%list.
Proof.
  intros Hnd Hin Hid. destruct (in_split _ _ Hin) as (l1 & l2 & ->).
  exists l1, l2. split; [reflexivity|]. apply replace_row_split; assumption.
Qed.

Lemma open_keys_swap l1 x y l2 :
  row_key y = row_key x -> resolved y = resolved x ->
  map row_key (filter is_open (l1 ++ y :: l2)) =
  map row_key (filter is_open (l1 ++ x :: l2)).
Proof.
  intros Hk Hr. rewrite !filter_app, !map_app. cbn [filter].
  assert (is_open y = is_open x) as -> by (unfold is_open; rewrite Hr; reflexivity).
  destruct (is_open x); simpl; rewrite ?Hk; reflexivity.
Qed.

(** Closing a row removes its key from the open keys. *)
Lemma open_keys_close l1 x y l2 :
  resolved y = true ->
  NoDup (map row_key (filter is_open (l1 ++ x :: l2))) ->
  NoDup (map row_key (filter is_open (l1 ++ y :: l2))).
Proof.
  intros Hr. rewrite !filter_app, !map_app. cbn [filter].
  assert (is_open y = false) as -> by (unfold is_open; rewrite Hr; reflexivity).
  destruct (is_open x); simpl; [|auto].
  apply NoDup_remove_1.
Qed.

(** ** How the invariants move with the table *)

Lemma ids_ok_same w w' :
  rows w' = rows w -> next_id w' = next_id w -> ids_ok w -> ids_ok w'.
Proof. unfold ids_ok. intros -> ->. auto. Qed.

Lemma ids_ok_swap w w' l1 x y l2 :
  rows w = (l1 ++ x :: l2)%list -> rows w' = (l1 ++ y :: l2)%list ->
  id y = id x -> next_id w' = next_id w -> ids_ok w -> ids_ok w'.
Proof.
  unfold ids_ok. intros -> -> Hid -> [Hnd Hlt]. split.
  - rewrite map_app in *. simpl in *. rewrite Hid. exact Hnd.
  - intros r Hr. apply in_app_or in Hr. destruct Hr as [Hr|[<-|Hr]].
    + apply Hlt. apply in_or_app. left. exact Hr.
    + rewrite Hid. apply Hlt. apply in_or_app. right. left. reflexivity.
    + apply Hlt. apply in_or_app. right. right. exact Hr.
Qed.

Lemma ids_ok_append w w' y :
  rows w' = (rows w ++ [y])%list -> id y = Some (next_id w) ->
  next_id w' = next_id w + 1 -> ids_ok w -> ids_ok w'.
Proof.
  unfold ids_ok. intros -> Hid -> [Hnd Hlt]. split.
  - rewrite map_app. simpl. apply NoDup_app; [exact Hnd | repeat constructor; intros []|].
    intros o Ho [<-|[]]. apply in_map_iff in Ho. destruct Ho as (r & Hr & Hin).
    destruct (Hlt r Hin) as (i & Hi & Hl). rewrite Hid in Hr. rewrite Hi in Hr.
    injection Hr as ->. lia.
  - intros r Hr. apply in_app_or in Hr. destruct Hr as [Hr|[<-|[]]].
    + destruct (Hlt r Hr) as (i & Hi & Hl). exists i. split; [exact Hi | lia].
    + exists (next_id w). split; [exact Hid | lia].
Qed.

Lemma unique_open_same w w' : rows w' = rows w -> unique_open w -> unique_open w'.
Proof. unfold unique_open. intros ->. auto. Qed.

Lemma unique_open_swap w w' l1 x y l2 :
  rows w = (l1 ++ x :: l2)%list -> rows w' = (l1 ++ y :: l2)%list ->
  row_key y = row_key x -> resolved y = resolved x ->
  unique_open w -> unique_open w'.
Proof.
  unfold unique_open. intros -> -> Hk Hr. rewrite (open_keys_swap l1 x y l2 Hk Hr). auto.
Qed.

Lemma unique_open_close w w' l1 x y l2 :
  rows w = (l1 ++ x :: l2)%list -> rows w' = (l1 ++ y :: l2)%list ->
  resolved y = true -> unique_open w -> unique_open w'.
Proof. unfold unique_open. intros -> -> Hr. apply open_keys_close. exact Hr. Qed.

(** A new open row keeps the open keys distinct when every row of its
    key is resolved. *)
Lemma unique_open_append w w' y :
  rows w' = (rows w ++ [y])%list ->
  (forall r, In r (rows w) -> row_key r = row_key y -> resolved r = true) ->
  unique_open w -> unique_open w'.
Proof.
  unfold unique_open. intros -> Hnone Hu. rewrite filter_app, map_app.
  apply NoDup_app; [exact Hu | |].
  - simpl. destruct (is_open y); simpl; repeat constructor; intros [].
  - intros k Hk Hk'. apply in_map_iff in Hk. destruct Hk as (r & <- & Hr).
    apply filter_In in Hr. destruct Hr as [Hin Hop].
    simpl in Hk'. destruct (is_open y); simpl in Hk'; [|destruct Hk'].
    destruct Hk' as [E|[]]. unfold is_open in Hop.
    rewrite (Hnone r Hin (eq_sym E)) in Hop. discriminate.
Qed.

Lemma storable_same w w' : rows w' = rows w -> storable w -> storable w'.
Proof. unfold storable. intros ->. auto. Qed.

Lemma storable_swap w w' l1 x y l2 :
  rows w = (l1 ++ x :: l2)%list -> rows w' = (l1 ++ y :: l2)%list ->
  storable_row y = true -> storable w -> storable w'.
Proof.
  unfold storable. intros -> -> Hy H r Hr.
  apply in_app_or in Hr. destruct Hr as [Hr|[<-|Hr]]; [|exact Hy|].
  - apply H. apply in_or_app. left. exact Hr.
  - apply H. apply in_or_app. right. right. exact Hr.
Qed.

Lemma storable_append w w' y :
  rows w' = (rows w ++ [y])%list -> storable_row y = true -> storable w -> storable w'.
Proof.
  unfold storable. intros -> Hy H r Hr.
  apply in_app_or in Hr. destruct Hr as [Hr|[<-|[]]]; [apply H; exact Hr | exact Hy].
Qed.

(** ** The handler *)

(** The handler logs and answers [None], when the exception it caught
    prints; it raises that exception again when it does not. *)
Lemma track_error_except_spec ex w :
  printable ex = true ->
  track_error_except ex w =
  (Ok None, {| rows := rows w; next_id := next_id w;
               log := log w ++ [(LError, MsgFailed ex)] |}).
Proof.
  unfold printable, track_error_except, bind, lift, logger, ret.
  destruct (str_of_exn ex); [reflexivity|discriminate].
Qed.

Lemma track_error_except_unprintable ex w :
  printable ex = false -> track_error_except ex w = (Raise ex, w).
Proof.
  unfold printable, track_error_except, bind, lift.
  destruct ex as [| | | | | |cls [text|]]; try discriminate. reflexivity.
Qed.

(** Applies the handler to [ex] both ways. *)
Ltac handle ex :=
  let P := fresh "P" in
  destruct (printable ex) eqn:P;
  [ rewrite (track_error_except_spec ex) by exact P
  | rewrite (track_error_except_unprintable ex) by exact P ].

(** ** The ingestion call, case by case *)

Section TrackFacts.

Variable json_loads : string -> outcome pyval.
Variable format_exception : string -> exc_obj -> traceback -> string.

Local Abbreviation info_of := (compute_error_info format_exception).

Lemma save_dict self d e w :
  debug_details self = PDict d -> save json_loads self e w = model_save self e w.
Proof. intros H. unfold save, bind, ret. rewrite H. reflexivity. Qed.

(** The first phase reads the table and nothing else. *)
Lemma track_error_select_spec a e w :
  (exists combined w1,
      track_error_select format_exception a e w =
      (Ok (combined, first (filter (matches_open (info_of a e)) (rows w))), w1)
      /\ combine_debug_details a e = Ok combined
      /\ e_fault e <> FaultOnQuery
      /\ rows w1 = rows w /\ next_id w1 = next_id w)
  \/
  (exists ex w1,
      track_error_select format_exception a e w = (Raise ex, w1)
      /\ rows w1 = rows w /\ next_id w1 = next_id w
      /\ (combine_debug_details a e = Raise ex \/ e_fault e = FaultOnQuery
          \/ str_raises (a_exception a) = Some ex)).
Proof.
  unfold track_error_select, str_exception, find_open, bind, when, lift, logger, ret, raise.
  destruct (str_raises (a_exception a)) as [ex0|] eqn:SR.
  - right. exists ex0, w. destruct (e_DEBUG_ERROR_TRACKING e); simpl; repeat split; auto.
  - destruct (e_DEBUG_ERROR_TRACKING e); simpl;
      destruct (combine_debug_details a e) as [combined|ex] eqn:C; simpl;
      destruct (e_fault e) eqn:F; simpl;
      solve [ left; do 2 eexists; repeat split; try reflexivity; congruence
            | right; do 2 eexists; repeat split; try reflexivity; auto ].
Qed.

(** An exception that does not print is raised before anything else
    happens. *)
Lemma track_error_select_unprintable a e w ex :
  str_raises (a_exception a) = Some ex ->
  track_error_select format_exception a e w = (Raise ex, w).
Proof.
  intros SR.
  unfold track_error_select, str_exception, bind, when, raise. rewrite SR.
  destruct (e_DEBUG_ERROR_TRACKING e); reflexivity.
Qed.

(** The record a merge writes: the found one with its counter, its two
    [auto_now] columns and its details moved. *)
Lemma merge_existing_spec existing combined e w i :
  id existing = Some i -> existsb (has_id i) (rows w) = true ->
  match merge_existing json_loads existing combined e w with
  | (Ok r', w') =>
      exists d,
        debug_details existing = PDict d
        /\ json_serialisable (PDict (dict_update d combined)) = true
        /\ e_fault e <> FaultOnWrite
        /\ r' = set_updated_at (e_now e)
                 (set_last_occurrence (e_now e)
                    (set_debug_details (PDict (dict_update d combined))
                       (set_last_occurrence (e_now e)
                          (set_count (count existing + 1) existing))))
        /\ rows w' = replace_row i r' (rows w) /\ next_id w' = next_id w
  | (Raise ex, w') =>
      rows w' = rows w /\ next_id w' = next_id w
      /\ (forall d, debug_details existing = PDict d ->
                    json_serialisable (PDict (dict_update d combined)) = true ->
                    e_fault e = FaultOnWrite)
  end.
Proof.
  intros Hid Hex. unfold merge_existing.
  destruct (debug_details existing) eqn:D; simpl; rewrite D;
    try (repeat split; try reflexivity; intros; discriminate).
  unfold bind. erewrite save_dict by reflexivity.
  destruct (json_serialisable (PDict (dict_update d combined))) eqn:J.
  - destruct (e_fault e) eqn:F.
    + rewrite (model_save_update _ _ _ i) by first [exact Hid | exact Hex | exact J | congruence].
      unfold when, logger, ret.
      destruct (e_DEBUG_ERROR_TRACKING e); simpl;
        (exists d; repeat split; first [reflexivity | exact J | congruence]).
    + rewrite (model_save_update _ _ _ i) by first [exact Hid | exact Hex | exact J | congruence].
      unfold when, logger, ret.
      destruct (e_DEBUG_ERROR_TRACKING e); simpl;
        (exists d; repeat split; first [reflexivity | exact J | congruence]).
    + rewrite model_save_fault by first [exact J | exact F].
      repeat split; reflexivity.
  - rewrite model_save_not_serialisable by exact J.
    repeat split; try reflexivity. intros d' Hd HJ. injection Hd as <-.
    change (json_serialisable (PDict (dict_update d combined)) = true) in HJ.
    congruence.
Qed.

(** The record a first sighting writes. *)
Lemma create_new_spec a info usr combined e w :
  match create_new json_loads a info usr combined e w with
  | (Ok r', w') =>
      json_serialisable (PDict combined) = true
      /\ e_fault e <> FaultOnWrite
      /\ id r' = Some (next_id w)
      /\ row_key r' = info_key info
      /\ resolved r' = false /\ resolved_by r' = None /\ resolved_at r' = None
      /\ count r' = 1
      /\ first_occurrence r' = e_now e /\ last_occurrence r' = e_now e
      /\ stack_trace r' = i_stack_trace info
      /\ debug_details r' = PDict combined
      /\ rows w' = (rows w ++ [r'])%list /\ next_id w' = next_id w + 1
  | (Raise ex, w') =>
      rows w' = rows w /\ next_id w' = next_id w
      /\ (json_serialisable (PDict combined) = false \/ e_fault e = FaultOnWrite
          \/ exists rq, a_request a = Some rq /\ r_META rq = None)
  end.
Proof.
  unfold create_new, bind, lift, get_client_ip.
  destruct (a_request a) as [rq|] eqn:Hrq.
  1: destruct (r_META rq) as [meta|] eqn:Hmeta;
    [|repeat split; try reflexivity; right; right; exists rq; auto].
  1: destruct (meta_truthy "HTTP_X_FORWARDED_FOR" meta);
    [|destruct (meta_truthy "HTTP_X_REAL_IP" meta)].
  all: erewrite save_dict by reflexivity.
  all: destruct (json_serialisable (PDict combined)) eqn:J;
    [|rewrite model_save_not_serialisable by exact J; repeat split; auto].
  all: destruct (e_fault e) eqn:F;
    [| |rewrite model_save_fault by first [exact J | exact F]; repeat split; auto].
  all: rewrite model_save_insert by first [reflexivity | exact J | congruence];
    unfold when, logger, ret;
    destruct (e_DEBUG_ERROR_TRACKING e); simpl;
    repeat split; first [reflexivity | exact J | congruence].
Qed.

Lemma ids_ok_row w r : ids_ok w -> In r (rows w) ->
  exists i, id r = Some i /\ i < next_id w /\ existsb (has_id i) (rows w) = true.
Proof.
  intros [_ H] Hin. destruct (H r Hin) as (i & Hid & Hlt).
  exists i. repeat split; try assumption. eapply existsb_has_id; eassumption.
Qed.

(** Every call ends in one of three ways: not tracked (the table is
    untouched and the failure is logged), merged into the open record the
    query found, or recorded as a new row. *)
Lemma track_error_inv a e w res w' :
  ids_ok w ->
  track_error json_loads format_exception a e w = (Ok res, w') ->
  (exists ex l,
      res = None /\ rows w' = rows w /\ next_id w' = next_id w
      /\ log w' = (l ++ [(LError, MsgFailed ex)])%list)
  \/
  (exists combined existing d i r',
      res = Some r'
      /\ combine_debug_details a e = Ok combined
      /\ first (filter (matches_open (info_of a e)) (rows w)) = Some existing
      /\ debug_details existing = PDict d /\ id existing = Some i
      /\ json_serialisable (PDict (dict_update d combined)) = true
      /\ r' = set_updated_at (e_now e)
               (set_last_occurrence (e_now e)
                  (set_debug_details (PDict (dict_update d combined))
                     (set_last_occurrence (e_now e)
                        (set_count (count existing + 1) existing))))
      /\ rows w' = replace_row i r' (rows w) /\ next_id w' = next_id w)
  \/
  (exists combined r',
      res = Some r'
      /\ combine_debug_details a e = Ok combined
      /\ json_serialisable (PDict combined) = true
      /\ first (filter (matches_open (info_of a e)) (rows w)) = None
      /\ id r' = Some (next_id w)
      /\ row_key r' = info_key (info_of a e)
      /\ resolved r' = false /\ resolved_by r' = None /\ resolved_at r' = None
      /\ count r' = 1
      /\ first_occurrence r' = e_now e /\ last_occurrence r' = e_now e
      /\ stack_trace r' = i_stack_trace (info_of a e)
      /\ debug_details r' = PDict combined
      /\ rows w' = (rows w ++ [r'])%list /\ next_id w' = next_id w + 1).
Proof.
  intros Hids. unfold track_error, try_except, track_error_body, bind.
  destruct (track_error_select_spec a e w)
    as [(combined & w1 & -> & HC & HF & Hr1 & Hn1) | (ex & w1 & -> & Hr1 & Hn1 & _)].
  2:{ handle ex; [|discriminate]. intros H. injection H as <- <-.
      left. exists ex, (log w1). simpl. auto. }
  unfold track_error_write.
  destruct (first (filter (matches_open (info_of a e)) (rows w)))
    as [existing|] eqn:Hfirst; cbn [fst snd].
  - destruct (found_open _ _ _ Hfirst) as (Hin & Hkey & Hopen).
    destruct (ids_ok_row _ _ Hids Hin) as (i & Hid & _ & Hex).
    rewrite <- Hr1 in Hex.
    pose proof (merge_existing_spec existing combined e w1 i Hid Hex) as Hm.
    destruct (merge_existing json_loads existing combined e w1) as [[r'|ex] w2].
    + destruct Hm as (d & HD & HJ & HW & -> & Hrows & Hnext).
      unfold ret. intros H. injection H as <- <-.
      right; left. exists combined, existing, d, i. eexists.
      repeat split; try reflexivity; try assumption; congruence.
    + destruct Hm as (Hrows & Hnext & _).
      handle ex; [|discriminate]. intros H. injection H as <- <-.
      left. exists ex, (log w2). simpl. repeat split; congruence.
  - pose proof (create_new_spec a (info_of a e) (effective_user a)
                                combined e w1) as Hc.
    destruct (create_new json_loads a _ _ combined e w1) as [[r'|ex] w2].
    + destruct Hc as (HJ & HW & Hid & Hk & Hres & Hby & Hat & Hcnt & Hfo & Hlo & Hst
                      & Hdd & Hrows & Hnext).
      unfold ret. intros H. injection H as <- <-.
      right; right. exists combined, r'.
      repeat split; try reflexivity; try assumption; congruence.
    + destruct Hc as (Hrows & Hnext & _).
      handle ex; [|discriminate]. intros H. injection H as <- <-.
      left. exists ex, (log w2). simpl. repeat split; congruence.
Qed.

(** A call that raises has left the table as it was. *)
Lemma track_error_raise a e w ex w' :
  ids_ok w ->
  track_error json_loads format_exception a e w = (Raise ex, w') ->
  rows w' = rows w /\ next_id w' = next_id w.
Proof.
  intros Hids. unfold track_error, try_except, track_error_body, bind.
  destruct (track_error_select_spec a e w)
    as [(combined & w1 & -> & HC & HF & Hr1 & Hn1) | (ex1 & w1 & -> & Hr1 & Hn1 & _)].
  2:{ handle ex1; [discriminate|]. intros H. injection H as _ <-. auto. }
  unfold track_error_write.
  destruct (first (filter (matches_open (info_of a e)) (rows w)))
    as [existing|] eqn:Hfirst; cbn [fst snd].
  - destruct (found_open _ _ _ Hfirst) as (Hin & Hkey & Hopen).
    destruct (ids_ok_row _ _ Hids Hin) as (i & Hid & _ & Hex).
    rewrite <- Hr1 in Hex.
    pose proof (merge_existing_spec existing combined e w1 i Hid Hex) as Hm.
    destruct (merge_existing json_loads existing combined e w1) as [[r'|ex1] w2].
    + unfold ret. discriminate.
    + destruct Hm as (Hrows & Hnext & _).
      handle ex1; [discriminate|]. intros H. injection H as _ <-. split; congruence.
  - pose proof (create_new_spec a (info_of a e) (effective_user a) combined e w1) as Hc.
    destruct (create_new json_loads a _ _ combined e w1) as [[r'|ex1] w2].
    + unfold ret. discriminate.
    + destruct Hc as (Hrows & Hnext & _).
      handle ex1; [discriminate|]. intros H. injection H as _ <-. split; congruence.
Qed.

Lemma json_serialisable_set k v (d : pydict) :
  json_serialisable (PDict d) = true -> json_serialisable v = true ->
  json_serialisable (PDict (dict_set k v d)) = true.
Proof.
  simpl. intros Hd Hv. induction d as [|[k' v'] t IH]; simpl.
  - rewrite Hv. reflexivity.
  - simpl in Hd. apply andb_true_iff in Hd. destruct Hd as [H1 H2].
    destruct (String.eqb k k'); simpl.
    + rewrite Hv, H2. reflexivity.
    + rewrite H1, (IH H2). reflexivity.
Qed.

Lemma json_serialisable_update (e : pydict) : forall d : pydict,
  json_serialisable (PDict d) = true -> json_serialisable (PDict e) = true ->
  json_serialisable (PDict (dict_update d e)) = true.
Proof.
  unfold dict_update. induction e as [|[k v] t IH]; intros d Hd He; [exact Hd|].
  simpl in He. apply andb_true_iff in He. destruct He as [Hv Ht].
  cbn [fold_left fst snd]. apply IH; [|exact Ht].
  apply json_serialisable_set; assumption.
Qed.

Lemma combine_debug_details_META a e combined rq :
  combine_debug_details a e = Ok combined -> a_request a = Some rq ->
  exists meta, r_META rq = Some meta.
Proof.
  unfold combine_debug_details. intros H Hrq. rewrite Hrq in H.
  destruct (r_META rq) as [meta|] eqn:HM; [exists meta; reflexivity|].
  unfold get_request_details in H. rewrite HM in H.
  destruct (if truthy (a_debug_details a) then a_debug_details a else PDict []);
    discriminate.
Qed.

(** A well-formed call on a well-formed table is tracked. *)
Lemma track_error_tracked a e w :
  call_ok a e = true -> ids_ok w -> storable w ->
  exists r' w', track_error json_loads format_exception a e w = (Ok (Some r'), w').
Proof.
  unfold call_ok. intros Hok Hids Hst.
  destruct (str_raises (a_exception a)) eqn:SR; try discriminate.
  destruct (e_fault e) eqn:F; try discriminate.
  destruct (combine_debug_details a e) as [combined|] eqn:C; try discriminate.
  unfold track_error, try_except, track_error_body, bind.
  destruct (track_error_select_spec a e w)
    as [(combined' & w1 & -> & HC & HF & Hr1 & Hn1) | (ex & w1 & _ & _ & _ & [H|[H|H]])];
    try congruence.
  assert (combined' = combined) as -> by congruence.
  unfold track_error_write.
  destruct (first (filter (matches_open (info_of a e)) (rows w)))
    as [existing|] eqn:Hfirst; cbn [fst snd].
  - destruct (found_open _ _ _ Hfirst) as (Hin & Hkey & Hopen).
    destruct (ids_ok_row _ _ Hids Hin) as (i & Hid & _ & Hex).
    rewrite <- Hr1 in Hex.
    pose proof (merge_existing_spec existing combined e w1 i Hid Hex) as Hm.
    destruct (merge_existing json_loads existing combined e w1) as [[r'|ex] w2].
    + unfold ret. eauto.
    + exfalso. destruct Hm as (_ & _ & Hm).
      pose proof (Hst _ Hin) as Hs. unfold storable_row in Hs.
      destruct (debug_details existing) as [| | | | |d|] eqn:D; try discriminate.
      specialize (Hm d eq_refl (json_serialisable_update _ _ Hs Hok)). congruence.
  - pose proof (create_new_spec a (info_of a e) (effective_user a) combined e w1) as Hc.
    destruct (create_new json_loads a _ _ combined e w1) as [[r'|ex] w2].
    + unfold ret. eauto.
    + exfalso. destruct Hc as (_ & _ & [H|[H|(rq & Hrq & HM)]]); try congruence.
      destruct (combine_debug_details_META _ _ _ _ C Hrq) as (meta & HM'). congruence.
Qed.

(** The three invariants survive every ingestion call, tracked or not. *)
Lemma track_error_invariants a e w :
  ids_ok w ->
  ids_ok (snd (track_error json_loads format_exception a e w))
  /\ (unique_open w -> unique_open (snd (track_error json_loads format_exception a e w)))
  /\ (storable w -> storable (snd (track_error json_loads format_exception a e w))).
Proof.
  intros Hids.
  destruct (track_error json_loads format_exception a e w) as [[res|ex] w'] eqn:T.
  2:{ cbn [snd]. destruct (track_error_raise _ _ _ _ _ Hids T) as (Hrows & Hnext).
      split; [|split]; eauto using ids_ok_same, unique_open_same, storable_same. }
  cbn [snd].
  destruct (track_error_inv _ _ _ _ _ Hids T)
    as [(ex & l & _ & Hrows & Hnext & _)
       |[(combined & existing & d & i & r' & _ & _ & Hfirst & HD & Hid & HJ & Hr'
          & Hrows & Hnext)
        |(combined & r' & _ & _ & HJ & Hfirst & Hid & Hk & Hres & _ & _ & _ & _ & _ & _
          & HD & Hrows & Hnext)]].
  - split; [|split]; eauto using ids_ok_same, unique_open_same, storable_same.
  - destruct (found_open _ _ _ Hfirst) as (Hin & Hkey & Hopen).
    destruct (replace_row_in i r' _ _ (proj1 Hids) Hin Hid) as (l1 & l2 & Hsplit & Hrep).
    rewrite Hrep in Hrows.
    split; [|split].
    + eapply ids_ok_swap; try eassumption. subst r'. reflexivity.
    + eapply unique_open_swap; try eassumption; subst r'; reflexivity.
    + eapply storable_swap; try eassumption. subst r'. exact HJ.
  - split; [|split].
    + eapply ids_ok_append; eassumption.
    + eapply unique_open_append; try eassumption.
      intros r Hr Hkr. eapply none_open; try eassumption. congruence.
    + eapply storable_append; try eassumption.
      unfold storable_row. rewrite HD. exact HJ.
Qed.

(** A successful [ErrorLog.save] leaves the saved object in the table and
    keeps its key and resolution columns. *)
Lemma save_ok self e w r w' :
  save json_loads self e w = (Ok r, w') ->
  In r (rows w')
  /\ row_key r = row_key self
  /\ resolved r = resolved self /\ resolved_by r = resolved_by self
  /\ resolved_at r = resolved_at self.
Proof using json_loads.
  unfold save, bind, ret, logger.
  destruct (debug_details self) as [| | |s| | |];
    try (intros H; apply model_save_ok in H;
         destruct H as (? & ? & ? & ? & ? & _); repeat split; assumption).
  destruct (str_truthy s);
    [destruct (json_loads s) as [v|ex0];
     [|destruct (caught_by_save ex0); [|unfold raise; discriminate]]|];
    intros H; apply model_save_ok in H; simpl in H;
    destruct H as (? & ? & ? & ? & ? & _); repeat split; assumption.
Qed.

Lemma merge_existing_In existing combined e w r w' :
  merge_existing json_loads existing combined e w = (Ok r, w') -> In r (rows w').
Proof.
  unfold merge_existing, bind, when, logger, ret. simpl.
  destruct (debug_details existing) as [| | | | |d|]; try discriminate.
  destruct (save json_loads _ e w) as [[r1|ex] w1] eqn:S; try discriminate.
  apply save_ok in S. destruct S as [Hin _].
  destruct (e_DEBUG_ERROR_TRACKING e); intros H; injection H as <- <-; exact Hin.
Qed.

Lemma create_new_In a info usr combined e w r w' :
  create_new json_loads a info usr combined e w = (Ok r, w') -> In r (rows w').
Proof.
  unfold create_new, bind, when, logger, ret, lift.
  destruct (match a_request a with Some _ => _ | None => _ end); try discriminate.
  destruct (get_client_ip (a_request a)); try discriminate.
  destruct (save json_loads _ e w) as [[r1|ex] w1] eqn:S; try discriminate.
  apply save_ok in S. destruct S as [Hin _].
  destruct (e_DEBUG_ERROR_TRACKING e); intros H; injection H as <- <-; exact Hin.
Qed.

Lemma track_error_body_In a e w r w' :
  track_error_body json_loads format_exception a e w = (Ok r, w') -> In r (rows w').
Proof.
  unfold track_error_body, bind, track_error_write.
  destruct (track_error_select format_exception a e w) as [[[combined found]|ex] w1];
    try discriminate.
  cbn [fst snd]. destruct found as [existing|].
  - apply merge_existing_In.
  - apply create_new_In.
Qed.

Lemma track_error_Some_In a e w r w' :
  track_error json_loads format_exception a e w = (Ok (Some r), w') -> In r (rows w').
Proof.
  unfold track_error, try_except, bind.
  destruct (track_error_body json_loads format_exception a e w) as [[r1|ex] w1] eqn:B.
  - unfold ret. intros H. injection H as <- <-. eapply track_error_body_In. exact B.
  - handle ex; discriminate.
Qed.

(** With an exception that does not print, the call is its handler. *)
Lemma track_error_unprintable a e w ex :
  str_raises (a_exception a) = Some ex ->
  track_error json_loads format_exception a e w = track_error_except ex w.
Proof.
  intros SR. unfold track_error, try_except, track_error_body, bind.
  rewrite (track_error_select_unprintable a e w ex SR). reflexivity.
Qed.

(** C5: the code falls short of the claim.  [call_unprintable] passes
    an exception object whose [__str__] raises the object itself.  The
    first [str(exception)] raises inside the [try] block; the handler
    catches the object and prints it into its log message, outside any
    [try]: the object is raised again and reaches the caller.  Nothing
    is returned, nothing is logged and the table is as it was - whatever
    the environment and the table. *)
Theorem unprintable_exception_escapes_track_error e w :
  track_error json_loads format_exception call_unprintable e w
  = (Raise (Thrown "Bad" None), w).
Proof. rewrite (track_error_unprintable _ e w (Thrown "Bad" None)); reflexivity. Qed.

(** C1.  Take an ingestion call that is well formed ([call_ok]) on a well
    formed table, and let [k] be the dedup key of its normalized event;
    the table is whatever the calls before it left.
    - If the table holds an open record with key [k], the call returns
      one such record with its counter one higher; the table is the old
      one with that single row rewritten: no row is added and no other
      row changes.
    - If every record with key [k] is resolved (or there is none), the
      call appends one row - open, with key [k], counter 1 and a primary
      key no earlier row has - and returns it. *)
Theorem track_error_dedup a e w :
  call_ok a e = true -> ids_ok w -> storable w ->
  ((exists r, In r (rows w) /\ row_key r = info_key (info_of a e) /\ resolved r = false) ->
   exists l1 existing l2 r' w',
     track_error json_loads format_exception a e w = (Ok (Some r'), w')
     /\ rows w = (l1 ++ existing :: l2)%list
     /\ row_key existing = info_key (info_of a e) /\ resolved existing = false
     /\ rows w' = (l1 ++ r' :: l2)%list
     /\ id r' = id existing /\ row_key r' = row_key existing /\ resolved r' = false
     /\ count r' = count existing + 1)
  /\
  ((forall r, In r (rows w) -> row_key r = info_key (info_of a e) -> resolved r = true) ->
   exists r' w',
     track_error json_loads format_exception a e w = (Ok (Some r'), w')
     /\ rows w' = (rows w ++ [r'])%list
     /\ row_key r' = info_key (info_of a e) /\ resolved r' = false /\ count r' = 1
     /\ ~ In (id r') (map id (rows w))).
Proof.
  intros Hok Hids Hst.
  destruct (track_error_tracked a e w Hok Hids Hst) as (r' & w' & T).
  destruct (track_error_inv _ _ _ _ _ Hids T)
    as [(ex & l & Hres & _)
       |[(combined & existing & d & i & r'' & Hres & _ & Hfirst & HD & Hid & HJ & Hr'
          & Hrows & Hnext)
        |(combined & r'' & Hres & _ & HJ & Hfirst & Hid & Hk & Hopen & _ & _ & Hcnt & _
          & _ & _ & HD & Hrows & Hnext)]];
    try discriminate; injection Hres as <-.
  - destruct (found_open _ _ _ Hfirst) as (Hin & Hkey & Hopen).
    destruct (replace_row_in i r' _ _ (proj1 Hids) Hin Hid) as (l1 & l2 & Hsplit & Hrep).
    rewrite Hrep in Hrows. split.
    + intros _. exists l1, existing, l2, r', w'.
      subst r'. repeat split; try assumption; reflexivity.
    + intros Hall. rewrite (Hall existing Hin Hkey) in Hopen. discriminate.
  - split.
    + intros (r & Hin & Hkey & Hopen').
      rewrite (none_open _ _ _ Hfirst Hin Hkey) in Hopen'. discriminate.
    + intros _. exists r', w'. repeat split; try assumption.
      intros Hin. apply in_map_iff in Hin. destruct Hin as (r & Hr & Hin).
      destruct (proj2 Hids r Hin) as (j & Hj & Hlt). rewrite Hid, Hj in Hr.
      injection Hr as ->. lia.
Qed.

(** C7.  When a well-formed call finds the open record [existing], the
    record it writes and returns is [existing] with exactly four columns
    moved: the counter is one higher, [last_occurrence] and [updated_at]
    are the time of the call, and [debug_details] is the old dictionary
    updated with the enriched context (for every key: the value the
    context holds for it if it holds one, the old value otherwise).  All
    other columns are as they were, in particular [stack_trace],
    [first_occurrence], [resolved], [resolved_by] and [resolved_at],
    whatever trace the new event carries. *)
Theorem merge_changes_four_columns a e w existing :
  call_ok a e = true -> ids_ok w -> storable w ->
  first (filter (matches_open (info_of a e)) (rows w)) = Some existing ->
  exists combined d r' w',
    combine_debug_details a e = Ok combined
    /\ debug_details existing = PDict d
    /\ track_error json_loads format_exception a e w = (Ok (Some r'), w')
    /\ In r' (rows w')
    /\ r' = set_updated_at (e_now e)
             (set_last_occurrence (e_now e)
                (set_debug_details (PDict (dict_update d combined))
                   (set_count (count existing + 1) existing)))
    /\ (forall k, dict_get k (dict_update d combined) =
                  match last_binding k combined with
                  | Some v => Some v
                  | None => dict_get k d
                  end)
    /\ stack_trace r' = stack_trace existing
    /\ first_occurrence r' = first_occurrence existing
    /\ resolved r' = resolved existing
    /\ resolved_by r' = resolved_by existing
    /\ resolved_at r' = resolved_at existing.
Proof.
  intros Hok Hids Hst Hfound.
  destruct (track_error_tracked a e w Hok Hids Hst) as (r' & w' & T).
  pose proof (track_error_Some_In _ _ _ _ _ T) as Hin.
  destruct (track_error_inv _ _ _ _ _ Hids T)
    as [(ex & l & Hres & _)
       |[(combined & existing' & d & i & r'' & Hres & HC & Hfirst & HD & Hid & HJ & Hr'
          & Hrows & Hnext)
        |(combined & r'' & Hres & _ & HJ & Hfirst & _)]];
    try discriminate; try congruence.
  injection Hres as <-. rewrite Hfound in Hfirst. injection Hfirst as <-.
  exists combined, d, r', w'. subst r'.
  repeat split; try assumption; try reflexivity.
  intros k. apply dict_get_update.
Qed.

End TrackFacts.

(** ** The sample tables are well formed *)

Ltac concrete_rows :=
  let r := fresh "r" in
  let Hr := fresh "Hr" in
  intros r Hr; simpl in Hr;
  repeat (destruct Hr as [<-|Hr]; [try (eexists; split; reflexivity); try reflexivity|]);
  try destruct Hr.

Ltac concrete_ids_ok :=
  split; [repeat constructor; simpl; intuition discriminate | concrete_rows].

Lemma ids_ok_empty : ids_ok empty_world.
Proof. concrete_ids_ok. Qed.

Lemma ids_ok_world_one : ids_ok world_one.
Proof. concrete_ids_ok. Qed.

Lemma storable_world_one : storable world_one.
Proof. unfold storable. concrete_rows. Qed.

Lemma ids_ok_world_resolved : ids_ok world_resolved.
Proof. concrete_ids_ok. Qed.

Lemma storable_world_resolved : storable world_resolved.
Proof. unfold storable. concrete_rows. Qed.

(** The second ingestion of [boom] raises the counter of the one row to
    2; after the row is resolved, a third ingestion adds a second row
    with counter 1. *)
Lemma track_error_dedup_witness :
  call_ok sample_call (sample_env 2) = true
  /\ ids_ok world_one /\ storable world_one
  /\ (exists r' w',
        sample_track sample_call (sample_env 2) world_one = (Ok (Some r'), w')
        /\ count r' = 2 /\ List.length (rows w') = 1%nat)
  /\ (exists r' w',
        sample_track sample_call (sample_env 3) world_resolved = (Ok (Some r'), w')
        /\ count r' = 1 /\ resolved r' = false /\ List.length (rows w') = 2%nat).
Proof.
  split; [reflexivity|]. split; [exact ids_ok_world_one|].
  split; [exact storable_world_one|]. split.
  - destruct (track_error_dedup sample_json_loads sample_format_exception
                sample_call (sample_env 2) world_one
                eq_refl ids_ok_world_one storable_world_one) as [Hmerge _].
    destruct Hmerge as (l1 & existing & l2 & r' & w' & T & _).
    { eexists. split; [left; reflexivity|]. split; reflexivity. }
    exists r', w'. split; [exact T|].
    vm_compute in T. injection T as <- <-. split; reflexivity.
  - destruct (track_error_dedup sample_json_loads sample_format_exception
                sample_call (sample_env 3) world_resolved
                eq_refl ids_ok_world_resolved storable_world_resolved) as [_ Hnew].
    destruct Hnew as (r' & w' & T & _ & _ & Hopen & Hcnt & _).
    { concrete_rows. }
    exists r', w'. split; [exact T|]. split; [exact Hcnt|]. split; [exact Hopen|].
    vm_compute in T. injection T as <- <-. reflexivity.
Defined.

(** The second ingestion of [boom] leaves the trace and the
    first-occurrence time of the row as the first ingestion set them. *)
Lemma merge_changes_four_columns_witness :
  call_ok sample_call (sample_env 2) = true
  /\ ids_ok world_one /\ storable world_one
  /\ exists existing r' w',
       first (filter (matches_open
                        (compute_error_info sample_format_exception sample_call
                                            (sample_env 2)))
                     (rows world_one)) = Some existing
       /\ sample_track sample_call (sample_env 2) world_one = (Ok (Some r'), w')
       /\ stack_trace r' = stack_trace existing
       /\ first_occurrence r' = 1 /\ last_occurrence r' = 2 /\ count r' = 2.
Proof.
  split; [reflexivity|]. split; [exact ids_ok_world_one|].
  split; [exact storable_world_one|].
  destruct (first (filter (matches_open
                              (compute_error_info sample_format_exception sample_call
                                                  (sample_env 2)))
                          (rows world_one))) as [existing|] eqn:F;
    [|vm_compute in F; discriminate].
  destruct (merge_changes_four_columns sample_json_loads sample_format_exception
              sample_call (sample_env 2) world_one existing
              eq_refl ids_ok_world_one storable_world_one F)
    as (combined & d & r' & w' & _ & _ & T & _ & Hr' & _ & Hst & Hfo & _).
  exists existing, r', w'. split; [reflexivity|]. split; [exact T|].
  split; [exact Hst|].
  vm_compute in F. injection F as <-.
  vm_compute in T. injection T as <- <-. repeat split; reflexivity.
Defined.

(** ** Runs of the ingestion call *)

(** The end-to-end run: three ingestions give one record with counter 3,
    first seen at time 1 and last seen at time 3; the record is resolved;
    a fourth ingestion gives a second record, open, with counter 1. *)
Example end_to_end :
  map (fun r => (id r, resolved r, count r, first_occurrence r, last_occurrence r))
      (rows (sample_exec [ Track sample_call (sample_env 1);
                           Track sample_call (sample_env 2);
                           Track sample_call (sample_env 3) ] empty_world))
  = [(Some 1, false, 3, 1, 3)]
  /\ map (fun r => (id r, resolved r, count r, first_occurrence r, last_occurrence r))
         (rows (sample_exec [ Track sample_call (sample_env 1);
                              Track sample_call (sample_env 2);
                              Track sample_call (sample_env 3);
                              Resolve 5 [1] (sample_env 4);
                              Track sample_call (sample_env 5) ] empty_world))
     = [(Some 1, true, 3, 1, 3); (Some 2, false, 1, 5, 5)].
Proof. split; vm_compute; reflexivity. Qed.

(** Calls that fail inside and are not tracked: the enrichment of a
    request without [META], details that are not a dictionary, a keyword
    argument JSON cannot encode, a backend that fails on the query or on
    the write.  Each returns [None], leaves the table as it was and logs
    the failure. *)
Example not_tracked_examples :
  sample_track call_bare_request (sample_env 2) world_one
  = (Ok None, {| rows := rows world_one; next_id := 2;
                 log := (log world_one
                         ++ [(LError, MsgFailed (AttributeError "META"))])%list |})
  /\ sample_track call_with_text_details (sample_env 2) world_one
     = (Ok None, {| rows := rows world_one; next_id := 2;
                    log := (log world_one
                            ++ [(LError, MsgFailed (AttributeError "update"))])%list |})
  /\ sample_track call_with_object (sample_env 2) world_one
     = (Ok None, {| rows := rows world_one; next_id := 2;
                    log := (log world_one
                            ++ [(LError,
                                 MsgFailed (TypeError "Object is not JSON serializable"))])%list |})
  /\ sample_track sample_call (failing_env 2 FaultOnQuery) world_one
     = (Ok None, {| rows := rows world_one; next_id := 2;
                    log := (log world_one
                            ++ [(LError, MsgFailed (OperationalError "query"))])%list |})
  /\ sample_track sample_call (failing_env 2 FaultOnWrite) world_one
     = (Ok None, {| rows := rows world_one; next_id := 2;
                    log := (log world_one
                            ++ [(LError, MsgFailed (OperationalError "write"))])%list |}).
Proof. repeat split; vm_compute; reflexivity. Qed.

(** ** Extraction: the overrides *)

(** With an exception object the message is the exception's own string,
    whatever [custom_message] says. *)
Lemma exception_message_from_object format_exception a e exception :
  a_exception a = ExcObject exception ->
  i_exception_message (compute_error_info format_exception a e) = exc_str exception.
Proof.
  intros H. unfold compute_error_info. rewrite H.
  unfold extract_traceback_info.
  destruct (last_frame _); simpl;
    match goal with |- context [if ?b then _ else _] => destruct b end;
    simpl; try destruct (e_caller e); reflexivity.
Qed.

(** With an exception object and a [file_path] override, the normalized
    event is the extraction from the exception and nothing else: none of
    [custom_message], [file_path], [line_number], [function_name] is
    read. *)
Lemma overrides_unused_with_exception_object format_exception a e exception :
  a_exception a = ExcObject exception -> opt_truthy_str (a_file_path a) = true ->
  compute_error_info format_exception a e =
  extract_traceback_info format_exception exception (e_exc_info e).
Proof.
  intros H Hf. unfold compute_error_info. rewrite H, Hf, andb_false_r. reflexivity.
Qed.

(** With a plain message the overrides are used. *)
Example overrides_used_with_message :
  compute_error_info sample_format_exception
    {| a_exception := ExcMessage "disk almost full"; a_error_level := ErrorLevel.WARNING;
       a_custom_message := Some "custom"; a_debug_details := PNone; a_request := None;
       a_user := None; a_file_path := Some "override.py"; a_line_number := Some 99;
       a_function_name := Some "overridden"; a_kwargs := [] |}
    (sample_env 1)
  = {| i_exception_type := "CustomError"; i_exception_message := "custom";
       i_stack_trace := ""; i_file_path := "override.py"; i_line_number := Some 99;
       i_function_name := "overridden" |}.
Proof. reflexivity. Qed.

(** C4 (the code departs from the claim and from its own docstring).
    [track_error] is called with the exception [boom], raised in
    [handler] at [views.py:10], and with all four overrides:
    [custom_message="custom"], [file_path="override.py"],
    [line_number=99], [function_name="overridden"].  The normalized
    event is the one of the call without any override: message ["boom"],
    site [views.py:10] in [handler].  None of the overrides wins. *)
Theorem overrides_lost_with_exception_object :
  compute_error_info sample_format_exception call_with_overrides (sample_env 1) =
  compute_error_info sample_format_exception sample_call (sample_env 1)
  /\ i_exception_message
       (compute_error_info sample_format_exception call_with_overrides (sample_env 1))
     = "boom"
  /\ i_file_path
       (compute_error_info sample_format_exception call_with_overrides (sample_env 1))
     = "views.py"
  /\ i_line_number
       (compute_error_info sample_format_exception call_with_overrides (sample_env 1))
     = Some 10
  /\ i_function_name
       (compute_error_info sample_format_exception call_with_overrides (sample_env 1))
     = "handler".
Proof. repeat split; reflexivity. Qed.

(** The record that is stored carries the same values. *)
Example overrides_lost_in_record :
  exists r w,
    sample_track call_with_overrides (sample_env 1) empty_world = (Ok (Some r), w)
    /\ exception_message r = "boom" /\ file_path r = "views.py"
    /\ line_number r = Some 10 /\ function_name r = "handler".
Proof. do 2 eexists. split; [vm_compute; reflexivity|]. repeat split; reflexivity. Qed.

(** ** Enrichment: what reaches the record *)

Lemma last_binding_Some_of_In {V} k (v : V) e :
  In (k, v) e -> exists v', last_binding k e = Some v'.
Proof.
  induction e as [|[k' v'] t IH]; simpl; [intros []|].
  intros [H|H].
  - injection H as -> ->. destruct (last_binding k t); eauto.
    rewrite String.eqb_refl. eauto.
  - destruct (IH H) as (x & ->). eauto.
Qed.

(** A value that [dict(q.items())] holds is the value of one of the
    parameters of [q]. *)
Lemma dict_of_items_value (q : querydict) key value :
  dict_get key (dict_of_items (qd_items q)) = Some value ->
  exists values, In (key, values) q /\ value = qd_value values.
Proof.
  intros H. rewrite dict_get_of_items in H.
  apply last_binding_In in H. unfold qd_items in H. apply in_map_iff in H.
  destruct H as ([k vs] & E & Hin). simpl in E. injection E as -> <-.
  exists vs. split; [exact Hin|reflexivity].
Qed.

(** *** The code's test and the rule of the specification *)

Lemma all_ascii_complete c : In c all_ascii.
Proof.
  unfold all_ascii. rewrite <- (ascii_nat_embedding c).
  apply in_map. apply in_seq. pose proof (nat_ascii_bounded c). lia.
Qed.

(** On the characters of the terms, folding the key's character and
    comparing is matching it case-insensitively. *)
Lemma lower_matches c t :
  is_term_char t = true ->
  Ascii.eqb (ascii_lower c) t = spec_matches_ignoring_case c t.
Proof.
  assert (forallb
            (fun t => implb (is_term_char t)
                        (forallb (fun c => Bool.eqb (Ascii.eqb (ascii_lower c) t)
                                             (spec_matches_ignoring_case c t))
                                 all_ascii))
            all_ascii = true) as H by (vm_compute; reflexivity).
  intros Ht. rewrite forallb_forall in H. specialize (H t (all_ascii_complete t)).
  rewrite Ht in H. cbn [implb] in H. rewrite forallb_forall in H.
  apply Bool.eqb_prop. apply H. apply all_ascii_complete.
Qed.

Lemma prefix_lower term : forall key,
  all_term_chars term = true ->
  String.prefix term (lower key) = spec_starts_with_ignoring_case term key.
Proof.
  induction term as [|t term IH]; intros key Ht; [destruct key; reflexivity|].
  simpl in Ht. apply andb_true_iff in Ht. destruct Ht as [Ht Hterm].
  destruct key as [|c key]; [reflexivity|].
  simpl. rewrite <- (lower_matches c t Ht), <- (IH key Hterm).
  destruct (ascii_dec t (ascii_lower c)) as [E|N].
  - rewrite <- E, Ascii.eqb_refl. reflexivity.
  - assert (Ascii.eqb (ascii_lower c) t = false) as -> by (apply Ascii.eqb_neq; congruence).
    reflexivity.
Qed.

Lemma str_in_lower term : forall key,
  all_term_chars term = true ->
  str_in term (lower key) = spec_contains_ignoring_case term key.
Proof.
  intros key Ht. induction key as [|c key IH].
  - change (str_in term (lower "")) with (String.prefix term (lower "") || false)%bool.
    rewrite (prefix_lower term "" Ht). reflexivity.
  - change (str_in term (lower (String c key)))
      with (String.prefix term (lower (String c key)) || str_in term (lower key))%bool.
    rewrite (prefix_lower term (String c key) Ht), IH. reflexivity.
Qed.

(** [is_sensitive], the test of the code, is the rule of the
    specification. *)
Lemma is_sensitive_refines key : is_sensitive key = spec_sensitive_key key.
Proof.
  unfold is_sensitive, sensitive_fields, spec_sensitive_key. cbn [existsb].
  rewrite !str_in_lower by reflexivity.
  rewrite orb_false_r, !orb_assoc. reflexivity.
Qed.

Section EnrichFacts.

Variable json_loads : string -> outcome pyval.
Variable format_exception : string -> exc_obj -> traceback -> string.

(** The [request] entry of the enriched context is the output of
    [get_request_details]. *)
Lemma combine_request a e combined rq :
  combine_debug_details a e = Ok combined -> a_request a = Some rq ->
  proper_dict (a_debug_details a) ->
  exists details,
    get_request_details (Some rq) = Ok details
    /\ dict_get "request" combined = Some (PDict details)
    /\ last_binding "request" combined = Some (PDict details).
Proof.
  unfold combine_debug_details. intros H Hrq Hp. rewrite Hrq in H.
  assert (exists d, (if truthy (a_debug_details a) then a_debug_details a else PDict [])
                    = PDict d /\ NoDup (map fst d)) as (d & Hd & Hnd).
  { destruct (truthy (a_debug_details a)).
    - destruct (a_debug_details a); try discriminate. eexists. split; [reflexivity|exact Hp].
    - exists []. split; [reflexivity|constructor]. }
  rewrite Hd in H.
  destruct (get_request_details (Some rq)) as [details|] eqn:G; [|discriminate].
  exists details. split; [reflexivity|].
  injection H as <-.
  assert (forall c : pydict, dict_get "request" c = Some (PDict details) ->
                             NoDup (map fst c) ->
                             dict_get "request" c = Some (PDict details)
                             /\ last_binding "request" c = Some (PDict details)) as Both.
  { intros c Hc Hn. split; [exact Hc|]. rewrite last_binding_nodup; assumption. }
  apply Both.
  - destruct (effective_user a); rewrite !dict_get_set; reflexivity.
  - destruct (effective_user a); repeat apply dict_set_nodup;
      apply dict_update_nodup; exact Hnd.
Qed.

(** A tracked call with a request stores the output of
    [get_request_details] under ["request"]. *)
Lemma stored_request_details a e w rq r w' :
  a_request a = Some rq -> proper_dict (a_debug_details a) -> ids_ok w ->
  track_error json_loads format_exception a e w = (Ok (Some r), w') ->
  exists d details,
    debug_details r = PDict d
    /\ get_request_details (Some rq) = Ok details
    /\ dict_get "request" d = Some (PDict details).
Proof.
  intros Hrq Hp Hids T.
  destruct (track_error_inv _ _ _ _ _ _ _ Hids T)
    as [(ex & l & Hres & _)
       |[(combined & existing & d & i & r' & Hres & HC & _ & _ & _ & _ & Hr' & _)
        |(combined & r' & Hres & HC & _ & _ & _ & _ & _ & _ & _ & _ & _ & _ & _ & HD & _)]];
    try discriminate; injection Hres as <-;
    destruct (combine_request _ _ _ _ HC Hrq Hp) as (details & HG & HGet & HL).
  - exists (dict_update d combined), details. subst r. split; [reflexivity|].
    split; [exact HG|]. rewrite dict_get_update, HL. reflexivity.
  - exists combined, details. split; [exact HD|]. split; [exact HG|exact HGet].
Qed.

(** What the record of a call with a request holds, and that a well
    formed call has such a record. *)
Lemma request_reaches_record a e w rq details :
  a_request a = Some rq -> proper_dict (a_debug_details a) -> ids_ok w ->
  get_request_details (Some rq) = Ok details ->
  (forall r w',
      track_error json_loads format_exception a e w = (Ok (Some r), w') ->
      In r (rows w')
      /\ exists d, debug_details r = PDict d
                   /\ dict_get "request" d = Some (PDict details))
  /\ (call_ok a e = true -> storable w ->
      exists r w', track_error json_loads format_exception a e w = (Ok (Some r), w')).
Proof.
  intros Hrq Hp Hids HG. split.
  - intros r w' T. split; [eapply track_error_Some_In; exact T|].
    destruct (stored_request_details _ _ _ _ _ _ Hrq Hp Hids T)
      as (d & details' & HD & HG' & HR).
    exists d. split; [exact HD|]. congruence.
  - intros Hok Hst. apply track_error_tracked; assumption.
Qed.

(** C6.  For a request whose POST data is not empty, enrichment puts
    under [post_params] a dictionary that holds, for every key of the
    POST data, the marker ["[FILTERED]"] if the key contains,
    case-insensitively, one of [password], [token], [api_key],
    [secret], [csrf_token] ([spec_sensitive_key], the rule in the words
    of the specification), and otherwise the value the POST data holds
    for the key; it has no other keys.  This happens before the lookup
    and the write: the record a tracked call returns - created or
    merged - is a row of the table and holds under [request] exactly
    these details, and a well-formed call on a well-formed table is
    tracked. *)
Theorem post_params_redacted rq meta p :
  r_META rq = Some meta -> r_POST rq = Some p -> qd_truthy p = true ->
  exists details post_params,
    get_request_details (Some rq) = Ok details
    /\ dict_get "post_params" details = Some (PDict post_params)
    /\ (forall key,
          dict_get key post_params =
          option_map (fun value => if spec_sensitive_key key then PStr "[FILTERED]" else value)
                     (dict_get key (dict_of_items (qd_items p))))
    /\ (forall key value,
          dict_get key (dict_of_items (qd_items p)) = Some value ->
          exists values, In (key, values) p /\ value = qd_value values)
    /\ (forall a e w,
          a_request a = Some rq -> proper_dict (a_debug_details a) -> ids_ok w ->
          (forall r w',
              track_error json_loads format_exception a e w = (Ok (Some r), w') ->
              In r (rows w')
              /\ exists d, debug_details r = PDict d
                           /\ dict_get "request" d = Some (PDict details))
          /\ (call_ok a e = true -> storable w ->
              exists r w',
                track_error json_loads format_exception a e w = (Ok (Some r), w'))).
Proof.
  intros HM HP HT.
  destruct (get_request_details_ok rq meta HM) as (details & HG).
  exists details, (filter_post (qd_items p)).
  split; [exact HG|]. split; [eapply get_request_details_post; eassumption|].
  split; [|split].
  - intros key. rewrite filter_post_get, is_sensitive_refines. reflexivity.
  - intros key value H. apply dict_of_items_value. exact H.
  - intros a e w Hrq Hp Hids. apply (request_reaches_record a e w rq details); assumption.
Qed.

(** C10.  For a request whose GET data is not empty, enrichment puts
    under [get_params] the dictionary [dict(request.GET.items())]: every
    key of the GET data is present, and the value stored for a key is
    the value the GET data holds for it - also when the key is a
    sensitive one; no value is replaced.  The record a tracked call
    returns - created or merged - is a row of the table and holds these
    details under [request], and a well-formed call on a well-formed
    table is tracked. *)
Theorem get_params_verbatim rq meta g :
  r_META rq = Some meta -> r_GET rq = Some g -> qd_truthy g = true ->
  exists details,
    get_request_details (Some rq) = Ok details
    /\ dict_get "get_params" details = Some (PDict (dict_of_items (qd_items g)))
    /\ (forall key values, In (key, values) g ->
          exists value, dict_get key (dict_of_items (qd_items g)) = Some value)
    /\ (forall key value,
          dict_get key (dict_of_items (qd_items g)) = Some value ->
          exists values, In (key, values) g /\ value = qd_value values)
    /\ (forall a e w,
          a_request a = Some rq -> proper_dict (a_debug_details a) -> ids_ok w ->
          (forall r w',
              track_error json_loads format_exception a e w = (Ok (Some r), w') ->
              In r (rows w')
              /\ exists d, debug_details r = PDict d
                           /\ dict_get "request" d = Some (PDict details))
          /\ (call_ok a e = true -> storable w ->
              exists r w',
                track_error json_loads format_exception a e w = (Ok (Some r), w'))).
Proof.
  intros HM HG HT.
  destruct (get_request_details_ok rq meta HM) as (details & HD).
  exists details. split; [exact HD|].
  split; [eapply get_request_details_get; eassumption|].
  split; [|split].
  - intros key values Hin. rewrite dict_get_of_items.
    apply (last_binding_Some_of_In key (qd_value values)).
    unfold qd_items. apply in_map_iff. exists (key, values). split; [reflexivity|exact Hin].
  - intros key value H. apply dict_of_items_value. exact H.
  - intros a e w Hrq Hp Hids. apply (request_reaches_record a e w rq details); assumption.
Qed.

End EnrichFacts.

(** The claim's example, POST data [{"password": "x", "name": "y"}],
    and a form whose field names are in mixed case; each tracked on the
    empty table, the details in the record. *)
Lemma post_params_redacted_witness :
  r_META sample_request = Some [("REMOTE_ADDR", "10.0.0.1")]
  /\ r_POST sample_request = Some [("password", ["x"]); ("name", ["y"])]
  /\ qd_truthy [("password", ["x"]); ("name", ["y"])] = true
  /\ (exists details r w d,
        get_request_details (Some sample_request) = Ok details
        /\ dict_get "post_params" details =
           Some (PDict [("password", PStr "[FILTERED]"); ("name", PStr "y")])
        /\ sample_track call_with_request (sample_env 1) empty_world = (Ok (Some r), w)
        /\ In r (rows w)
        /\ debug_details r = PDict d
        /\ dict_get "request" d = Some (PDict details))
  /\ (exists details r w d,
        get_request_details (Some mixed_case_request) = Ok details
        /\ dict_get "post_params" details =
           Some (PDict [("PassWord", PStr "[FILTERED]");
                        ("X-CSRF_Token", PStr "[FILTERED]");
                        ("name", PStr "y")])
        /\ sample_track call_mixed_case (sample_env 1) empty_world = (Ok (Some r), w)
        /\ In r (rows w)
        /\ debug_details r = PDict d
        /\ dict_get "request" d = Some (PDict details)).
Proof.
  assert (storable empty_world) as Hst by (intros r []).
  repeat (split; [reflexivity|]). split.
  - destruct (post_params_redacted sample_json_loads sample_format_exception
                sample_request _ _ eq_refl eq_refl eq_refl)
      as (details & post_params & HG & HP & _ & _ & Hstored).
    destruct (Hstored call_with_request (sample_env 1) empty_world eq_refl I ids_ok_empty)
      as (Hrec & Hrun).
    destruct (Hrun eq_refl Hst) as (r & w & T).
    destruct (Hrec r w T) as (Hin & d & HD & HR).
    exists details, r, w, d. split; [exact HG|].
    split; [vm_compute in HG; injection HG as <-; reflexivity|].
    repeat split; assumption.
  - destruct (post_params_redacted sample_json_loads sample_format_exception
                mixed_case_request _ _ eq_refl eq_refl eq_refl)
      as (details & post_params & HG & HP & _ & _ & Hstored).
    destruct (Hstored call_mixed_case (sample_env 1) empty_world eq_refl I ids_ok_empty)
      as (Hrec & Hrun).
    destruct (Hrun eq_refl Hst) as (r & w & T).
    destruct (Hrec r w T) as (Hin & d & HD & HR).
    exists details, r, w, d. split; [exact HG|].
    split; [vm_compute in HG; injection HG as <-; reflexivity|].
    repeat split; assumption.
Defined.

(** A GET parameter named [token] is stored with its value, in the
    record of a call tracked on the empty table. *)
Lemma get_params_verbatim_witness :
  r_META sample_request = Some [("REMOTE_ADDR", "10.0.0.1")]
  /\ r_GET sample_request = Some [("token", ["abc"])]
  /\ qd_truthy [("token", ["abc"])] = true
  /\ spec_sensitive_key "token" = true
  /\ exists details r w d,
       get_request_details (Some sample_request) = Ok details
       /\ dict_get "get_params" details = Some (PDict [("token", PStr "abc")])
       /\ sample_track call_with_request (sample_env 1) empty_world = (Ok (Some r), w)
       /\ In r (rows w)
       /\ debug_details r = PDict d
       /\ dict_get "request" d = Some (PDict details).
Proof.
  assert (storable empty_world) as Hst by (intros r []).
  repeat (split; [reflexivity|]).
  destruct (get_params_verbatim sample_json_loads sample_format_exception
              sample_request _ _ eq_refl eq_refl eq_refl)
    as (details & HG & HP & _ & _ & Hstored).
  destruct (Hstored call_with_request (sample_env 1) empty_world eq_refl I ids_ok_empty)
    as (Hrec & Hrun).
  destruct (Hrun eq_refl Hst) as (r & w & T).
  destruct (Hrec r w T) as (Hin & d & HD & HR).
  exists details, r, w, d. split; [exact HG|]. split; [exact HP|].
  repeat split; assumption.
Defined.

(** ** The resolution state machine *)

Lemma existsb_eqb_In (x : string) (l : list string) :
  existsb (String.eqb x) l = true <-> In x l.
Proof.
  rewrite existsb_exists. split.
  - intros (y & Hy & E). apply String.eqb_eq in E. subst. exact Hy.
  - intros H. exists x. split; [exact H | apply String.eqb_refl].
Qed.

Section AdminFacts.

Variable json_loads : string -> outcome pyval.

Lemma queryset_update_ok p f e w :
  e_fault e <> FaultOnWrite ->
  queryset_update p f e w =
  (Ok (Z.of_nat (List.length (filter p (rows w)))),
   set_rows (map (fun r => if p r then f r else r) (rows w)) w).
Proof.
  intros H. unfold queryset_update. destruct (e_fault e); try reflexivity. congruence.
Qed.

(** C8, as the code has it.  [u] is the acting identity, [e_now e] the
    current time.
    - Bulk resolve rewrites each selected open row to [resolved = true],
      [resolved_by = u], [resolved_at = now], and no other row.
    - A single edit that changes the flag to resolved keeps
      [resolved = true]; if the form supplied no [resolved_by], it sets
      [resolved_by = u] and [resolved_at = now]; if the form supplied a
      [resolved_by], the object is saved as submitted ([resolved_at]
      included, empty or not).
    - When [resolved] is not among the changed fields, the object is
      saved as submitted: nothing is assigned.
    - A single edit that changes the flag to open clears [resolved_by]
      and [resolved_at], whatever the form held; bulk unresolve rewrites
      each selected resolved row to open with both cleared, and no other
      row.
    - What [save_model] writes to the table carries the resolution
      columns so assigned. *)
Theorem resolution_transitions u e :
  (forall selected w,
      e_fault e <> FaultOnWrite ->
      exists n f,
        mark_as_resolved u selected e w = (Ok n, set_rows (map f (rows w)) w)
        /\ forall r,
            if selected_in selected r && negb (resolved r)
            then resolved (f r) = true /\ resolved_by (f r) = Some u
                 /\ resolved_at (f r) = Some (e_now e)
            else f r = r)
  /\ (forall obj changed_data,
         In "resolved" changed_data -> resolved obj = true ->
         resolved (save_model_stamp u obj changed_data true e) = true
         /\ (resolved_by obj = None ->
             resolved_by (save_model_stamp u obj changed_data true e) = Some u
             /\ resolved_at (save_model_stamp u obj changed_data true e) = Some (e_now e))
         /\ (resolved_by obj <> None ->
             save_model_stamp u obj changed_data true e = obj))
  /\ (forall obj changed_data change,
         ~ In "resolved" changed_data ->
         save_model_stamp u obj changed_data change e = obj)
  /\ (forall obj changed_data,
         In "resolved" changed_data -> resolved obj = false ->
         resolved (save_model_stamp u obj changed_data true e) = false
         /\ resolved_by (save_model_stamp u obj changed_data true e) = None
         /\ resolved_at (save_model_stamp u obj changed_data true e) = None)
  /\ (forall selected w,
         e_fault e <> FaultOnWrite ->
         exists n f,
           mark_as_unresolved u selected e w = (Ok n, set_rows (map f (rows w)) w)
           /\ forall r,
               if selected_in selected r && resolved r
               then resolved (f r) = false /\ resolved_by (f r) = None
                    /\ resolved_at (f r) = None
               else f r = r)
  /\ (forall obj changed_data change w r w',
         save_model json_loads u obj changed_data change e w = (Ok r, w') ->
         In r (rows w')
         /\ resolved r = resolved (save_model_stamp u obj changed_data change e)
         /\ resolved_by r = resolved_by (save_model_stamp u obj changed_data change e)
         /\ resolved_at r = resolved_at (save_model_stamp u obj changed_data change e)).
Proof.
  repeat apply conj.
  - intros selected w Hf. unfold mark_as_resolved.
    rewrite queryset_update_ok by exact Hf. do 2 eexists. split; [reflexivity|].
    intros r. cbv beta.
    destruct (selected_in selected r && negb (resolved r)); simpl; auto.
  - intros obj cd Hin Hres. unfold save_model_stamp.
    rewrite (proj2 (existsb_eqb_In _ _) Hin), Hres. simpl.
    destruct (resolved_by obj) as [x|]; simpl.
    + repeat split; try assumption; try discriminate; reflexivity.
    + repeat split; try reflexivity. congruence.
  - intros obj cd change Hnot. unfold save_model_stamp.
    destruct (existsb (String.eqb "resolved") cd) eqn:E.
    + apply existsb_eqb_In in E. contradiction.
    + rewrite andb_false_r. reflexivity.
  - intros obj cd Hin Hres. unfold save_model_stamp.
    rewrite (proj2 (existsb_eqb_In _ _) Hin), Hres. simpl. auto.
  - intros selected w Hf. unfold mark_as_unresolved.
    rewrite queryset_update_ok by exact Hf. do 2 eexists. split; [reflexivity|].
    intros r. cbv beta.
    destruct (selected_in selected r && resolved r); simpl; auto.
  - intros obj cd change w r w' H. unfold save_model in H.
    apply save_ok in H. destruct H as (? & _ & ? & ? & ?). repeat split; assumption.
Qed.

End AdminFacts.

(** C8 as stated fails.  User 5 edits the open record of [world_one]:
    ticks [resolved], picks user 7 as [resolved_by] and leaves
    [resolved_at] empty.  The record is taken from open to resolved and
    its [resolved_at] stays empty. *)
Lemma resolved_at_left_empty :
  resolved row_one = false
  /\ exists r w,
       save_model sample_json_loads 5 form_resolved_by_only
                  ["resolved"; "resolved_by"] true (sample_env 2) world_one = (Ok r, w)
       /\ rows w = [r]
       /\ resolved r = true /\ resolved_by r = Some 7 /\ resolved_at r = None.
Proof.
  split; [reflexivity|]. do 2 eexists.
  split; [vm_compute; reflexivity|]. repeat split; reflexivity.
Qed.

(** Bulk resolve and a plain tick of the flag on [world_one], by user 5
    at time 2. *)
Lemma resolution_transitions_witness :
  e_fault (sample_env 2) <> FaultOnWrite
  /\ In "resolved" ["resolved"]
  /\ resolved (set_resolution true None None row_one) = true
  /\ resolved_by (set_resolution true None None row_one) = None
  /\ map (fun r => (resolved r, resolved_by r, resolved_at r))
         (rows (snd (mark_as_resolved 5 [1] (sample_env 2) world_one)))
     = [(true, Some 5, Some 2)]
  /\ resolved_by (save_model_stamp 5 (set_resolution true None None row_one)
                                   ["resolved"] true (sample_env 2)) = Some 5
  /\ resolved_at (save_model_stamp 5 (set_resolution true None None row_one)
                                   ["resolved"] true (sample_env 2)) = Some 2.
Proof.
  assert (e_fault (sample_env 2) <> FaultOnWrite) as Hf by discriminate.
  assert (In "resolved" ["resolved"]) as Hin by (left; reflexivity).
  destruct (resolution_transitions sample_json_loads 5 (sample_env 2))
    as (Hbulk & Hedit & _).
  destruct (Hbulk [1] world_one Hf) as (n & f & Hm & Hrows).
  destruct (Hedit (set_resolution true None None row_one) ["resolved"] Hin eq_refl)
    as (_ & Hstamp & _).
  destruct (Hstamp eq_refl) as [Hby Hat].
  split; [exact Hf|]. split; [exact Hin|]. split; [reflexivity|]. split; [reflexivity|].
  split; [|split; assumption].
  rewrite Hm. cbn [snd set_rows rows].
  change (rows world_one) with [row_one]. cbn [map].
  specialize (Hrows row_one).
  change (selected_in [1] row_one && negb (resolved row_one))%bool with true in Hrows.
  destruct Hrows as (H1 & H2 & H3). rewrite H1, H2, H3. reflexivity.
Defined.

(** ** Malformed payloads *)



Lemma str_truthy_true s : s <> "" -> str_truthy s = true.
Proof.
  intros H. unfold str_truthy. destruct (String.eqb s "") eqn:E; [|reflexivity].
  apply String.eqb_eq in E. contradiction.
Qed.

Section SaveFacts.

Variable json_loads : string -> outcome pyval.



End SaveFacts.


(** The empty text is not valid JSON either; it is falsy, so [save]
    writes it as it is.  A text that is valid JSON is written decoded. *)
Example save_empty_and_valid_payloads :
  sample_json_loads "" = Raise (JSONDecodeError "Expecting value")
  /\ (exists r w,
        save sample_json_loads (set_debug_details (PStr "") row_one) (sample_env 3)
             world_one = (Ok r, w)
        /\ debug_details r = PStr "")
  /\ (exists r w,
        save sample_json_loads (set_debug_details (PStr "{ }") row_one) (sample_env 3)
             world_one = (Ok r, w)
        /\ debug_details r = PDict []).
Proof.
  split; [reflexivity|].
  split; do 2 eexists; (split; [vm_compute; reflexivity|reflexivity]).
Qed.


(** ** Sequential and concurrent ingestion *)

Lemma app_last_split {A} (l : list A) x : forall l1 l2,
  (l ++ [x])%list = (l1 ++ x :: l2)%list -> ~ In x l -> l1 = l /\ l2 = [].
Proof.
  induction l as [|y t IH]; intros l1 l2 H Hnot; simpl in H.
  - destruct l1 as [|z l1']; simpl in H.
    + injection H as <-. auto.
    + injection H as _ H. destruct l1'; discriminate.
  - destruct l1 as [|z l1']; simpl in H.
    + injection H as -> _. exfalso. apply Hnot. left. reflexivity.
    + injection H as <- H. destruct (IH l1' l2 H) as [-> ->].
      * intros Hin. apply Hnot. right. exact Hin.
      * auto.
Qed.

Section ConcurrencyFacts.

Variable json_loads : string -> outcome pyval.
Variable format_exception : string -> exc_obj -> traceback -> string.

Local Abbreviation info_of := (compute_error_info format_exception).

(** A thread that takes its two steps with no other statement in between
    does what [track_error] does. *)
Lemma thread_alone_is_track_error a e w :
  exists res,
    track_error json_loads format_exception a e w =
    (res,
     snd (step_thread json_loads format_exception
            (fst (step_thread json_loads format_exception (Pending a e) w))
            (snd (step_thread json_loads format_exception (Pending a e) w))))
    /\ fst (step_thread json_loads format_exception
              (fst (step_thread json_loads format_exception (Pending a e) w))
              (snd (step_thread json_loads format_exception (Pending a e) w)))
       = Finished res.
Proof.
  unfold track_error, try_except, track_error_body, bind, step_thread.
  destruct (track_error_select format_exception a e w) as [[found|ex] w1]; cbn [fst snd].
  - destruct (track_error_write json_loads format_exception a e found w1)
      as [[r|ex] w2]; cbn [fst snd].
    + eexists; split; reflexivity.
    + destruct (track_error_except ex w2) as [res w3].
      cbn [fst snd]. eexists; split; reflexivity.
  - destruct (track_error_except ex w1) as [res w2].
    cbn [fst snd]. eexists; split; reflexivity.
Qed.

(** So the schedule that gives a single thread both its steps runs
    [track_error]. *)
Lemma run_one_thread a e w :
  exists res,
    track_error json_loads format_exception a e w =
    (res, snd (run json_loads format_exception [0; 0]%nat [Pending a e] w))
    /\ fst (run json_loads format_exception [0; 0]%nat [Pending a e] w) = [Finished res].
Proof.
  destruct (thread_alone_is_track_error a e w) as (res & HT & HF).
  exists res. cbn [run nth_error].
  destruct (step_thread json_loads format_exception (Pending a e) w) as [t1 w1].
  cbn [set_nth nth_error fst snd] in *.
  destruct (step_thread json_loads format_exception t1 w1) as [t2 w2].
  cbn [set_nth fst snd] in *. subst t2. split; [exact HT|reflexivity].
Qed.

(** One more call with key [k] on a table whose only record with key [k]
    is the open last row. *)
Lemma sequential_step a e w rows0 r :
  call_ok a e = true -> ids_ok w -> storable w ->
  rows w = (rows0 ++ [r])%list ->
  (forall x, In x rows0 -> row_key x <> info_key (info_of a e)) ->
  row_key r = info_key (info_of a e) -> resolved r = false ->
  exists r',
    rows (snd (track_error json_loads format_exception a e w)) = (rows0 ++ [r'])%list
    /\ row_key r' = row_key r /\ resolved r' = false /\ count r' = count r + 1.
Proof.
  intros Hok Hids Hst Hrows Hnone Hkey Hopen.
  destruct (track_error_tracked json_loads format_exception a e w Hok Hids Hst)
    as (r' & w' & T).
  rewrite T. cbn [snd].
  destruct (track_error_inv _ _ _ _ _ _ _ Hids T)
    as [(ex & l & Hres & _)
       |[(combined & existing & d & i & r'' & Hres & _ & Hfirst & HD & Hid & HJ & Hr'
          & Hrows' & Hnext)
        |(combined & r'' & Hres & _ & HJ & Hfirst & _)]];
    try discriminate.
  - injection Hres as <-.
    destruct (found_open _ _ _ Hfirst) as (Hin & Hk & Ho).
    assert (existing = r) as ->.
    { rewrite Hrows in Hin. apply in_app_or in Hin. destruct Hin as [Hin|[E|[]]].
      - exfalso. exact (Hnone _ Hin Hk).
      - symmetry. exact E. }
    destruct (replace_row_in i r' _ _ (proj1 Hids) Hin Hid) as (l1 & l2 & Hsplit & Hrep).
    rewrite Hrows in Hsplit. apply app_last_split in Hsplit.
    + destruct Hsplit as [-> ->]. exists r'. rewrite Hrows', Hrep.
      subst r'. repeat split; try reflexivity. exact Hopen.
    + intros Hr. exact (Hnone _ Hr Hkey).
  - exfalso.
    assert (In r (rows w)) as Hin by (rewrite Hrows; apply in_or_app; right; left; reflexivity).
    rewrite (none_open _ _ _ Hfirst Hin Hkey) in Hopen. discriminate.
Qed.

Lemma sequential_rest k calls : forall w rows0 r,
  (forall a e, In (a, e) calls ->
               call_ok a e = true /\ info_key (info_of a e) = k) ->
  ids_ok w -> storable w ->
  rows w = (rows0 ++ [r])%list ->
  (forall x, In x rows0 -> row_key x <> k) ->
  row_key r = k -> resolved r = false ->
  exists r',
    rows (run_sequential json_loads format_exception calls w) = (rows0 ++ [r'])%list
    /\ row_key r' = k /\ resolved r' = false
    /\ count r' = count r + Z.of_nat (List.length calls).
Proof.
  induction calls as [|[a e] rest IH]; intros w rows0 r Hcalls Hids Hst Hrows Hnone Hk Ho.
  - exists r. simpl. repeat split; try assumption. lia.
  - destruct (Hcalls a e (or_introl eq_refl)) as [Hok Hka].
    assert (forall x, In x rows0 -> row_key x <> info_key (info_of a e)) as Hnone'
        by (rewrite Hka; exact Hnone).
    assert (row_key r = info_key (info_of a e)) as Hk' by congruence.
    destruct (sequential_step a e w rows0 r Hok Hids Hst Hrows Hnone' Hk' Ho)
      as (r1 & Hrows1 & Hk1 & Ho1 & Hc1).
    destruct (track_error_invariants json_loads format_exception a e w Hids)
      as (Hids1 & _ & Hst1).
    simpl run_sequential.
    destruct (IH _ rows0 r1 (fun a' e' H => Hcalls a' e' (or_intror H))
                 Hids1 (Hst1 Hst) Hrows1 Hnone (eq_trans Hk1 Hk) Ho1)
      as (r' & Hrows' & Hk'' & Ho' & Hc').
    exists r'. repeat split; try assumption.
    rewrite Hc', Hc1. simpl List.length. lia.
Qed.

(** C2, as the code has it.  When [N >= 1] well-formed ingestion calls
    with one dedup key [k] run one after the other - each call's SELECT
    and its UPDATE or INSERT with no statement of another call in
    between - on a well-formed table that holds no record with key [k],
    the table afterwards is the old one plus exactly one record with key
    [k]; that record is open and its counter is [N].  (The code itself
    does nothing to keep the statements of concurrent calls apart.) *)
Theorem sequential_ingestion_counts k calls w :
  calls <> [] ->
  (forall a e, In (a, e) calls ->
               call_ok a e = true /\ info_key (info_of a e) = k) ->
  ids_ok w -> storable w ->
  (forall x, In x (rows w) -> row_key x <> k) ->
  exists r,
    rows (run_sequential json_loads format_exception calls w) = (rows w ++ [r])%list
    /\ row_key r = k /\ resolved r = false
    /\ count r = Z.of_nat (List.length calls).
Proof.
  destruct calls as [|[a e] rest]; [congruence|].
  intros _ Hcalls Hids Hst Hnone.
  destruct (Hcalls a e (or_introl eq_refl)) as [Hok Hka].
  destruct (track_error_tracked json_loads format_exception a e w Hok Hids Hst)
    as (r1 & w1 & T).
  destruct (track_error_invariants json_loads format_exception a e w Hids)
    as (Hids1 & _ & Hst1).
  simpl run_sequential. rewrite T in *. cbn [snd] in *.
  destruct (track_error_inv _ _ _ _ _ _ _ Hids T)
    as [(ex & l & Hres & _)
       |[(combined & existing & d & i & r'' & Hres & _ & Hfirst & _)
        |(combined & r'' & Hres & _ & HJ & Hfirst & Hid & Hk & Hopen & _ & _ & Hcnt & _
          & _ & _ & HD & Hrows & Hnext)]];
    try discriminate.
  - exfalso. destruct (found_open _ _ _ Hfirst) as (Hin & Hk & _).
    apply (Hnone _ Hin). congruence.
  - injection Hres as <-.
    destruct (sequential_rest k rest w1 (rows w) r1
                (fun a' e' H => Hcalls a' e' (or_intror H))
                Hids1 (Hst1 Hst) Hrows Hnone (eq_trans Hk Hka) Hopen)
      as (r' & Hrows' & Hk' & Ho' & Hc').
    exists r'. repeat split; try assumption.
    rewrite Hc', Hcnt. simpl List.length. lia.
Qed.

End ConcurrencyFacts.

(** C2 as stated fails.  Two calls ingest [boom] concurrently on the
    empty table; the schedule runs the SELECT of the first, the SELECT of
    the second, then the two writes.  Both calls find nothing and both
    insert: two records with the one key, each with counter 1. *)
Lemma concurrent_ingestion_duplicates :
  exists ts w,
    run sample_json_loads sample_format_exception [0; 1; 0; 1]%nat
        [Pending sample_call (sample_env 1); Pending sample_call (sample_env 2)]
        empty_world = (ts, w)
    /\ forallb is_finished ts = true
    /\ map (fun r => (row_key r, resolved r, count r)) (rows w)
       = [ (("ValueError", "boom", "views.py", Some 10), false, 1);
           (("ValueError", "boom", "views.py", Some 10), false, 1) ].
Proof. do 2 eexists. split; [vm_compute; reflexivity|]. split; reflexivity. Qed.

(** The other failure: on a table that holds the record with counter 1,
    two concurrent calls both read counter 1 and both write counter 2;
    one increment is lost. *)
Example concurrent_ingestion_lost_increment :
  exists ts w,
    run sample_json_loads sample_format_exception [0; 1; 0; 1]%nat
        [Pending sample_call (sample_env 2); Pending sample_call (sample_env 3)]
        world_one = (ts, w)
    /\ forallb is_finished ts = true
    /\ map count (rows w) = [2].
Proof. do 2 eexists. split; [vm_compute; reflexivity|]. split; reflexivity. Qed.

(** Three ingestions of [boom] in a row: one record, counter 3. *)
Lemma sequential_ingestion_counts_witness :
  [(sample_call, sample_env 1); (sample_call, sample_env 2); (sample_call, sample_env 3)]
    <> []
  /\ ids_ok empty_world /\ storable empty_world
  /\ exists r,
       rows (run_sequential sample_json_loads sample_format_exception
               [(sample_call, sample_env 1); (sample_call, sample_env 2);
                (sample_call, sample_env 3)] empty_world) = [r]
       /\ count r = 3 /\ first_occurrence r = 1 /\ last_occurrence r = 3.
Proof.
  assert (storable empty_world) as Hst by (intros r []).
  split; [discriminate|]. split; [exact ids_ok_empty|]. split; [exact Hst|].
  destruct (sequential_ingestion_counts sample_json_loads sample_format_exception
              ("ValueError", "boom", "views.py", Some 10)
              [(sample_call, sample_env 1); (sample_call, sample_env 2);
               (sample_call, sample_env 3)] empty_world)
    as (r & Hrows & _ & _ & Hcnt).
  - discriminate.
  - intros a e [H|[H|[H|[]]]]; injection H as <- <-; split; reflexivity.
  - exact ids_ok_empty.
  - exact Hst.
  - intros x [].
  - exists r. split; [exact Hrows|]. split; [exact Hcnt|].
    vm_compute in Hrows. injection Hrows as <-. split; reflexivity.
Defined.

(** ** The invariant over the operations *)

Lemma NoDup_map_filter {A B} (f : A -> B) (q : A -> bool) (l : list A) :
  NoDup (map f l) -> NoDup (map f (filter q l)).
Proof.
  induction l as [|x t IH]; simpl; intros H; [constructor|].
  inversion H as [|? ? Hnot Hnd]; subst.
  destruct (q x); simpl; [|auto].
  constructor; [|auto].
  intros Hin. apply Hnot. apply in_map_iff in Hin. destruct Hin as (y & E & Hy).
  apply filter_In in Hy. apply in_map_iff. exists y. tauto.
Qed.

(** Rewriting rows without touching keys, and without opening any,
    keeps the open keys distinct. *)
Lemma open_keys_map_close (g : ErrorLog -> ErrorLog) (l : list ErrorLog) :
  (forall r, row_key (g r) = row_key r) ->
  (forall r, is_open (g r) = true -> is_open r = true) ->
  NoDup (map row_key (filter is_open l)) ->
  NoDup (map row_key (filter is_open (map g l))).
Proof.
  intros Hk Ho.
  assert (forall t k, In k (map row_key (filter is_open (map g t))) ->
                      In k (map row_key (filter is_open t))) as Sub.
  { induction t as [|x t IH]; simpl; intros k Hin; [exact Hin|].
    destruct (is_open (g x)) eqn:E; simpl in Hin.
    - rewrite (Ho x E). simpl. destruct Hin as [<-|Hin]; [left; symmetry; apply Hk|right; auto].
    - destruct (is_open x); simpl; auto. }
  induction l as [|x t IH]; simpl; intros H; [constructor|].
  destruct (is_open (g x)) eqn:E; simpl.
  - rewrite (Ho x E) in H. simpl in H. inversion H as [|? ? Hnot Hnd]; subst.
    constructor; [|auto]. rewrite Hk. intros Hin. apply Hnot. apply Sub. exact Hin.
  - destruct (is_open x); simpl in H; [inversion H; subst|]; auto.
Qed.

Lemma ids_ok_map (g : ErrorLog -> ErrorLog) w w' :
  rows w' = map g (rows w) -> next_id w' = next_id w ->
  (forall r, id (g r) = id r) -> ids_ok w -> ids_ok w'.
Proof.
  unfold ids_ok. intros -> -> Hid [Hnd Hlt]. split.
  - rewrite map_map. rewrite (map_ext _ id Hid). exact Hnd.
  - intros r Hr. apply in_map_iff in Hr. destruct Hr as (x & <- & Hx).
    rewrite Hid. auto.
Qed.

Lemma ids_ok_filter (q : ErrorLog -> bool) w w' :
  rows w' = filter q (rows w) -> next_id w' = next_id w -> ids_ok w -> ids_ok w'.
Proof.
  unfold ids_ok. intros -> -> [Hnd Hlt]. split.
  - apply NoDup_map_filter. exact Hnd.
  - intros r Hr. apply filter_In in Hr. apply Hlt. tauto.
Qed.

Lemma filter_swap {A} (p q : A -> bool) (l : list A) :
  filter p (filter q l) = filter q (filter p l).
Proof.
  induction l as [|x t IH]; simpl; [reflexivity|].
  destruct (q x) eqn:Q; destruct (p x) eqn:P; simpl; rewrite ?Q, ?P, IH; reflexivity.
Qed.

Lemma unique_open_filter (q : ErrorLog -> bool) w w' :
  rows w' = filter q (rows w) -> unique_open w -> unique_open w'.
Proof.
  unfold unique_open. intros -> H.
  rewrite filter_swap. apply NoDup_map_filter. exact H.
Qed.

Lemma queryset_update_spec p f e w :
  next_id (snd (queryset_update p f e w)) = next_id w
  /\ (rows (snd (queryset_update p f e w)) = rows w
      \/ rows (snd (queryset_update p f e w))
         = map (fun r => if p r then f r else r) (rows w)).
Proof. unfold queryset_update. destruct (e_fault e); simpl; auto. Qed.

Lemma queryset_delete_spec p e w :
  next_id (snd (queryset_delete p e w)) = next_id w
  /\ (rows (snd (queryset_delete p e w)) = rows w
      \/ rows (snd (queryset_delete p e w)) = filter (fun r => negb (p r)) (rows w)).
Proof. unfold queryset_delete. destruct (e_fault e); simpl; auto. Qed.

(** The world [bulk_delete_resolved] leaves is the one its DELETE left. *)
Lemma bulk_delete_resolved_world u sel e w :
  snd (bulk_delete_resolved u sel e w)
  = snd (queryset_delete (fun r => selected_in sel r && resolved r) e w).
Proof.
  unfold bulk_delete_resolved, bind, raise.
  destruct (queryset_delete _ e w) as [[n|ex] w']; reflexivity.
Qed.

Lemma save_model_stamp_fields u obj changed_data change e :
  id (save_model_stamp u obj changed_data change e) = id obj
  /\ row_key (save_model_stamp u obj changed_data change e) = row_key obj
  /\ resolved (save_model_stamp u obj changed_data change e) = resolved obj.
Proof.
  unfold save_model_stamp.
  destruct (change && existsb (String.eqb "resolved") changed_data); [|auto].
  destruct (resolved obj && negb (isSome (resolved_by obj))); [auto|].
  destruct (negb (resolved obj)); auto.
Qed.

Section OperationFacts.

Variable json_loads : string -> outcome pyval.
Variable format_exception : string -> exc_obj -> traceback -> string.

Lemma model_save_existing_spec self e w i :
  id self = Some i -> existsb (has_id i) (rows w) = true ->
  next_id (snd (model_save self e w)) = next_id w
  /\ (rows (snd (model_save self e w)) = rows w
      \/ exists r', id r' = Some i /\ row_key r' = row_key self
                    /\ resolved r' = resolved self
                    /\ rows (snd (model_save self e w)) = replace_row i r' (rows w)).
Proof.
  intros Hid Hex.
  destruct (json_serialisable (debug_details self)) eqn:J;
    [|rewrite model_save_not_serialisable by exact J; auto].
  destruct (e_fault e) eqn:F;
    try (rewrite (model_save_update _ _ _ i) by first [assumption | congruence];
         split; [reflexivity|]; right;
         exists (set_updated_at (e_now e) (set_last_occurrence (e_now e) self));
         repeat split; try reflexivity; exact Hid).
  rewrite model_save_fault by assumption. auto.
Qed.

(** Saving an object whose row is in the table rewrites that row, or
    nothing. *)
Lemma save_existing_spec self e w i :
  id self = Some i -> existsb (has_id i) (rows w) = true ->
  next_id (snd (save json_loads self e w)) = next_id w
  /\ (rows (snd (save json_loads self e w)) = rows w
      \/ exists r', id r' = Some i /\ row_key r' = row_key self
                    /\ resolved r' = resolved self
                    /\ rows (snd (save json_loads self e w)) = replace_row i r' (rows w)).
Proof.
  intros Hid Hex. unfold save, bind, ret, logger.
  destruct (debug_details self) as [| | |s| | |];
    try (destruct (model_save self e w) as [[r|ex] w'] eqn:S;
         pose proof (model_save_existing_spec self e w i Hid Hex) as H;
         rewrite S in H; exact H).
  destruct (str_truthy s);
    [destruct (json_loads s) as [v|ex0];
     [|destruct (caught_by_save ex0); [|unfold raise; simpl; auto]]|].
  - pose proof (model_save_existing_spec (set_debug_details v self) e w i Hid Hex) as H.
    destruct (model_save (set_debug_details v self) e w) as [[r|ex] w']; exact H.
  - pose proof (model_save_existing_spec
                  (set_debug_details (PDict [("raw_data", PStr s)]) self) e
                  {| rows := rows w; next_id := next_id w;
                     log := (log w ++ [(LWarning, MsgInvalidJson (id self))])%list |}
                  i Hid Hex) as H.
    destruct (model_save _ e _) as [[r|ex] w']; exact H.
  - pose proof (model_save_existing_spec self e w i Hid Hex) as H.
    destruct (model_save self e w) as [[r|ex] w']; exact H.
Qed.

(** Every operation but the unresolve transitions keeps the primary keys
    in order and the open keys distinct. *)
Lemma exec_keeps_invariants o w :
  keeps_keys o w -> ids_ok w -> unique_open w ->
  ids_ok (exec json_loads format_exception o w)
  /\ unique_open (exec json_loads format_exception o w).
Proof.
  intros Hk Hids Hu. destruct o as [a e|u sel e|u sel e|u sel e|u obj cd e]; simpl in *.
  - destruct (track_error_invariants json_loads format_exception a e w Hids)
      as (H1 & H2 & _). auto.
  - unfold mark_as_resolved.
    match goal with |- context [queryset_update ?p ?f e w] =>
      destruct (queryset_update_spec p f e w) as [Hn [Hr|Hr]] end.
    + split; [eapply ids_ok_same | eapply unique_open_same]; eassumption.
    + split.
      * eapply ids_ok_map; try eassumption. intros r. cbv beta.
        destruct (_ && _); reflexivity.
      * unfold unique_open. rewrite Hr. apply open_keys_map_close; [| |exact Hu].
        -- intros r. destruct (_ && _); reflexivity.
        -- intros r. destruct (selected_in sel r && negb (resolved r)); [discriminate|auto].
  - destruct Hk.
  - rewrite bulk_delete_resolved_world.
    match goal with |- context [queryset_delete ?p e w] =>
      destruct (queryset_delete_spec p e w) as [Hn [Hr|Hr]] end.
    + split; [eapply ids_ok_same | eapply unique_open_same]; eassumption.
    + split; [eapply ids_ok_filter | eapply unique_open_filter]; eassumption.
  - destruct Hk as (i & old & Hid & Hin & Hoid & Hcond).
    destruct (save_model_stamp_fields u obj cd true e) as (Sid & Skey & Sres).
    unfold save_model.
    destruct (save_existing_spec (save_model_stamp u obj cd true e) e w i
                (eq_trans Sid Hid) (existsb_has_id _ _ _ Hin Hoid))
      as [Hn [Hr|(r' & Hid' & Hk' & Hres' & Hr)]].
    + split; [eapply ids_ok_same | eapply unique_open_same]; eassumption.
    + destruct (replace_row_in i r' _ _ (proj1 Hids) Hin Hoid)
        as (l1 & l2 & Hsplit & Hrep).
      rewrite Hrep in Hr. split.
      * apply (ids_ok_swap w _ l1 old r' l2 Hsplit Hr); [congruence | exact Hn | exact Hids].
      * destruct (resolved obj) eqn:RO.
        -- apply (unique_open_close w _ l1 old r' l2 Hsplit Hr); [congruence | exact Hu].
        -- destruct Hcond as [Hres|[Hopen Hkey]]; [discriminate|].
           apply (unique_open_swap w _ l1 old r' l2 Hsplit Hr);
             [congruence | congruence | exact Hu].
Qed.

(** C3, as the code has it.  In every state reached from the empty table
    by ingestion calls (each running with no statement of another call in
    between), bulk resolves, bulk deletes and edits that neither reopen a
    record nor move an open record to another key, no two open records
    share a dedup key.  Ingestion after a resolve is among these
    operations; the unresolve transitions are not. *)
Theorem unique_open_without_unresolve w :
  reachable_keeping json_loads format_exception w -> unique_open w.
Proof.
  intros H.
  assert (ids_ok w /\ unique_open w) as [_ Hu]; [|exact Hu].
  induction H as [|w o Hreach [Hids Hu] Hk].
  - split; [exact ids_ok_empty | constructor].
  - apply exec_keeps_invariants; assumption.
Qed.

End OperationFacts.

(** C3 as stated fails.  [boom] is ingested, its record is resolved,
    [boom] is ingested again (a second, open record) and the first
    record is reopened by the bulk unresolve: two open records with one
    key. *)
Lemma unresolve_reopens_duplicate :
  reachable sample_json_loads sample_format_exception
            (sample_exec reopen_scenario empty_world)
  /\ map (fun r => (id r, row_key r, resolved r))
         (rows (sample_exec reopen_scenario empty_world))
     = [ (Some 1, ("ValueError", "boom", "views.py", Some 10), false);
         (Some 2, ("ValueError", "boom", "views.py", Some 10), false) ]
  /\ ~ unique_open (sample_exec reopen_scenario empty_world).
Proof.
  split; [|split].
  - unfold sample_exec, exec_all, reopen_scenario. cbn [fold_left].
    repeat apply reachable_step. apply reachable_init.
  - vm_compute. reflexivity.
  - unfold unique_open. intros H.
    assert (map row_key (filter is_open (rows (sample_exec reopen_scenario empty_world)))
            = [ ("ValueError", "boom", "views.py", Some 10);
                ("ValueError", "boom", "views.py", Some 10) ]) as E
        by (vm_compute; reflexivity).
    rewrite E in H. inversion H as [|? ? Hnot _]. apply Hnot. left. reflexivity.
Qed.

(** The same by the single-record edit: the form of record 1 with
    [resolved] unticked. *)
Example edit_reopens_duplicate :
  map (fun r => (id r, resolved r))
      (rows (sample_exec
               [ Track sample_call (sample_env 1);
                 Resolve 5 [1] (sample_env 2);
                 Track sample_call (sample_env 3);
                 Edit 5 (set_resolution false (Some 5) (Some 2) row_one) ["resolved"]
                      (sample_env 4) ]
               empty_world))
  = [(Some 1, false); (Some 2, false)].
Proof. vm_compute. reflexivity. Qed.

(** Ingest, resolve, ingest again: resolved and open record side by side,
    one open record per key. *)
Lemma unique_open_without_unresolve_witness :
  reachable_keeping sample_json_loads sample_format_exception
    (sample_exec [ Track sample_call (sample_env 1);
                   Resolve 5 [1] (sample_env 2);
                   Track sample_call (sample_env 3) ] empty_world)
  /\ unique_open
       (sample_exec [ Track sample_call (sample_env 1);
                      Resolve 5 [1] (sample_env 2);
                      Track sample_call (sample_env 3) ] empty_world).
Proof.
  assert (reachable_keeping sample_json_loads sample_format_exception
            (sample_exec [ Track sample_call (sample_env 1);
                           Resolve 5 [1] (sample_env 2);
                           Track sample_call (sample_env 3) ] empty_world)) as R.
  { unfold sample_exec, exec_all. cbn [fold_left].
    repeat (apply reachable_keeping_step; [|exact I]). apply reachable_keeping_init. }
  split; [exact R|].
  exact (unique_open_without_unresolve sample_json_loads sample_format_exception _ R).
Defined.

(** * Further properties of the code *)

(** ** Client address and request details *)

Lemma split_first_no_sep sep s : str_in (String sep EmptyString) (split_first sep s) = false.
Proof.
  induction s as [|c t IH]; [reflexivity|].
  cbn [split_first]. destruct (Ascii.eqb c sep) eqn:E; [reflexivity|].
  change (str_in (String sep EmptyString) (String c (split_first sep t)))
    with (String.prefix (String sep EmptyString) (String c (split_first sep t))
          || str_in (String sep EmptyString) (split_first sep t))%bool.
  rewrite IH, orb_false_r. cbn [String.prefix].
  destruct (ascii_dec sep c) as [->|_]; [|reflexivity].
  rewrite Ascii.eqb_refl in E. discriminate.
Qed.

Lemma lstrip_suffix s : exists pre, s = pre ++ lstrip s.
Proof.
  induction s as [|c t (pre & IH)]; [exists ""; reflexivity|].
  cbn [lstrip]. destruct (isspace c).
  - exists (String c pre). simpl. congruence.
  - exists "". reflexivity.
Qed.

Lemma rstrip_prefix s : exists post, s = rstrip s ++ post.
Proof.
  induction s as [|c t (post & IH)]; [exists ""; reflexivity|].
  cbn [rstrip]. destruct (rstrip t) as [|c' t'] eqn:R.
  - destruct (isspace c).
    + exists (String c t). reflexivity.
    + exists post. simpl. simpl in IH. congruence.
  - exists post. cbn [append]. f_equal. exact IH.
Qed.

Lemma append_assoc (a b c : string) : (a ++ b) ++ c = a ++ (b ++ c).
Proof. induction a as [|x a IH]; simpl; [reflexivity|]. rewrite IH. reflexivity. Qed.

(** [s.strip()] is a piece of [s]. *)
Lemma strip_inside s : exists pre post, s = pre ++ strip s ++ post.
Proof.
  unfold strip. destruct (lstrip_suffix s) as (pre & H1).
  destruct (rstrip_prefix (lstrip s)) as (post & H2).
  exists pre, post. rewrite <- H2. exact H1.
Qed.

Lemma str_in_inside sub s pre post :
  str_in sub s = true -> str_in sub (pre ++ s ++ post) = true.
Proof.
  rewrite !str_in_spec. intros (a & b & ->).
  exists (pre ++ a), (b ++ post). rewrite !append_assoc. reflexivity.
Qed.

Lemma lstrip_first s c : first_char (lstrip s) = Some c -> isspace c = false.
Proof.
  induction s as [|x t IH]; [discriminate|].
  cbn [lstrip]. destruct (isspace x) eqn:E; [exact IH|].
  simpl. intros H. injection H as <-. exact E.
Qed.

Lemma rstrip_last s c : last_char (rstrip s) = Some c -> isspace c = false.
Proof.
  induction s as [|x t IH]; [discriminate|].
  cbn [rstrip]. destruct (rstrip t) as [|c' t'] eqn:R.
  - destruct (isspace x) eqn:E; [discriminate|].
    simpl. intros H. injection H as <-. exact E.
  - cbn [last_char]. exact IH.
Qed.

Lemma rstrip_first s c :
  first_char s = Some c -> isspace c = false -> first_char (rstrip s) = Some c.
Proof.
  destruct s as [|x t]; [discriminate|]. simpl. intros H Hc. injection H as ->.
  destruct (rstrip t); [rewrite Hc|]; reflexivity.
Qed.

Lemma rstrip_first_inv s c : first_char (rstrip s) = Some c -> first_char s = Some c.
Proof.
  destruct s as [|x t]; [discriminate|]. cbn [rstrip].
  destruct (rstrip t); [destruct (isspace x); [discriminate|]|]; simpl; auto.
Qed.

(** [s.strip()] neither starts nor ends with whitespace. *)
Lemma strip_ends s :
  (forall c, first_char (strip s) = Some c -> isspace c = false)
  /\ (forall c, last_char (strip s) = Some c -> isspace c = false).
Proof.
  unfold strip. split; intros c H.
  - apply rstrip_first_inv in H. eapply lstrip_first. exact H.
  - eapply rstrip_last. exact H.
Qed.

(** X1.  When the request carries a non-empty [X-Forwarded-For] header,
    the client address is its first comma-separated entry, stripped,
    whatever [X-Real-IP] and [REMOTE_ADDR] hold: it contains no comma
    and neither starts nor ends with whitespace. *)
Theorem client_ip_from_forwarded_header rq meta x_forwarded_for :
  r_META rq = Some meta ->
  dict_get "HTTP_X_FORWARDED_FOR" meta = Some x_forwarded_for ->
  x_forwarded_for <> "" ->
  exists ip,
    get_client_ip (Some rq) = Ok (Some ip)
    /\ ip = strip (split_first "," x_forwarded_for)
    /\ str_in "," ip = false
    /\ (forall c, first_char ip = Some c -> isspace c = false)
    /\ (forall c, last_char ip = Some c -> isspace c = false).
Proof.
  intros HM HX Hne. exists (strip (split_first "," x_forwarded_for)).
  split; [|split; [reflexivity|split]].
  - unfold get_client_ip, meta_truthy. rewrite HM, HX, (str_truthy_true _ Hne). reflexivity.
  - destruct (str_in "," (strip (split_first "," x_forwarded_for))) eqn:E; [|reflexivity].
    destruct (strip_inside (split_first "," x_forwarded_for)) as (pre & post & H).
    pose proof (str_in_inside _ _ pre post E) as C. rewrite <- H in C.
    rewrite (split_first_no_sep "," x_forwarded_for) in C. discriminate.
  - apply strip_ends.
Qed.

(** X2.  An [X-Forwarded-For] header that is absent or empty is passed
    over: the address is then the stripped [X-Real-IP] header if that
    one is non-empty, and otherwise [REMOTE_ADDR] as it is - [None] when
    [META] has none.  Without a request the address is [None]. *)
Theorem client_ip_fallbacks rq meta :
  r_META rq = Some meta ->
  meta_truthy "HTTP_X_FORWARDED_FOR" meta = None ->
  (forall x_real_ip,
      dict_get "HTTP_X_REAL_IP" meta = Some x_real_ip -> x_real_ip <> "" ->
      get_client_ip (Some rq) = Ok (Some (strip x_real_ip)))
  /\ (meta_truthy "HTTP_X_REAL_IP" meta = None ->
      get_client_ip (Some rq) = Ok (dict_get "REMOTE_ADDR" meta))
  /\ get_client_ip None = Ok None.
Proof.
  intros HM HX. unfold get_client_ip. rewrite HM, HX. repeat split.
  - intros x HR Hne. unfold meta_truthy. rewrite HR, (str_truthy_true _ Hne). reflexivity.
  - intros ->. reflexivity.
Qed.

Lemma client_ip_from_forwarded_header_witness :
  r_META proxied_request
  = Some [ ("HTTP_X_FORWARDED_FOR", " 203.0.113.7 , 10.0.0.1");
           ("HTTP_X_REAL_IP", "10.9.9.9"); ("REMOTE_ADDR", "127.0.0.1") ]
  /\ " 203.0.113.7 , 10.0.0.1" <> ""
  /\ get_client_ip (Some proxied_request) = Ok (Some "203.0.113.7").
Proof.
  assert (" 203.0.113.7 , 10.0.0.1" <> "") as Hne by discriminate.
  split; [reflexivity|]. split; [exact Hne|].
  destruct (client_ip_from_forwarded_header proxied_request _ _ eq_refl eq_refl Hne)
    as (ip & H & -> & _).
  exact H.
Defined.

Lemma client_ip_fallbacks_witness :
  meta_truthy "HTTP_X_FORWARDED_FOR"
    [ ("HTTP_X_FORWARDED_FOR", ""); ("HTTP_X_REAL_IP", " 10.9.9.9 ");
      ("REMOTE_ADDR", "127.0.0.1") ] = None
  /\ " 10.9.9.9 " <> ""
  /\ get_client_ip (Some balanced_request) = Ok (Some "10.9.9.9").
Proof.
  assert (" 10.9.9.9 " <> "") as Hne by discriminate.
  split; [reflexivity|]. split; [exact Hne|].
  destruct (client_ip_fallbacks balanced_request _ eq_refl eq_refl) as (H & _).
  exact (H " 10.9.9.9 " eq_refl Hne).
Defined.

(** X3.  [get_request_details] needs [META] and nothing else of a
    request: without [META] it raises [AttributeError]; with it, it
    returns, for any request whatever other attributes are missing, the
    eight base keys in a fixed order, followed by [get_params] exactly
    when the GET data is not empty and by [post_params] exactly when the
    POST data is not empty. *)
Theorem request_details_shape rq :
  (r_META rq = None ->
   get_request_details (Some rq) = Raise (AttributeError "META"))
  /\ (forall meta,
         r_META rq = Some meta ->
         exists details,
           get_request_details (Some rq) = Ok details
           /\ map fst details =
              (base_detail_keys
               ++ (if has_params (r_GET rq) then ["get_params"] else [])
               ++ (if has_params (r_POST rq) then ["post_params"] else []))%list).
Proof.
  split.
  - intros H. unfold get_request_details. rewrite H. reflexivity.
  - intros meta HM. unfold get_request_details, get_client_ip. rewrite HM.
    destruct (meta_truthy "HTTP_X_FORWARDED_FOR" meta);
      [|destruct (meta_truthy "HTTP_X_REAL_IP" meta)];
      (eexists; split; [reflexivity|]);
      destruct (r_GET rq) as [g|]; try destruct (qd_truthy g) eqn:G;
      destruct (r_POST rq) as [p|]; try destruct (qd_truthy p) eqn:P;
      simpl; rewrite ?G, ?P; reflexivity.
Qed.

Lemma request_details_shape_witness :
  r_META bare_request = None
  /\ get_request_details (Some bare_request) = Raise (AttributeError "META")
  /\ r_META sample_request = Some [("REMOTE_ADDR", "10.0.0.1")]
  /\ exists details,
       get_request_details (Some sample_request) = Ok details
       /\ map fst details = (base_detail_keys ++ ["get_params"; "post_params"])%list.
Proof.
  destruct (request_details_shape bare_request) as [Hraise _].
  destruct (request_details_shape sample_request) as [_ Hok].
  split; [reflexivity|]. split; [exact (Hraise eq_refl)|]. split; [reflexivity|].
  destruct (Hok _ eq_refl) as (details & H & Hk). exists details. split; [exact H|exact Hk].
Defined.

Section FurtherTrackFacts.

Variable json_loads : string -> outcome pyval.
Variable format_exception : string -> exc_obj -> traceback -> string.

Local Abbreviation info_of := (compute_error_info format_exception).

(** The enrichment raises [AttributeError] only. *)
Lemma combine_debug_details_raise a e ex :
  combine_debug_details a e = Raise ex -> exists what, ex = AttributeError what.
Proof.
  unfold combine_debug_details, get_request_details, get_client_ip.
  destruct (if truthy (a_debug_details a) then a_debug_details a else PDict []);
    try (intros H; injection H as <-; eauto).
  destruct (a_request a) as [rq|]; [|discriminate].
  destruct (r_META rq) as [meta|]; [|intros H; injection H as <-; eauto].
  destruct (meta_truthy "HTTP_X_FORWARDED_FOR" meta);
    [|destruct (meta_truthy "HTTP_X_REAL_IP" meta)]; discriminate.
Qed.

(** What a failing enrichment leads to. *)
Lemma track_error_enrichment_fails a e w ex :
  str_raises (a_exception a) = None ->
  combine_debug_details a e = Raise ex ->
  exists w',
    track_error json_loads format_exception a e w = (Ok None, w')
    /\ rows w' = rows w /\ next_id w' = next_id w
    /\ exists l, log w' = (l ++ [(LError, MsgFailed ex)])%list.
Proof.
  intros SR H. destruct (combine_debug_details_raise a e ex H) as (what & ->).
  unfold track_error, try_except, track_error_body, track_error_select, str_exception,
    bind, lift, when, logger, ret.
  rewrite SR, H. destruct (e_DEBUG_ERROR_TRACKING e); simpl;
    eexists; repeat split; eexists; reflexivity.
Qed.

(** X4.  A call that passes a request-like object without [META] is
    never tracked, whatever else it carries (with an exception that
    prints) and whatever the table holds: [track_error] returns [None],
    the table is as before and the logger gets the failure. *)
Theorem request_without_META_is_not_tracked a e w rq :
  str_raises (a_exception a) = None ->
  a_request a = Some rq -> r_META rq = None ->
  exists w' tracking_error l,
    track_error json_loads format_exception a e w = (Ok None, w')
    /\ rows w' = rows w /\ next_id w' = next_id w
    /\ log w' = (l ++ [(LError, MsgFailed tracking_error)])%list.
Proof.
  intros SR Hrq HM.
  assert (exists ex, combine_debug_details a e = Raise ex) as (ex & C).
  { unfold combine_debug_details. rewrite Hrq. unfold get_request_details. rewrite HM.
    destruct (if truthy (a_debug_details a) then a_debug_details a else PDict []);
      eexists; reflexivity. }
  destruct (track_error_enrichment_fails a e w ex SR C) as (w' & T & Hr & Hn & l & Hl).
  exists w', ex, l. auto.
Qed.

End FurtherTrackFacts.

Lemma request_without_META_is_not_tracked_witness :
  str_raises (a_exception call_bare_request) = None
  /\ a_request call_bare_request = Some bare_request
  /\ r_META bare_request = None
  /\ exists w',
       sample_track call_bare_request (sample_env 2) world_one = (Ok None, w')
       /\ rows w' = rows world_one.
Proof.
  split; [reflexivity|]. split; [reflexivity|]. split; [reflexivity|].
  destruct (request_without_META_is_not_tracked sample_json_loads sample_format_exception
              call_bare_request (sample_env 2) world_one bare_request
              eq_refl eq_refl eq_refl)
    as (w' & ex & l & T & Hr & _).
  exists w'. split; [exact T|exact Hr].
Defined.

(** ** Extraction *)

Lemma last_frame_app (tb : traceback) x : last_frame (tb ++ [x])%list = Some x.
Proof.
  induction tb as [|y t IH]; [reflexivity|].
  cbn [app last_frame]. destruct (t ++ [x])%list eqn:E; [destruct t; discriminate|].
  exact IH.
Qed.

(** X5.  The error site is the deepest frame of a traceback, and the
    traceback of the exception being handled goes first.  Inside an
    [except] block, the trace and the site recorded are those of the
    handled exception - also when another exception object is passed -
    while type and message are those of the passed object.  Outside one,
    they are the passed object's own; an object without traceback gives
    an empty trace and an empty site. *)
Theorem extraction_uses_deepest_frame format_exception exception :
  (forall handled tb last,
      exc_traceback handled = (tb ++ [last])%list ->
      extract_traceback_info format_exception exception (Some handled) =
      {| i_exception_type := exc_class exception;
         i_exception_message := exc_str exception;
         i_stack_trace := format_exception (exc_class handled) handled (tb ++ [last])%list;
         i_file_path := tb_filename last;
         i_line_number := Some (tb_lineno last);
         i_function_name := tb_name last |})
  /\ (forall tb last,
         exc_traceback exception = (tb ++ [last])%list ->
         extract_traceback_info format_exception exception None =
         {| i_exception_type := exc_class exception;
            i_exception_message := exc_str exception;
            i_stack_trace :=
              format_exception (exc_class exception) exception (tb ++ [last])%list;
            i_file_path := tb_filename last;
            i_line_number := Some (tb_lineno last);
            i_function_name := tb_name last |})
  /\ (exc_traceback exception = [] ->
      extract_traceback_info format_exception exception None =
      {| i_exception_type := exc_class exception;
         i_exception_message := exc_str exception;
         i_stack_trace := "";
         i_file_path := "";
         i_line_number := None;
         i_function_name := "" |}).
Proof.
  repeat split.
  - intros handled tb last H. unfold extract_traceback_info. rewrite H.
    destruct (tb ++ [last])%list as [|t l] eqn:E; [destruct tb; discriminate|].
    rewrite <- E, last_frame_app. reflexivity.
  - intros tb last H. unfold extract_traceback_info. rewrite H, last_frame_app. reflexivity.
  - intros H. unfold extract_traceback_info. rewrite H. reflexivity.
Qed.

(** [boom] is passed while [missing_key] is being handled: the record
    would say [ValueError: boom] at [cache.py:44] in [load]. *)
Lemma extraction_uses_deepest_frame_witness :
  exc_traceback missing_key
  = ([ {| tb_filename := "app.py"; tb_lineno := 5; tb_name := "main" |} ]
     ++ [ {| tb_filename := "cache.py"; tb_lineno := 44; tb_name := "load" |} ])%list
  /\ (let info := extract_traceback_info sample_format_exception boom (Some missing_key) in
      (i_exception_type info, i_exception_message info,
       i_file_path info, i_line_number info, i_function_name info)
      = ("ValueError", "boom", "cache.py", Some 44, "load")).
Proof.
  split; [reflexivity|].
  destruct (extraction_uses_deepest_frame sample_format_exception boom) as (H & _).
  rewrite (H missing_key
             [ {| tb_filename := "app.py"; tb_lineno := 5; tb_name := "main" |} ]
             {| tb_filename := "cache.py"; tb_lineno := 44; tb_name := "load" |}
             eq_refl).
  reflexivity.
Defined.

(** X6.  For a call without an exception object the three site
    overrides stand or fall with [file_path].  With a non-empty
    [file_path] override the site is the three overrides as given.
    Without one, the site is the caller's frame - file, line and
    function - and a [line_number] or [function_name] override is
    discarded. *)
Theorem message_site_follows_file_path_override format_exception a e :
  is_exception_object (a_exception a) = false ->
  (opt_truthy_str (a_file_path a) = true ->
   i_file_path (compute_error_info format_exception a e) = or_empty (a_file_path a)
   /\ i_line_number (compute_error_info format_exception a e) = a_line_number a
   /\ i_function_name (compute_error_info format_exception a e)
      = or_empty (a_function_name a))
  /\ (opt_truthy_str (a_file_path a) = false ->
      forall caller_frame,
        e_caller e = Some caller_frame ->
        i_file_path (compute_error_info format_exception a e) = co_filename caller_frame
        /\ i_line_number (compute_error_info format_exception a e)
           = Some (f_lineno caller_frame)
        /\ i_function_name (compute_error_info format_exception a e)
           = co_name caller_frame).
Proof.
  intros Hx. unfold compute_error_info.
  assert (match a_exception a with
          | ExcObject exception =>
              extract_traceback_info format_exception exception (e_exc_info e)
          | _ => initial_error_info a
          end = initial_error_info a) as ->
      by (destruct (a_exception a); [reflexivity|reflexivity|discriminate]).
  split.
  - intros Hf. rewrite Hf, andb_false_r. simpl. auto.
  - intros Hf caller_frame Hc. rewrite Hf, Hc.
    assert (str_truthy (i_file_path (initial_error_info a)) = false) as ->.
    { simpl. unfold opt_truthy_str in Hf. destruct (a_file_path a); [exact Hf|reflexivity]. }
    simpl. auto.
Qed.

Lemma message_site_follows_file_path_override_witness :
  is_exception_object (a_exception message_call_partial_overrides) = false
  /\ opt_truthy_str (a_file_path message_call_partial_overrides) = false
  /\ e_caller (sample_env 1)
     = Some {| co_filename := "jobs.py"; f_lineno := 7; co_name := "nightly" |}
  /\ (let info := compute_error_info sample_format_exception
                    message_call_partial_overrides (sample_env 1) in
      (i_file_path info, i_line_number info, i_function_name info)
      = ("jobs.py", Some 7, "nightly")).
Proof.
  repeat (split; [reflexivity|]).
  destruct (message_site_follows_file_path_override sample_format_exception
              message_call_partial_overrides (sample_env 1) eq_refl) as (_ & H).
  destruct (H eq_refl _ eq_refl) as (H1 & H2 & H3).
  cbv zeta. rewrite H1, H2, H3. reflexivity.
Defined.

(** X7.  For a call without an exception object the type recorded is
    [CustomError].  The message is [custom_message] only when the
    exception argument is a non-empty text; when the exception argument
    is [None] or the empty text, the message is [Unknown error] and
    [custom_message] is not used. *)
Theorem message_of_plain_call format_exception a e :
  is_exception_object (a_exception a) = false ->
  i_exception_type (compute_error_info format_exception a e) = "CustomError"
  /\ (exc_truthy (a_exception a) = false ->
      i_exception_message (compute_error_info format_exception a e) = "Unknown error")
  /\ (forall text custom_message,
         a_exception a = ExcMessage text -> text <> "" ->
         a_custom_message a = Some custom_message -> custom_message <> "" ->
         i_exception_message (compute_error_info format_exception a e) = custom_message)
  /\ (forall text,
         a_exception a = ExcMessage text -> text <> "" ->
         opt_truthy_str (a_custom_message a) = false ->
         i_exception_message (compute_error_info format_exception a e) = text).
Proof.
  intros Hx.
  assert (forall info,
             compute_error_info format_exception a e = info ->
             i_exception_type info = "CustomError"
             /\ i_exception_message info = i_exception_message (initial_error_info a))
    as Hinit.
  { intros info <-. unfold compute_error_info.
    destruct (a_exception a); try discriminate;
      match goal with |- context [if ?b then _ else _] => destruct b end;
      try destruct (e_caller e); split; reflexivity. }
  destruct (Hinit _ eq_refl) as [Ht Hm]. rewrite Hm. split; [exact Ht|].
  repeat split.
  - intros H. simpl. rewrite H. reflexivity.
  - intros text cm Hx' Ht' Hc Hc'. simpl. rewrite Hx', Hc. simpl.
    rewrite (str_truthy_true _ Ht'), (str_truthy_true _ Hc'). reflexivity.
  - intros text Hx' Ht' Hc. simpl. rewrite Hx', Hc. simpl.
    rewrite (str_truthy_true _ Ht'). reflexivity.
Qed.

Lemma message_of_plain_call_witness :
  is_exception_object (a_exception call_custom_message_only) = false
  /\ exc_truthy (a_exception call_custom_message_only) = false
  /\ a_custom_message call_custom_message_only = Some "nightly job failed"
  /\ i_exception_message
       (compute_error_info sample_format_exception call_custom_message_only (sample_env 1))
     = "Unknown error".
Proof.
  repeat (split; [reflexivity|]).
  destruct (message_of_plain_call sample_format_exception call_custom_message_only
              (sample_env 1) eq_refl) as (_ & H & _).
  exact (H eq_refl).
Defined.

(** ** What an ingestion call does to the table *)

Section TableFacts.

Variable json_loads : string -> outcome pyval.
Variable format_exception : string -> exc_obj -> traceback -> string.

Local Abbreviation info_of := (compute_error_info format_exception).

(** X8.  The record a tracked call returns is open, is a row of the
    table and carries the dedup key of the call's normalized event -
    whether it was created or merged into. *)
Theorem tracked_record_carries_call_key a e w r w' :
  ids_ok w ->
  track_error json_loads format_exception a e w = (Ok (Some r), w') ->
  row_key r = info_key (info_of a e) /\ resolved r = false /\ In r (rows w').
Proof.
  intros Hids T.
  pose proof (track_error_Some_In _ _ _ _ _ _ _ T) as Hin.
  destruct (track_error_inv _ _ _ _ _ _ _ Hids T)
    as [(ex & l & Hres & _)
       |[(combined & existing & d & i & r' & Hres & _ & Hfirst & _ & _ & _ & Hr' & _)
        |(combined & r' & Hres & _ & _ & _ & _ & Hk & Hopen & _)]];
    try discriminate; injection Hres as <-.
  - destruct (found_open _ _ _ Hfirst) as (_ & Hkey & Hopen).
    subst r. repeat split; assumption.
  - repeat split; assumption.
Qed.

Lemma merge_existing_raise existing combined e w ex w' :
  merge_existing json_loads existing combined e w = (Raise ex, w') -> w' = w.
Proof.
  unfold merge_existing. cbn [debug_details set_last_occurrence set_count].
  destruct (debug_details existing) as [| | | | |d|];
    try (unfold raise; intros H; injection H as _ <-; reflexivity).
  unfold bind. erewrite save_dict by reflexivity.
  destruct (model_save _ e w) as [[r|ex'] w1] eqn:S.
  - unfold when, logger, ret. destruct (e_DEBUG_ERROR_TRACKING e); discriminate.
  - intros H. injection H as _ <-. eapply model_save_raise. exact S.
Qed.

Lemma create_new_raise a info usr combined e w ex w' :
  create_new json_loads a info usr combined e w = (Raise ex, w') -> w' = w.
Proof.
  unfold create_new, bind, lift.
  destruct (match a_request a with Some _ => _ | None => _ end);
    [|intros H; injection H as _ <-; reflexivity].
  destruct (get_client_ip (a_request a)); [|intros H; injection H as _ <-; reflexivity].
  erewrite save_dict by reflexivity.
  destruct (model_save _ e w) as [[r|ex'] w1] eqn:S.
  - unfold when, logger, ret. destruct (e_DEBUG_ERROR_TRACKING e); discriminate.
  - intros H. injection H as _ <-. eapply model_save_raise. exact S.
Qed.

(** X9.  A call that is not tracked has written nothing: when
    [track_error] returns [None], the rows of the table and the id
    sequence are exactly as before the call, on any table. *)
Theorem untracked_call_leaves_table a e w w' :
  track_error json_loads format_exception a e w = (Ok None, w') ->
  rows w' = rows w /\ next_id w' = next_id w.
Proof.
  unfold track_error, try_except, track_error_body, bind.
  destruct (track_error_select_spec format_exception a e w)
    as [(combined & w1 & -> & _ & _ & Hr1 & Hn1) | (ex & w1 & -> & Hr1 & Hn1 & _)].
  - unfold track_error_write. cbn [fst snd].
    destruct (first _) as [existing|].
    + destruct (merge_existing json_loads existing combined e w1) as [[r|ex] w2] eqn:S.
      * unfold ret. discriminate.
      * apply merge_existing_raise in S. subst w2.
        handle ex; [|discriminate]. intros H. injection H as <-. simpl. auto.
    + destruct (create_new json_loads a _ _ combined e w1) as [[r|ex] w2] eqn:S.
      * unfold ret. discriminate.
      * apply create_new_raise in S. subst w2.
        handle ex; [|discriminate]. intros H. injection H as <-. simpl. auto.
  - handle ex; [|discriminate]. intros H. injection H as <-. simpl. auto.
Qed.

(** X10.  Ingestion never removes a row and never touches a row that is
    resolved or has another dedup key than the call: each such row of
    the old table is a row of the new one, and the table does not
    shrink. *)
Theorem ingestion_keeps_other_rows a e w :
  ids_ok w ->
  (List.length (rows w)
   <= List.length (rows (snd (track_error json_loads format_exception a e w))))%nat
  /\ forall r,
      In r (rows w) ->
      resolved r = true \/ row_key r <> info_key (info_of a e) ->
      In r (rows (snd (track_error json_loads format_exception a e w))).
Proof.
  intros Hids.
  destruct (track_error json_loads format_exception a e w) as [[res|ex0] w'] eqn:T;
    cbn [snd].
  2:{ destruct (track_error_raise _ _ _ _ _ _ _ Hids T) as (Hrows & _).
      rewrite Hrows. split; [lia|auto]. }
  destruct (track_error_inv _ _ _ _ _ _ _ Hids T)
    as [(ex & l & _ & Hrows & _)
       |[(combined & existing & d & i & r' & _ & _ & Hfirst & _ & Hid & _ & _ & Hrows & _)
        |(combined & r' & _ & _ & _ & _ & _ & _ & _ & _ & _ & _ & _ & _ & _ & _ & Hrows & _)]].
  - rewrite Hrows. split; [lia|auto].
  - destruct (found_open _ _ _ Hfirst) as (Hin & Hkey & Hopen).
    destruct (replace_row_in i r' _ _ (proj1 Hids) Hin Hid) as (l1 & l2 & Hsplit & Hrep).
    rewrite Hrows, Hrep, Hsplit. split.
    + rewrite !length_app. simpl. lia.
    + intros r Hr Hcond. apply in_app_or in Hr. apply in_or_app.
      destruct Hr as [Hr|[<-|Hr]]; [left; exact Hr| |right; right; exact Hr].
      exfalso. destruct Hcond as [Hres|Hk]; congruence.
  - rewrite Hrows. split.
    + rewrite length_app. simpl. lia.
    + intros r Hr _. apply in_or_app. left. exact Hr.
Qed.

End TableFacts.

Lemma tracked_record_carries_call_key_witness :
  ids_ok world_resolved
  /\ exists r w',
       sample_track sample_call (sample_env 3) world_resolved = (Ok (Some r), w')
       /\ row_key r = ("ValueError", "boom", "views.py", Some 10)
       /\ resolved r = false.
Proof.
  split; [exact ids_ok_world_resolved|].
  destruct (sample_track sample_call (sample_env 3) world_resolved)
    as [[[r|]|] w'] eqn:T; try (vm_compute in T; discriminate).
  destruct (tracked_record_carries_call_key sample_json_loads sample_format_exception
              sample_call (sample_env 3) world_resolved r w' ids_ok_world_resolved T)
    as (Hk & Ho & _).
  exists r, w'. split; [reflexivity|]. split; [exact Hk|exact Ho].
Defined.

Lemma untracked_call_leaves_table_witness :
  exists w',
    sample_track call_with_object (sample_env 2) world_one = (Ok None, w')
    /\ rows w' = rows world_one /\ next_id w' = next_id world_one.
Proof.
  destruct (sample_track call_with_object (sample_env 2) world_one)
    as [[[r|]|] w'] eqn:T; try (vm_compute in T; discriminate).
  exists w'. split; [reflexivity|].
  exact (untracked_call_leaves_table sample_json_loads sample_format_exception
           call_with_object (sample_env 2) world_one w' T).
Defined.

Lemma ingestion_keeps_other_rows_witness :
  ids_ok world_resolved
  /\ In row_one (rows world_one)
  /\ forall r, In r (rows world_resolved) ->
               In r (rows (snd (sample_track sample_call (sample_env 3) world_resolved))).
Proof.
  split; [exact ids_ok_world_resolved|]. split; [left; reflexivity|].
  destruct (ingestion_keeps_other_rows sample_json_loads sample_format_exception
              sample_call (sample_env 3) world_resolved ids_ok_world_resolved)
    as [_ H].
  intros r Hr. apply H; [exact Hr|]. left.
  simpl in Hr. destruct Hr as [<-|[]]. reflexivity.
Defined.

(** ** Logging *)

Lemma same_table_set_log w' w :
  rows w' = rows w -> next_id w' = next_id w -> w' = set_log (log w') w.
Proof. destruct w', w. simpl. intros -> ->. reflexivity. Qed.

Lemma bind_same_outcome {A B} (m1 m2 : M A) (k1 k2 : A -> M B) w1 w2 :
  same_outcome (m1 w1) (m2 w2) ->
  (forall a w1' w2', rows w1' = rows w2' -> next_id w1' = next_id w2' ->
                     same_outcome (k1 a w1') (k2 a w2')) ->
  same_outcome (bind m1 k1 w1) (bind m2 k2 w2).
Proof.
  unfold same_outcome, bind. intros (H1 & H2 & H3) Hk.
  destruct (m1 w1) as [[a1|e1] w1'], (m2 w2) as [[a2|e2] w2']; simpl in *;
    try discriminate.
  - injection H1 as ->. apply Hk; assumption.
  - injection H1 as ->. auto.
Qed.

Lemma model_save_log_free self e flag w l :
  same_outcome (model_save self (set_debug_flag flag e) (set_log l w)) (model_save self e w).
Proof.
  unfold same_outcome, model_save. cbn [set_debug_flag set_log e_now e_fault rows next_id].
  destruct (match id self with Some _ => _ | None => _ end); cbn [negb];
    match goal with |- context [if ?b then _ else _] => destruct b end;
    try (repeat split; reflexivity);
    destruct (e_fault e); try (repeat split; reflexivity);
    match goal with |- context [match ?x with Some _ => _ | None => _ end] => destruct x end;
    repeat split; reflexivity.
Qed.

Lemma model_save_same_outcome self e flag w1 w2 :
  rows w1 = rows w2 -> next_id w1 = next_id w2 ->
  same_outcome (model_save self (set_debug_flag flag e) w1) (model_save self e w2).
Proof.
  intros Hr Hn. rewrite (same_table_set_log w1 w2 Hr Hn). apply model_save_log_free.
Qed.

Section LoggingFacts.

Variable json_loads : string -> outcome pyval.
Variable format_exception : string -> exc_obj -> traceback -> string.

Local Abbreviation info_of := (compute_error_info format_exception).

Lemma save_same_outcome self e flag w1 w2 :
  rows w1 = rows w2 -> next_id w1 = next_id w2 ->
  same_outcome (save json_loads self (set_debug_flag flag e) w1) (save json_loads self e w2).
Proof.
  intros Hr Hn. unfold save, bind, ret, logger.
  destruct (debug_details self) as [| | |s| | |];
    try (apply model_save_same_outcome; assumption).
  destruct (str_truthy s);
    [destruct (json_loads s) as [v|ex0];
     [|destruct (caught_by_save ex0); [|unfold raise, same_outcome; simpl; auto]]|];
    apply model_save_same_outcome; assumption.
Qed.

Lemma merge_existing_same_outcome existing combined e flag w1 w2 :
  rows w1 = rows w2 -> next_id w1 = next_id w2 ->
  same_outcome (merge_existing json_loads existing combined (set_debug_flag flag e) w1)
               (merge_existing json_loads existing combined e w2).
Proof.
  intros Hr Hn. unfold merge_existing. cbn [e_now set_debug_flag e_DEBUG_ERROR_TRACKING].
  destruct (debug_details _) as [| | | | |d|];
    try (unfold same_outcome, raise; simpl; auto).
  apply bind_same_outcome; [apply save_same_outcome; assumption|].
  intros saved w1' w2' Hr' Hn'.
  unfold bind, when, logger, ret, same_outcome.
  destruct flag, (e_DEBUG_ERROR_TRACKING e); simpl; auto.
Qed.

Lemma create_new_same_outcome a info usr combined e flag w1 w2 :
  rows w1 = rows w2 -> next_id w1 = next_id w2 ->
  same_outcome (create_new json_loads a info usr combined (set_debug_flag flag e) w1)
               (create_new json_loads a info usr combined e w2).
Proof.
  intros Hr Hn. unfold create_new. cbn [e_now set_debug_flag e_DEBUG_ERROR_TRACKING].
  apply bind_same_outcome.
  { unfold lift, same_outcome. simpl. auto. }
  intros ua w1' w2' Hr' Hn'. apply bind_same_outcome.
  { unfold lift, same_outcome. simpl. auto. }
  intros ip w1'' w2'' Hr'' Hn''. apply bind_same_outcome.
  { apply save_same_outcome; assumption. }
  intros error_log v1 v2 Hv Hv'.
  unfold bind, when, logger, ret, same_outcome.
  destruct flag, (e_DEBUG_ERROR_TRACKING e); simpl; auto.
Qed.

Lemma track_error_select_same_outcome a e flag w1 w2 :
  rows w1 = rows w2 -> next_id w1 = next_id w2 ->
  same_outcome (track_error_select format_exception a (set_debug_flag flag e) w1)
               (track_error_select format_exception a e w2).
Proof.
  intros Hr Hn.
  unfold track_error_select, str_exception, find_open, bind, when, lift, logger, ret,
    raise, same_outcome.
  change (combine_debug_details a (set_debug_flag flag e))
    with (combine_debug_details a e).
  change (info_of a (set_debug_flag flag e)) with (info_of a e).
  cbn [set_debug_flag e_DEBUG_ERROR_TRACKING e_fault].
  destruct (str_raises (a_exception a));
    [destruct flag, (e_DEBUG_ERROR_TRACKING e); simpl; auto|].
  destruct flag, (e_DEBUG_ERROR_TRACKING e), (combine_debug_details a e), (e_fault e);
    simpl; rewrite ?Hr; auto.
Qed.

(** X11.  Logging decides nothing.  Whether [DEBUG_ERROR_TRACKING] is
    set, and whatever the logger has received before, [track_error]
    returns the same result and leaves the same rows and id sequence. *)
Theorem debug_logging_changes_nothing a e w flag l :
  same_outcome
    (track_error json_loads format_exception a (set_debug_flag flag e) (set_log l w))
    (track_error json_loads format_exception a e w).
Proof.
  unfold track_error, try_except.
  assert (same_outcome
            (bind (track_error_body json_loads format_exception a (set_debug_flag flag e))
                  (fun error_log => ret (Some error_log)) (set_log l w))
            (bind (track_error_body json_loads format_exception a e)
                  (fun error_log => ret (Some error_log)) w)) as H.
  { apply bind_same_outcome.
    - unfold track_error_body. apply bind_same_outcome.
      + apply track_error_select_same_outcome; reflexivity.
      + intros found w1' w2' Hr' Hn'. unfold track_error_write.
        change (info_of a (set_debug_flag flag e)) with (info_of a e).
        destruct (snd found).
        * apply merge_existing_same_outcome; assumption.
        * apply create_new_same_outcome; assumption.
    - intros r w1' w2' Hr' Hn'. unfold same_outcome, ret. simpl. auto. }
  unfold same_outcome in *. destruct H as (H1 & H2 & H3).
  destruct (bind (track_error_body json_loads format_exception a (set_debug_flag flag e)) _ _)
    as [[r1|ex1] v1];
    destruct (bind (track_error_body json_loads format_exception a e) _ _)
      as [[r2|ex2] v2]; cbn [fst snd] in *; try discriminate; auto.
  injection H1 as ->.
  destruct (printable ex2) eqn:P;
    [ rewrite !track_error_except_spec by exact P
    | rewrite !track_error_except_unprintable by exact P ]; simpl; auto.
Qed.

Lemma merge_existing_quiet existing combined e w d i :
  e_DEBUG_ERROR_TRACKING e = false ->
  debug_details existing = PDict d -> id existing = Some i ->
  existsb (has_id i) (rows w) = true ->
  json_serialisable (PDict (dict_update d combined)) = true ->
  e_fault e <> FaultOnWrite ->
  exists r' w',
    merge_existing json_loads existing combined e w = (Ok r', w') /\ log w' = log w.
Proof.
  intros Hflag HD Hid Hex HJ HF. unfold merge_existing.
  cbn [debug_details set_last_occurrence set_count]. rewrite HD.
  unfold bind. erewrite save_dict by reflexivity.
  rewrite (model_save_update _ _ _ i) by first [exact Hid | exact Hex | exact HJ | exact HF].
  unfold when, ret. rewrite Hflag. do 2 eexists. split; reflexivity.
Qed.

Lemma create_new_quiet a info usr combined e w :
  e_DEBUG_ERROR_TRACKING e = false ->
  (forall rq, a_request a = Some rq -> exists meta, r_META rq = Some meta) ->
  json_serialisable (PDict combined) = true ->
  e_fault e <> FaultOnWrite ->
  exists r' w',
    create_new json_loads a info usr combined e w = (Ok r', w')
    /\ log w' = (log w ++ [(level_of (a_error_level a),
                            MsgTracked (id r') (i_exception_type info)
                                       (i_exception_message info))])%list.
Proof.
  intros Hflag HM HJ HF. unfold create_new, bind, lift, get_client_ip.
  destruct (a_request a) as [rq|] eqn:Hrq.
  1: destruct (HM rq eq_refl) as (meta & ->).
  1: destruct (meta_truthy "HTTP_X_FORWARDED_FOR" meta);
    [|destruct (meta_truthy "HTTP_X_REAL_IP" meta)].
  all: erewrite save_dict by reflexivity.
  all: rewrite model_save_insert by first [reflexivity | exact HJ | exact HF].
  all: unfold when, logger, ret; rewrite Hflag; do 2 eexists; split; reflexivity.
Qed.

(** X12.  With [DEBUG_ERROR_TRACKING] off, a tracked call writes to the
    logger only when it creates a record: then exactly one message, at
    the level of the call's [error_level] (DEBUG for any value that is
    not [critical], [error], [warning] or [info]).  A repeat occurrence
    merged into an open record is not logged at all. *)
Theorem logger_hears_first_sightings_only a e w :
  e_DEBUG_ERROR_TRACKING e = false ->
  call_ok a e = true -> ids_ok w -> storable w ->
  (exists r w',
      track_error json_loads format_exception a e w = (Ok (Some r), w')
      /\ log w' =
         match first (filter (matches_open (info_of a e)) (rows w)) with
         | Some _ => log w
         | None =>
             (log w ++ [(level_of (a_error_level a),
                         MsgTracked (id r) (i_exception_type (info_of a e))
                                    (i_exception_message (info_of a e)))])%list
         end)
  /\ (a_error_level a <> ErrorLevel.CRITICAL -> a_error_level a <> ErrorLevel.ERROR ->
      a_error_level a <> ErrorLevel.WARNING -> a_error_level a <> ErrorLevel.INFO ->
      level_of (a_error_level a) = LDebug).
Proof.
  intros Hflag Hok Hids Hst. split.
  - unfold call_ok in Hok.
    destruct (str_raises (a_exception a)) eqn:SR; try discriminate.
    destruct (e_fault e) eqn:F; try discriminate.
    destruct (combine_debug_details a e) as [combined|] eqn:C; try discriminate.
    unfold track_error, try_except, track_error_body, track_error_select, str_exception,
      find_open, track_error_write, bind, lift, when, ret.
    rewrite Hflag, SR, C, F. cbn [fst snd].
    destruct (first (filter (matches_open (info_of a e)) (rows w))) as [existing|] eqn:Hfirst.
    + destruct (found_open _ _ _ Hfirst) as (Hin & _ & _).
      destruct (ids_ok_row _ _ Hids Hin) as (i & Hid & _ & Hex).
      pose proof (Hst _ Hin) as Hs. unfold storable_row in Hs.
      destruct (debug_details existing) as [| | | | |d|] eqn:D; try discriminate.
      destruct (merge_existing_quiet existing combined e w d i Hflag D Hid Hex
                  (json_serialisable_update _ _ Hs Hok)) as (r' & w' & -> & Hl);
        [congruence|].
      exists r', w'. split; [reflexivity|exact Hl].
    + destruct (create_new_quiet a (info_of a e) (effective_user a) combined e w Hflag)
        as (r' & w' & -> & Hl); try assumption; [|congruence|].
      { intros rq Hrq. eapply combine_debug_details_META; eassumption. }
      exists r', w'. split; [reflexivity|exact Hl].
  - intros H1 H2 H3 H4. unfold level_of.
    repeat match goal with
           | |- context [String.eqb ?x ?y] =>
               let E := fresh "E" in
               destruct (String.eqb x y) eqn:E;
               [apply String.eqb_eq in E; contradiction|]
           end.
    reflexivity.
Qed.

End LoggingFacts.

(** The first ingestion of [boom] is logged at ERROR; the second is not
    logged. *)
Lemma logger_hears_first_sightings_only_witness :
  e_DEBUG_ERROR_TRACKING (sample_env 2) = false
  /\ call_ok sample_call (sample_env 2) = true
  /\ ids_ok world_one /\ storable world_one
  /\ log world_one = [(LError, MsgTracked (Some 1) "ValueError" "boom")]
  /\ exists r w',
       sample_track sample_call (sample_env 2) world_one = (Ok (Some r), w')
       /\ log w' = log world_one.
Proof.
  split; [reflexivity|]. split; [reflexivity|]. split; [exact ids_ok_world_one|].
  split; [exact storable_world_one|]. split; [reflexivity|].
  destruct (logger_hears_first_sightings_only sample_json_loads sample_format_exception
              sample_call (sample_env 2) world_one eq_refl eq_refl
              ids_ok_world_one storable_world_one) as ((r & w' & T & Hl) & _).
  exists r, w'. split; [exact T|exact Hl].
Defined.

(** ** Counters and times *)

Lemma sane_same w w' : rows w' = rows w -> sane w -> sane w'.
Proof. unfold sane. intros ->. auto. Qed.

Lemma sane_map (g : ErrorLog -> ErrorLog) l :
  (forall r, sane_row r -> sane_row (g r)) ->
  (forall r, In r l -> sane_row r) ->
  forall r, In r (map g l) -> sane_row r.
Proof.
  intros Hg H r Hr. apply in_map_iff in Hr. destruct Hr as (x & <- & Hx). auto.
Qed.

Section SaneFacts.

Variable json_loads : string -> outcome pyval.
Variable format_exception : string -> exc_obj -> traceback -> string.

(** X13.  Ingestion and the three bulk actions keep every record's
    counter at 1 or more and its first occurrence no later than its last
    one, provided the clock of the operation is not behind the first
    occurrences already recorded. *)
Theorem counters_and_times_stay_sane o w :
  is_edit o = false -> ids_ok w -> sane w ->
  (forall r, In r (rows w) -> first_occurrence r <= e_now (op_env o)) ->
  sane (exec json_loads format_exception o w).
Proof.
  intros Hedit Hids Hs Hclock.
  destruct o as [a e|u sel e|u sel e|u sel e|u obj cd e]; try discriminate;
    cbn [exec op_env] in *.
  - destruct (track_error json_loads format_exception a e w) as [[res|ex0] w'] eqn:T;
      cbn [snd].
    2:{ destruct (track_error_raise _ _ _ _ _ _ _ Hids T) as (Hrows & _).
        eapply sane_same; eassumption. }
    destruct (track_error_inv _ _ _ _ _ _ _ Hids T)
      as [(ex & l & _ & Hrows & _)
         |[(combined & existing & d & i & r' & _ & _ & Hfirst & _ & Hid & _ & Hr' & Hrows & _)
          |(combined & r' & _ & _ & _ & _ & _ & _ & _ & _ & _ & Hcnt & Hfo & Hlo & _ & _
            & Hrows & _)]].
    + eapply sane_same; eassumption.
    + destruct (found_open _ _ _ Hfirst) as (Hin & _ & _).
      destruct (replace_row_in i r' _ _ (proj1 Hids) Hin Hid) as (l1 & l2 & Hsplit & Hrep).
      intros r Hr. rewrite Hrows, Hrep in Hr. apply in_app_or in Hr.
      destruct Hr as [Hr|[<-|Hr]].
      * apply Hs. rewrite Hsplit. apply in_or_app. left. exact Hr.
      * destruct (Hs _ Hin) as [Hc _]. pose proof (Hclock _ Hin) as Hf.
        subst r'. unfold sane_row. simpl. lia.
      * apply Hs. rewrite Hsplit. apply in_or_app. right. right. exact Hr.
    + intros r Hr. rewrite Hrows in Hr. apply in_app_or in Hr.
      destruct Hr as [Hr|[<-|[]]]; [apply Hs; exact Hr|].
      unfold sane_row. rewrite Hcnt, Hfo, Hlo. lia.
  - unfold mark_as_resolved.
    match goal with |- context [queryset_update ?p ?f e w] =>
      destruct (queryset_update_spec p f e w) as [_ [Hr|Hr]] end.
    + eapply sane_same; eassumption.
    + unfold sane. rewrite Hr. apply sane_map; [|exact Hs].
      intros r Hsr. destruct (_ && _); [exact Hsr|exact Hsr].
  - unfold mark_as_unresolved.
    match goal with |- context [queryset_update ?p ?f e w] =>
      destruct (queryset_update_spec p f e w) as [_ [Hr|Hr]] end.
    + eapply sane_same; eassumption.
    + unfold sane. rewrite Hr. apply sane_map; [|exact Hs].
      intros r Hsr. destruct (_ && _); [exact Hsr|exact Hsr].
  - rewrite bulk_delete_resolved_world.
    match goal with |- context [queryset_delete ?p e w] =>
      destruct (queryset_delete_spec p e w) as [_ [Hr|Hr]] end.
    + eapply sane_same; eassumption.
    + intros r Hin. rewrite Hr in Hin. apply filter_In in Hin. apply Hs. tauto.
Qed.

End SaneFacts.

Lemma counters_and_times_stay_sane_witness :
  is_edit (Track sample_call (sample_env 2)) = false
  /\ ids_ok world_one /\ sane world_one
  /\ (forall r, In r (rows world_one) -> first_occurrence r <= e_now (sample_env 2))
  /\ sane (exec sample_json_loads sample_format_exception
             (Track sample_call (sample_env 2)) world_one).
Proof.
  assert (sane world_one) as Hs.
  { intros r [<-|[]]. unfold sane_row. simpl. lia. }
  assert (forall r, In r (rows world_one) -> first_occurrence r <= e_now (sample_env 2))
    as Hc.
  { intros r [<-|[]]. simpl. lia. }
  split; [reflexivity|]. split; [exact ids_ok_world_one|]. split; [exact Hs|].
  split; [exact Hc|].
  exact (counters_and_times_stay_sane sample_json_loads sample_format_exception
           (Track sample_call (sample_env 2)) world_one eq_refl ids_ok_world_one Hs Hc).
Defined.

(** ** The bulk actions *)

Lemma filter_map_none {A} (p : A -> bool) (f : A -> A) (l : list A) :
  (forall x, p x = true -> p (f x) = false) ->
  filter p (map (fun x => if p x then f x else x) l) = [].
Proof.
  intros H. induction l as [|a l IH]; simpl; [reflexivity|].
  destruct (p a) eqn:E.
  - rewrite (H a E). exact IH.
  - rewrite E. exact IH.
Qed.

Lemma map_where_none {A} (p : A -> bool) (f : A -> A) (l : list A) :
  filter p l = [] -> map (fun x => if p x then f x else x) l = l.
Proof.
  induction l as [|a l IH]; simpl; [reflexivity|].
  destruct (p a); [discriminate|]. intros H. rewrite (IH H). reflexivity.
Qed.

Lemma set_rows_same w : set_rows (rows w) w = w.
Proof. destruct w; reflexivity. Qed.

Lemma set_rows_twice l l' w : set_rows l (set_rows l' w) = set_rows l w.
Proof. reflexivity. Qed.

Lemma queryset_update_run p f e w :
  e_fault e <> FaultOnWrite ->
  queryset_update p f e w
  = (Ok (Z.of_nat (List.length (filter p (rows w)))),
     set_rows (map (fun r => if p r then f r else r) (rows w)) w).
Proof. unfold queryset_update. destruct (e_fault e); congruence. Qed.

Lemma queryset_update_settles p f e e' w :
  e_fault e <> FaultOnWrite -> e_fault e' <> FaultOnWrite ->
  (forall r, p r = true -> p (f r) = false) ->
  forall g,
    queryset_update p g e' (snd (queryset_update p f e w))
    = (Ok 0, snd (queryset_update p f e w)).
Proof.
  intros He He' Hp g. rewrite (queryset_update_run p f e w He). simpl snd.
  rewrite (queryset_update_run p g e' _ He'). simpl rows.
  rewrite (map_where_none p g _ (filter_map_none p f (rows w) Hp)).
  rewrite (filter_map_none p f (rows w) Hp). reflexivity.
Qed.

Lemma selected_in_set_resolution sel res rby rat r :
  selected_in sel (set_resolution res rby rat r) = selected_in sel r.
Proof. reflexivity. Qed.

(** X14.  [bulk_delete_resolved] deletes and then fails.  When the
    backend accepts the write, the action removes exactly the rows that
    are both selected and resolved - every open row stays, selected or
    not, and so does every row outside the selection - and then ends in
    [TypeError]: the count is never reported to the operator.  On no
    backend and no table does the action return. *)
Theorem bulk_delete_deletes_then_fails u sel e w :
  e_fault e <> FaultOnWrite ->
  exists w',
    bulk_delete_resolved u sel e w
    = (Raise (TypeError "'dict' object is not callable"), w')
    /\ (forall r, In r (rows w')
                  <-> In r (rows w) /\ (resolved r = false \/ selected_in sel r = false))
    /\ next_id w' = next_id w /\ log w' = log w
    /\ (forall e0 w0 n w1, bulk_delete_resolved u sel e0 w0 <> (Ok n, w1)).
Proof.
  intros He.
  assert (forall e0 w0 n w1, bulk_delete_resolved u sel e0 w0 <> (Ok n, w1)) as Hnever.
  { intros e0 w0 n w1. unfold bulk_delete_resolved, bind, raise.
    destruct (queryset_delete _ e0 w0) as [[k|ex] w2]; discriminate. }
  unfold bulk_delete_resolved, bind, raise, queryset_delete.
  destruct (e_fault e) eqn:F; try congruence.
  - eexists. split; [reflexivity|]. simpl. split; [|auto].
    intros r. rewrite filter_In.
    destruct (selected_in sel r), (resolved r); simpl; intuition congruence.
  - eexists. split; [reflexivity|]. simpl. split; [|auto].
    intros r. rewrite filter_In.
    destruct (selected_in sel r), (resolved r); simpl; intuition congruence.
Qed.

Lemma bulk_delete_deletes_then_fails_witness :
  e_fault (sample_env 3) <> FaultOnWrite
  /\ exists w',
      bulk_delete_resolved 5 [1] (sample_env 3) world_resolved
      = (Raise (TypeError "'dict' object is not callable"), w')
      /\ rows world_resolved <> [] /\ rows w' = [].
Proof.
  split; [discriminate|].
  destruct (bulk_delete_deletes_then_fails 5 [1] (sample_env 3) world_resolved
              ltac:(discriminate)) as (w' & Hrun & _).
  exists w'. split; [exact Hrun|]. split; [discriminate|].
  vm_compute in Hrun. injection Hrun as <-. reflexivity.
Defined.

(** X15.  The two bulk resolution actions settle after one run: applied a
    second time to the same selection, by whichever operator and at
    whichever time, each reports zero rows and leaves the world as it is.
    In particular a record that is already resolved keeps the name and the
    time of whoever resolved it first. *)
Theorem bulk_resolution_settles u u' sel e e' w :
  e_fault e <> FaultOnWrite -> e_fault e' <> FaultOnWrite ->
  mark_as_resolved u' sel e' (snd (mark_as_resolved u sel e w))
  = (Ok 0, snd (mark_as_resolved u sel e w))
  /\ mark_as_unresolved u' sel e' (snd (mark_as_unresolved u sel e w))
     = (Ok 0, snd (mark_as_unresolved u sel e w)).
Proof.
  intros He He'. unfold mark_as_resolved, mark_as_unresolved. split.
  - apply queryset_update_settles; [exact He|exact He'|].
    intros r H. rewrite selected_in_set_resolution. simpl.
    apply andb_false_r.
  - apply queryset_update_settles; [exact He|exact He'|].
    intros r H. rewrite selected_in_set_resolution. simpl.
    apply andb_false_r.
Qed.

Lemma bulk_resolution_settles_witness :
  e_fault (sample_env 2) <> FaultOnWrite /\ e_fault (sample_env 9) <> FaultOnWrite
  /\ mark_as_resolved 6 [1] (sample_env 9) (snd (mark_as_resolved 5 [1] (sample_env 2) world_one))
     = (Ok 0, world_resolved).
Proof.
  split; [discriminate|]. split; [discriminate|].
  exact (proj1 (bulk_resolution_settles 5 6 [1] (sample_env 2) (sample_env 9) world_one
                  ltac:(discriminate) ltac:(discriminate))).
Defined.

Lemma without_resolution_untouched r : untouched r -> without_resolution r = r.
Proof.
  intros (H1 & H2 & H3). destruct r. simpl in *. subst.
  reflexivity.
Qed.

(** X16.  Resolving a selection and then reopening the same selection is
    a round trip, provided every selected record was open and carried no
    resolver and no resolution time before: the world is exactly what it
    was, counters, occurrence times and update times included. *)
Theorem resolve_then_reopen_round_trip u u' sel e e' w :
  e_fault e <> FaultOnWrite -> e_fault e' <> FaultOnWrite ->
  (forall r, In r (rows w) -> selected_in sel r = true -> untouched r) ->
  snd (mark_as_unresolved u' sel e' (snd (mark_as_resolved u sel e w))) = w.
Proof.
  intros He He' H. unfold mark_as_resolved, mark_as_unresolved.
  rewrite (queryset_update_run _ _ e w He). simpl snd.
  rewrite (queryset_update_run _ _ e' _ He'). simpl snd. simpl rows.
  rewrite set_rows_twice. rewrite map_map.
  transitivity (set_rows (rows w) w); [|apply set_rows_same]. f_equal.
  transitivity (map (fun r : ErrorLog => r) (rows w)); [|apply map_id]. apply map_ext_in.
  intros r Hin. specialize (H r Hin).
  destruct (selected_in sel r) eqn:S; simpl.
  - destruct (H eq_refl) as (H1 & H2 & H3). rewrite H1. simpl.
    rewrite selected_in_set_resolution, S. simpl.
    apply (without_resolution_untouched r). repeat split; assumption.
  - rewrite S. reflexivity.
Qed.

Lemma resolve_then_reopen_round_trip_witness :
  e_fault (sample_env 2) <> FaultOnWrite /\ e_fault (sample_env 4) <> FaultOnWrite
  /\ (forall r, In r (rows world_one) -> selected_in [1] r = true -> untouched r)
  /\ snd (mark_as_unresolved 6 [1] (sample_env 4)
            (snd (mark_as_resolved 5 [1] (sample_env 2) world_one))) = world_one.
Proof.
  assert (forall r, In r (rows world_one) -> selected_in [1] r = true -> untouched r) as H.
  { intros r [<-|[]] _. repeat split. }
  split; [discriminate|]. split; [discriminate|]. split; [exact H|].
  apply (resolve_then_reopen_round_trip 5 6 [1] (sample_env 2) (sample_env 4) world_one);
    [discriminate|discriminate|exact H].
Defined.

Lemma queryset_update_frame p res rby rat e w :
  map without_resolution (rows (snd (queryset_update p (set_resolution res rby rat) e w)))
  = map without_resolution (rows w).
Proof.
  destruct (queryset_update_spec p (set_resolution res rby rat) e w) as [_ [-> | ->]];
    [reflexivity|].
  rewrite map_map. apply map_ext; intros r; destruct (p r); reflexivity.
Qed.

(** X17.  The bulk resolution actions write the three resolution columns
    and nothing else: with those columns blanked, the table after either
    action is the table before it, row for row and in the same order.
    No id, counter, note, payload or timestamp moves; in particular, and unlike
    a single edit, [last_occurrence] and [updated_at] stay, and no row is
    added or removed.  The id sequence and the logger are left alone. *)
Theorem bulk_resolution_frame u sel e w :
  let resolved_world := snd (mark_as_resolved u sel e w) in
  let reopened_world := snd (mark_as_unresolved u sel e w) in
  map without_resolution (rows resolved_world) = map without_resolution (rows w)
  /\ map without_resolution (rows reopened_world) = map without_resolution (rows w)
  /\ next_id resolved_world = next_id w /\ next_id reopened_world = next_id w
  /\ log resolved_world = log w /\ log reopened_world = log w.
Proof.
  simpl. unfold mark_as_resolved, mark_as_unresolved.
  split; [apply queryset_update_frame|]. split; [apply queryset_update_frame|].
  split; [apply queryset_update_spec|]. split; [apply queryset_update_spec|].
  unfold queryset_update. destruct (e_fault e); split; reflexivity.
Qed.

(** ** Recency: the list filter, [is_recent] and the single edit *)

Section WindowFacts.

Variable hour : Z.

Lemma recent_window_filter now queryset :
  RecentErrorsFilter_queryset hour (Some "1h") now queryset
  = filter (fun r => last_occurrence r >=? now - hour) queryset
  /\ RecentErrorsFilter_queryset hour (Some "24h") now queryset
     = filter (fun r => last_occurrence r >=? now - 24 * hour) queryset
  /\ RecentErrorsFilter_queryset hour (Some "7d") now queryset
     = filter (fun r => last_occurrence r >=? now - 7 * (24 * hour)) queryset
  /\ RecentErrorsFilter_queryset hour (Some "30d") now queryset
     = filter (fun r => last_occurrence r >=? now - 30 * (24 * hour)) queryset.
Proof. repeat split. Qed.

(** X19.  The four windows of [RecentErrorsFilter] nest when an hour has
    non-negative length: a record shown under [1h] is shown under [24h],
    one under [24h] under [7d], one under [7d] under [30d].  Every window
    shows only records of the queryset it was given, and any other value
    of the parameter, or none, hands the queryset back as it came. *)
Theorem recent_windows_nest now queryset r :
  0 <= hour ->
  let window v := RecentErrorsFilter_queryset hour v now queryset in
  (In r (window (Some "1h")) -> In r (window (Some "24h")))
  /\ (In r (window (Some "24h")) -> In r (window (Some "7d")))
  /\ (In r (window (Some "7d")) -> In r (window (Some "30d")))
  /\ (forall v, In r (window v) -> In r queryset)
  /\ (forall v, ~ In v ["1h"; "24h"; "7d"; "30d"] -> window (Some v) = queryset)
  /\ window None = queryset.
Proof.
  intros Hh window. subst window. cbv beta.
  destruct (recent_window_filter now queryset) as (-> & -> & -> & ->).
  assert (forall a b, b <= a -> In r (filter (fun r => last_occurrence r >=? now - b) queryset)
                      -> In r (filter (fun r => last_occurrence r >=? now - a) queryset))
    as Hmono.
  { intros a b Hab Hin. apply filter_In in Hin. destruct Hin as [Hin Hge].
    apply filter_In. split; [exact Hin|]. apply Z.geb_le in Hge. apply Z.geb_le. lia. }
  split; [apply Hmono; lia|]. split; [apply Hmono; lia|]. split; [apply Hmono; lia|].
  split; [|split; [|reflexivity]].
  - intros v. unfold RecentErrorsFilter_queryset. destruct v as [v|]; [|tauto].
    destruct (String.eqb v "1h"); [rewrite filter_In; tauto|].
    destruct (String.eqb v "24h"); [rewrite filter_In; tauto|].
    destruct (String.eqb v "7d"); [rewrite filter_In; tauto|].
    destruct (String.eqb v "30d"); [rewrite filter_In; tauto|]. tauto.
  - intros v Hv. unfold RecentErrorsFilter_queryset.
    destruct (String.eqb_spec v "1h") as [->|_]; [exfalso; apply Hv; simpl; tauto|].
    destruct (String.eqb_spec v "24h") as [->|_]; [exfalso; apply Hv; simpl; tauto|].
    destruct (String.eqb_spec v "7d") as [->|_]; [exfalso; apply Hv; simpl; tauto|].
    destruct (String.eqb_spec v "30d") as [->|_]; [exfalso; apply Hv; simpl; tauto|].
    reflexivity.
Qed.

(** X20.  The model's [is_recent] and the [24h] window of the list filter
    disagree at exactly one instant.  A record of the queryset is in the
    window precisely when it is [is_recent] or occurred last exactly
    twenty-four hours ago: the property compares with [>], the filter
    with [>=]. *)
Theorem recent_window_and_is_recent now queryset r :
  In r (RecentErrorsFilter_queryset hour (Some "24h") now queryset)
  <-> In r queryset
      /\ (is_recent hour now r = true \/ last_occurrence r = now - 24 * hour).
Proof.
  destruct (recent_window_filter now queryset) as (_ & -> & _).
  rewrite filter_In. unfold is_recent.
  rewrite Z.geb_le, Z.gtb_lt. split; intros [H1 H2]; split; try exact H1; lia.
Qed.

End WindowFacts.

Section EditFacts.

Variable json_loads : string -> outcome pyval.
Variable hour : Z.

Lemma save_moves_last_occurrence self e w r w' :
  save json_loads self e w = (Ok r, w') ->
  In r (rows w') /\ count r = count self
  /\ last_occurrence r = e_now e /\ updated_at r = e_now e.
Proof using json_loads.
  unfold save, bind, ret, logger.
  destruct (debug_details self) as [| | |s| | |];
    try (intros H; apply model_save_ok in H;
         destruct H as (? & _ & _ & _ & _ & _ & ? & _ & ? & ?); repeat split; assumption).
  destruct (str_truthy s);
    [destruct (json_loads s) as [v|ex0];
     [|destruct (caught_by_save ex0); [|unfold raise; discriminate]]|];
    intros H; apply model_save_ok in H; simpl in H;
    destruct H as (? & _ & _ & _ & _ & _ & ? & _ & ? & ?); repeat split; assumption.
Qed.

Lemma save_model_stamp_count u obj changed_data change e :
  count (save_model_stamp u obj changed_data change e) = count obj.
Proof.
  unfold save_model_stamp.
  destruct (change && existsb (String.eqb "resolved") changed_data); [|reflexivity].
  destruct (resolved obj && negb (isSome (resolved_by obj))); [reflexivity|].
  destruct (negb (resolved obj)); reflexivity.
Qed.

(** X18.  A single edit in the admin changes when the error is said to
    have occurred last.  Whatever the operator changed (a note is enough),
    a successful [save_model] stores the record with [last_occurrence] and
    [updated_at] at the time of the edit and the counter as submitted; so,
    with hours of positive length, the edited record is [is_recent] and
    passes the [1h] window of the list filter at that time, however long
    ago the error really occurred. *)
Theorem single_edit_makes_record_recent u obj changed_data change e w r w' :
  0 < hour ->
  save_model json_loads u obj changed_data change e w = (Ok r, w') ->
  last_occurrence r = e_now e /\ updated_at r = e_now e /\ count r = count obj
  /\ is_recent hour (e_now e) r = true
  /\ In r (RecentErrorsFilter_queryset hour (Some "1h") (e_now e) (rows w')).
Proof using json_loads.
  intros Hh H. unfold save_model in H. apply save_moves_last_occurrence in H.
  destruct H as (Hin & Hc & Hl & Hu). rewrite save_model_stamp_count in Hc.
  split; [exact Hl|]. split; [exact Hu|]. split; [exact Hc|]. split.
  - unfold is_recent. rewrite Hl. apply Z.gtb_lt. lia.
  - rewrite (proj1 (recent_window_filter hour (e_now e) (rows w'))).
    apply filter_In. split; [exact Hin|]. rewrite Hl. apply Z.geb_le. lia.
Qed.

End EditFacts.

Lemma recent_windows_nest_witness :
  0 <= 10
  /\ (In row_one (RecentErrorsFilter_queryset 10 (Some "1h") 5 (rows world_one))
      -> In row_one (RecentErrorsFilter_queryset 10 (Some "24h") 5 (rows world_one))).
Proof.
  split; [lia|].
  exact (proj1 (recent_windows_nest 10 5 (rows world_one) row_one ltac:(lia))).
Defined.

Lemma single_edit_makes_record_recent_witness :
  0 < 10
  /\ exists r w',
      save_model sample_json_loads 5 row_one [] true (sample_env 1000) world_one = (Ok r, w')
      /\ last_occurrence row_one = 1
      /\ last_occurrence r = 1000
      /\ In r (RecentErrorsFilter_queryset 10 (Some "1h") 1000 (rows w')).
Proof.
  split; [lia|].
  destruct (save_model sample_json_loads 5 row_one [] true (sample_env 1000) world_one)
    as [[r|x] w'] eqn:S; [|discriminate S].
  exists r, w'. split; [reflexivity|]. split; [reflexivity|].
  destruct (single_edit_makes_record_recent sample_json_loads 10 5 row_one [] true
              (sample_env 1000) world_one r w' ltac:(lia) S) as (Hl & _ & _ & _ & Hin).
  split; [exact Hl|exact Hin].
Defined.

(** ** What the list shows *)


Lemma str_append_nil s : s ++ "" = s.
Proof. induction s as [|c s IH]; simpl; [reflexivity|]. rewrite IH. reflexivity. Qed.




Lemma str_in_char sep c t :
  str_in (String sep "") (String c t) = (Ascii.eqb c sep || str_in (String sep "") t)%bool.
Proof.
  change (str_in (String sep "") (String c t))
    with (String.prefix (String sep "") (String c t) || str_in (String sep "") t)%bool.
  f_equal. simpl. destruct (ascii_dec sep c) as [->|N].
  - rewrite Ascii.eqb_refl. destruct t; reflexivity.
  - symmetry. apply Ascii.eqb_neq. congruence.
Qed.

Lemma split_last_no_sep sep : forall s,
  str_in (String sep "") (split_last sep s) = false.
Proof.
  induction s as [|c t IH]; [reflexivity|]. simpl split_last.
  destruct (str_in (String sep "") t) eqn:T; [exact IH|].
  destruct (Ascii.eqb c sep) eqn:C; [exact T|].
  rewrite str_in_char, C, T. reflexivity.
Qed.

(** The text is a directory part, empty or ending in the separator, and
    then the base name. *)
Lemma split_last_suffix sep : forall s,
  exists dir, s = dir ++ split_last sep s /\ (dir = "" \/ last_char dir = Some sep).
Proof.
  induction s as [|c t IH]; [exists ""; auto|]. simpl split_last.
  destruct (str_in (String sep "") t) eqn:T.
  - destruct IH as (dir & Ht & Hd). exists (String c dir). split; [simpl; congruence|].
    right. destruct Hd as [->|Hd].
    + pose proof (split_last_no_sep sep t) as N. simpl in Ht. rewrite <- Ht in N.
      congruence.
    + destruct dir; [discriminate|exact Hd].
  - destruct (Ascii.eqb c sep) eqn:C.
    + apply Ascii.eqb_eq in C. subst c. exists (String sep ""). auto.
    + exists "". auto.
Qed.

(** X22.  The location column shows the base name of the file: the part
    of [file_path] after its last [/], which contains no [/] itself.  A
    line number of 0 counts as no line number, for [location_link] and for
    [location_display] alike: the column then shows the base name alone,
    or [Unknown] for an empty path, and never the function name, and
    [location_display] is the bare path. *)
Theorem location_shows_base_name obj :
  let base := split_last "/" (file_path obj) in
  exists location,
    args (location_link obj) = [file_path obj; location]
    /\ str_in "/" base = false
    /\ (exists dir, file_path obj = dir ++ base /\ (dir = "" \/ last_char dir = Some "/"%char))
    /\ (line_number obj = None \/ line_number obj = Some 0 ->
        location = (if str_truthy (file_path obj) then base else "Unknown")
        /\ location_display obj = file_path obj)
    /\ (forall n, line_number obj = Some n -> n <> 0 ->
        location_display obj = file_path obj ++ ":" ++ str_of_Z n
        /\ location
           = base ++ ":" ++ str_of_Z n
             ++ (if str_truthy (function_name obj)
                 then " (" ++ function_name obj ++ ")" else "")).
Proof.
  intros base. eexists. split; [reflexivity|].
  split; [apply split_last_no_sep|]. split; [apply split_last_suffix|]. split.
  - unfold location_display. intros [H|H]; rewrite H; split; reflexivity.
  - intros n H Hn. unfold location_display. rewrite H. cbn [opt_Z_truthy].
    apply Z.eqb_neq in Hn. rewrite Hn. cbn [negb]. split; [reflexivity|].
    destruct (str_truthy (function_name obj)).
    + rewrite append_assoc. reflexivity.
    + rewrite str_append_nil. reflexivity.
Qed.

(** ** The convenience wrappers *)

Lemma NoDup_map_inj {A B} (f : A -> B) (l : list A) x y :
  NoDup (map f l) -> In x l -> In y l -> f x = f y -> x = y.
Proof.
  induction l as [|a l IH]; simpl; [intros _ []|].
  intros Hnd Hx Hy Hf. inversion Hnd as [|? ? Hnot Hnd']; subst.
  destruct Hx as [->|Hx], Hy as [->|Hy].
  - reflexivity.
  - exfalso. apply Hnot. rewrite Hf. apply in_map. exact Hy.
  - exfalso. apply Hnot. rewrite <- Hf. apply in_map. exact Hx.
  - apply IH; assumption.
Qed.

(** With one open record per key, the query finds that record. *)
Lemma unique_open_first w info r existing :
  unique_open w -> In r (rows w) -> resolved r = false -> row_key r = info_key info ->
  first (filter (matches_open info) (rows w)) = Some existing -> existing = r.
Proof.
  intros Hu Hin Hopen Hk Hf. destruct (found_open _ _ _ Hf) as (Hin' & Hk' & Hopen').
  apply (NoDup_map_inj row_key (filter is_open (rows w))).
  - exact Hu.
  - apply filter_In. split; [exact Hin'|]. unfold is_open. rewrite Hopen'. reflexivity.
  - apply filter_In. split; [exact Hin|]. unfold is_open. rewrite Hopen. reflexivity.
  - congruence.
Qed.

Section WrapperFacts.

Variable json_loads : string -> outcome pyval.
Variable format_exception : string -> exc_obj -> traceback -> string.
Variable module_file : string.
Variable wrapper_line : string -> Z.

(** Two calls in a row whose events have the same key: the second is
    merged into the record of the first. *)
Lemma second_call_merges a1 e1 a2 e2 w r1 w1 r2 w2 :
  ids_ok w -> unique_open w ->
  info_key (compute_error_info format_exception a1 e1)
  = info_key (compute_error_info format_exception a2 e2) ->
  track_error json_loads format_exception a1 e1 w = (Ok (Some r1), w1) ->
  track_error json_loads format_exception a2 e2 w1 = (Ok (Some r2), w2) ->
  row_key r1 = info_key (compute_error_info format_exception a1 e1)
  /\ id r2 = id r1 /\ count r2 = count r1 + 1
  /\ List.length (rows w2) = List.length (rows w1).
Proof using Type.
  intros Hids Hu Hkey T1 T2.
  destruct (track_error_invariants json_loads format_exception a1 e1 w Hids)
    as (Hids1 & Hu1 & _).
  rewrite T1 in Hids1, Hu1. cbn [snd] in Hids1, Hu1. specialize (Hu1 Hu).
  pose proof (track_error_Some_In _ _ _ _ _ _ _ T1) as Hin1.
  assert (row_key r1 = info_key (compute_error_info format_exception a1 e1)
          /\ resolved r1 = false) as (Hk1 & Hopen1).
  { destruct (track_error_inv _ _ _ _ _ _ _ Hids T1)
      as [(ex & l & Hres & _)
         |[(combined & existing & d & i & r' & Hres & _ & Hfirst & _ & _ & _ & Hr' & _)
          |(combined & r' & Hres & _ & _ & _ & _ & Hk & Hopen & _)]];
      try discriminate; injection Hres as <-.
    - destruct (found_open _ _ _ Hfirst) as (_ & Hkey' & Hopen). subst r1.
      split; assumption.
    - split; assumption. }
  split; [exact Hk1|].
  destruct (track_error_inv _ _ _ _ _ _ _ Hids1 T2)
    as [(ex & l & Hres & _)
       |[(combined & existing & d & i & r' & Hres & _ & Hfirst & _ & _ & _ & Hr' & Hrows & _)
        |(combined & r' & Hres & _ & _ & Hfirst & _)]];
    try discriminate; injection Hres as <-.
  - assert (existing = r1) as ->.
    { apply (unique_open_first w1 (compute_error_info format_exception a2 e2) r1 existing
               Hu1 Hin1 Hopen1); [congruence|exact Hfirst]. }
    subst r2. cbn [id count]. split; [reflexivity|]. split; [reflexivity|].
    rewrite Hrows. unfold replace_row. apply length_map.
  - assert (row_key r1 = info_key (compute_error_info format_exception a2 e2)) as Hk2
        by congruence.
    rewrite (none_open _ _ _ Hfirst Hin1 Hk2) in Hopen1. discriminate.
Qed.

(** The event of a message passed through a wrapper, when the keyword
    arguments give no [file_path]. *)
Lemma message_wrapper_key name message error_level request kwargs e :
  opt_truthy_str (a_file_path kwargs) = false ->
  info_key (compute_error_info format_exception
              (pass_on_level (ExcMessage message) error_level request kwargs)
              (inside module_file wrapper_line name e))
  = ("CustomError",
     (if str_truthy message
      then (if opt_truthy_str (a_custom_message kwargs)
            then or_empty (a_custom_message kwargs) else message)
      else "Unknown error"),
     module_file, Some (wrapper_line name)).
Proof using Type.
  intros Hf. unfold compute_error_info. cbn [pass_on_level a_exception a_file_path].
  rewrite Hf.
  assert (str_truthy (i_file_path
                        (initial_error_info
                           (pass_on_level (ExcMessage message) error_level request kwargs)))
          = false) as ->.
  { cbn [initial_error_info i_file_path pass_on_level a_file_path].
    unfold opt_truthy_str in Hf. destruct (a_file_path kwargs); [exact Hf|reflexivity]. }
  reflexivity.
Qed.

Lemma tracked_key a e w r w' :
  ids_ok w ->
  track_error json_loads format_exception a e w = (Ok (Some r), w') ->
  row_key r = info_key (compute_error_info format_exception a e).
Proof using Type.
  intros Hids T.
  destruct (track_error_inv _ _ _ _ _ _ _ Hids T)
    as [(ex & l & Hres & _)
       |[(combined & existing & d & i & r' & Hres & _ & Hfirst & _ & _ & _ & Hr' & _)
        |(combined & r' & Hres & _ & _ & _ & _ & Hk & _)]];
    try discriminate; injection Hres as <-.
  - destruct (found_open _ _ _ Hfirst) as (_ & Hkey & _). subst r. exact Hkey.
  - exact Hk.
Qed.

(** X23.  A message tracked through [track_warning], [track_info] or
    [track_critical] without a [file_path] keyword is recorded at the
    wrapper, not at the code that called it: the file is the module of
    the wrappers, the line is the wrapper's call of [track_error].  The
    environment of the real caller does not enter the key at all; a
    [line_number] keyword is discarded.  The type is [CustomError] and
    the message is [custom_message] when one is given, the text
    otherwise, and [Unknown error] for an empty text. *)
Theorem wrapped_message_is_recorded_at_the_wrapper message request kwargs e w r w' :
  ids_ok w ->
  opt_truthy_str (a_file_path kwargs) = false ->
  let text :=
    if str_truthy message
    then (if opt_truthy_str (a_custom_message kwargs)
          then or_empty (a_custom_message kwargs) else message)
    else "Unknown error" in
  (track_warning json_loads format_exception module_file wrapper_line
                 message request kwargs e w = (Ok (Some r), w') ->
   row_key r = ("CustomError", text, module_file, Some (wrapper_line "track_warning")))
  /\ (track_info json_loads format_exception module_file wrapper_line
                 message request kwargs e w = (Ok (Some r), w') ->
      row_key r = ("CustomError", text, module_file, Some (wrapper_line "track_info")))
  /\ (track_critical json_loads format_exception module_file wrapper_line
                     (ExcMessage message) request kwargs e w = (Ok (Some r), w') ->
      row_key r = ("CustomError", text, module_file, Some (wrapper_line "track_critical"))).
Proof using Type.
  intros Hids Hf text. unfold track_warning, track_info, track_critical.
  repeat split; intros T; rewrite (tracked_key _ _ _ _ _ Hids T);
    apply message_wrapper_key; exact Hf.
Qed.

(** X24.  Warnings with the same text merge into one record wherever
    they come from.  On a table with one open record per key, two
    [track_warning] calls with the same message and the same
    [custom_message], neither with a [file_path] keyword, made from any
    two places, with any requests and at any times: when both are
    tracked, the second returns the record of the first with its counter
    one higher, and adds no row. *)
Theorem repeated_warning_merges_across_call_sites
        message request1 request2 kwargs1 kwargs2 e1 e2 w r1 w1 r2 w2 :
  ids_ok w -> unique_open w ->
  opt_truthy_str (a_file_path kwargs1) = false ->
  opt_truthy_str (a_file_path kwargs2) = false ->
  a_custom_message kwargs1 = a_custom_message kwargs2 ->
  track_warning json_loads format_exception module_file wrapper_line
                message request1 kwargs1 e1 w = (Ok (Some r1), w1) ->
  track_warning json_loads format_exception module_file wrapper_line
                message request2 kwargs2 e2 w1 = (Ok (Some r2), w2) ->
  id r2 = id r1 /\ count r2 = count r1 + 1
  /\ List.length (rows w2) = List.length (rows w1)
  /\ file_path r1 = module_file /\ line_number r1 = Some (wrapper_line "track_warning").
Proof using Type.
  intros Hids Hu Hf1 Hf2 Hc T1 T2. unfold track_warning in T1, T2.
  assert (info_key (compute_error_info format_exception
                      (pass_on_level (ExcMessage message) ErrorLevel.WARNING request1 kwargs1)
                      (inside module_file wrapper_line "track_warning" e1))
          = info_key (compute_error_info format_exception
                        (pass_on_level (ExcMessage message) ErrorLevel.WARNING
                                       request2 kwargs2)
                        (inside module_file wrapper_line "track_warning" e2))) as Hkey.
  { rewrite !message_wrapper_key by assumption. rewrite Hc. reflexivity. }
  destruct (second_call_merges _ _ _ _ _ _ _ _ _ Hids Hu Hkey T1 T2)
    as (Hk & Hid & Hcnt & Hlen).
  rewrite message_wrapper_key in Hk by exact Hf1.
  unfold row_key in Hk. injection Hk as _ _ Hfile Hline.
  repeat split; assumption.
Qed.


End WrapperFacts.

Lemma unique_open_empty : unique_open empty_world.
Proof. constructor. Qed.

(** Runs a closed call and records its result as [T]. *)
Ltac run_as T call :=
  let v := eval vm_compute in call in
  assert (T : call = v) by (vm_compute; reflexivity).

Lemma wrapped_message_is_recorded_at_the_wrapper_witness :
  ids_ok empty_world /\ opt_truthy_str (a_file_path no_kwargs) = false
  /\ exists r w',
      track_warning sample_json_loads sample_format_exception
                    sample_module_file sample_wrapper_line
                    "disk almost full" None no_kwargs (billing_env 1) empty_world
      = (Ok (Some r), w')
      /\ row_key r = ("CustomError", "disk almost full", sample_module_file, Some 271).
Proof.
  split; [exact ids_ok_empty|]. split; [reflexivity|].
  run_as T (track_warning sample_json_loads sample_format_exception
                          sample_module_file sample_wrapper_line
                          "disk almost full" None no_kwargs (billing_env 1) empty_world).
  match type of T with _ = (Ok (Some ?r), ?w') => exists r, w' end.
  split; [exact T|].
  exact (proj1 (wrapped_message_is_recorded_at_the_wrapper
                  sample_json_loads sample_format_exception
                  sample_module_file sample_wrapper_line
                  "disk almost full" None no_kwargs (billing_env 1) empty_world _ _
                  ids_ok_empty eq_refl) T).
Defined.

Lemma repeated_warning_merges_across_call_sites_witness :
  ids_ok empty_world /\ unique_open empty_world
  /\ exists r1 w1 r2 w2,
      track_warning sample_json_loads sample_format_exception
                    sample_module_file sample_wrapper_line
                    "disk almost full" None no_kwargs (billing_env 1) empty_world
      = (Ok (Some r1), w1)
      /\ track_warning sample_json_loads sample_format_exception
                       sample_module_file sample_wrapper_line
                       "disk almost full" None no_kwargs (sample_env 2) w1
         = (Ok (Some r2), w2)
      /\ id r2 = id r1 /\ count r2 = count r1 + 1.
Proof.
  split; [exact ids_ok_empty|]. split; [exact unique_open_empty|].
  run_as T1 (track_warning sample_json_loads sample_format_exception
                           sample_module_file sample_wrapper_line
                           "disk almost full" None no_kwargs (billing_env 1) empty_world).
  match type of T1 with
  | _ = (Ok (Some ?r1), ?w1) =>
      run_as T2 (track_warning sample_json_loads sample_format_exception
                               sample_module_file sample_wrapper_line
                               "disk almost full" None no_kwargs (sample_env 2) w1);
      match type of T2 with _ = (Ok (Some ?r2), ?w2) => exists r1, w1, r2, w2 end
  end.
  split; [exact T1|]. split; [exact T2|].
  destruct (repeated_warning_merges_across_call_sites
              sample_json_loads sample_format_exception
              sample_module_file sample_wrapper_line
              "disk almost full" None None no_kwargs no_kwargs
              (billing_env 1) (sample_env 2) empty_world _ _ _ _
              ids_ok_empty unique_open_empty eq_refl eq_refl eq_refl T1 T2)
    as (Hid & Hcnt & _).
  split; [exact Hid|exact Hcnt].
Defined.


(** ** Settings *)

Lemma dict_set_set {V} k (v v' : V) d : dict_set k v (dict_set k v' d) = dict_set k v d.
Proof.
  induction d as [|[k0 v0] t IH]; simpl.
  - rewrite String.eqb_refl. reflexivity.
  - destruct (String.eqb k k0) eqn:E; simpl; rewrite E; [reflexivity|].
    rewrite IH. reflexivity.
Qed.

Lemma dict_get_set_same {V} k (v : V) d : dict_get k (dict_set k v d) = Some v.
Proof. rewrite dict_get_set, String.eqb_refl. reflexivity. Qed.

Lemma dict_get_set_other {V} k k' (v : V) d :
  k <> k' -> dict_get k (dict_set k' v d) = dict_get k d.
Proof.
  intros H. rewrite dict_get_set. destruct (String.eqb_spec k k'); [contradiction|reflexivity].
Qed.

(** What the function leaves when the settings are accepted. *)
Lemma extend_superapp_settings_accepted main_settings apps :
  dict_get "INSTALLED_APPS" main_settings = Some (PList apps) ->
  settings_accepted main_settings = true ->
  extend_superapp_settings main_settings
  = (None,
     dict_set "UNFOLD"
       (PDict
          (dict_set "SIDEBAR"
             (PDict
                (dict_set "navigation"
                   (PList
                      (match sidebar_navigation main_settings with
                       | Some navigation => navigation
                       | None => []
                       end ++ [error_tracking_nav])%list)
                   (sidebar_settings main_settings)))
             (unfold_settings main_settings)))
       (dict_set "INSTALLED_APPS" (PList (apps ++ [PStr app_label])) main_settings)).
Proof.
  intros A H. unfold settings_accepted in H. rewrite A in H.
  unfold extend_superapp_settings. rewrite A. cbv zeta.
  unfold dict_has, sidebar_navigation, sidebar_settings, unfold_settings.
  rewrite (dict_get_set_other "UNFOLD" "INSTALLED_APPS") by discriminate.
  destruct (dict_get "UNFOLD" main_settings) as [[| | | | |unfold|]|] eqn:U;
    try discriminate.
  - rewrite (dict_get_set_other "UNFOLD" "INSTALLED_APPS") by discriminate. rewrite U.
    destruct (dict_get "SIDEBAR" unfold) as [[| | | | |sidebar|]|] eqn:S; try discriminate.
    + rewrite S.
      destruct (dict_get "navigation" sidebar) as [[| | | |navigation| |]|] eqn:N;
        try discriminate.
      * rewrite N. reflexivity.
      * rewrite dict_get_set_same, dict_set_set. reflexivity.
    + rewrite dict_get_set_same. cbn [dict_get].
      rewrite dict_get_set_same. rewrite dict_set_set. reflexivity.
  - rewrite dict_get_set_same. cbn [dict_get].
    rewrite dict_get_set_same. cbn [dict_get].
    rewrite dict_get_set_same. rewrite dict_set_set. reflexivity.
Qed.

(** X26.  On settings it accepts - the apps a list and, as far as the
    path [UNFOLD], [SIDEBAR], [navigation] exists, dictionaries down to a
    list - [extend_superapp_settings] raises nothing, appends the app
    label to [INSTALLED_APPS] and the error-tracking section to the
    sidebar navigation, after the entries that were there, and creates
    what was missing of the path.  Every other setting, every other
    entry of [UNFOLD] and every other entry of [SIDEBAR] is as before.
    The result is accepted again, and a second call appends label and
    section a second time: nothing guards against registering twice. *)
Theorem settings_extension_appends main_settings apps :
  dict_get "INSTALLED_APPS" main_settings = Some (PList apps) ->
  settings_accepted main_settings = true ->
  let navigation :=
    match sidebar_navigation main_settings with Some l => l | None => [] end in
  let extended := snd (extend_superapp_settings main_settings) in
  fst (extend_superapp_settings main_settings) = None
  /\ installed_apps extended = Some (apps ++ [PStr app_label])%list
  /\ sidebar_navigation extended = Some (navigation ++ [error_tracking_nav])%list
  /\ (forall k, k <> "INSTALLED_APPS" -> k <> "UNFOLD" ->
                dict_get k extended = dict_get k main_settings)
  /\ (forall k, k <> "SIDEBAR" ->
                dict_get k (unfold_settings extended)
                = dict_get k (unfold_settings main_settings))
  /\ (forall k, k <> "navigation" ->
                dict_get k (sidebar_settings extended)
                = dict_get k (sidebar_settings main_settings))
  /\ settings_accepted extended = true
  /\ fst (extend_superapp_settings extended) = None
  /\ installed_apps (snd (extend_superapp_settings extended))
     = Some (apps ++ [PStr app_label; PStr app_label])%list
  /\ sidebar_navigation (snd (extend_superapp_settings extended))
     = Some (navigation ++ [error_tracking_nav; error_tracking_nav])%list.
Proof.
  assert (forall main l,
             dict_get "INSTALLED_APPS" main = Some (PList l) ->
             settings_accepted main = true ->
             fst (extend_superapp_settings main) = None
             /\ dict_get "INSTALLED_APPS" (snd (extend_superapp_settings main))
                = Some (PList (l ++ [PStr app_label]))
             /\ sidebar_navigation (snd (extend_superapp_settings main))
                = Some (match sidebar_navigation main with Some n => n | None => [] end
                        ++ [error_tracking_nav])%list
             /\ (forall k, k <> "INSTALLED_APPS" -> k <> "UNFOLD" ->
                           dict_get k (snd (extend_superapp_settings main)) = dict_get k main)
             /\ (forall k, k <> "SIDEBAR" ->
                           dict_get k (unfold_settings (snd (extend_superapp_settings main)))
                           = dict_get k (unfold_settings main))
             /\ (forall k, k <> "navigation" ->
                           dict_get k (sidebar_settings (snd (extend_superapp_settings main)))
                           = dict_get k (sidebar_settings main))
             /\ settings_accepted (snd (extend_superapp_settings main)) = true) as Hgen.
  { intros main l A H. rewrite (extend_superapp_settings_accepted main l A H). cbn [fst snd].
    split; [reflexivity|]. split.
    { rewrite (dict_get_set_other "INSTALLED_APPS" "UNFOLD") by discriminate.
      apply dict_get_set_same. }
    split.
    { unfold sidebar_navigation at 1. rewrite !dict_get_set_same. reflexivity. }
    split.
    { intros k H1 H2. rewrite !dict_get_set_other by assumption. reflexivity. }
    split.
    { intros k Hk. unfold unfold_settings at 1. rewrite dict_get_set_same.
      apply dict_get_set_other. exact Hk. }
    split.
    { intros k Hk. unfold sidebar_settings at 1, unfold_settings at 1.
      rewrite !dict_get_set_same. apply dict_get_set_other. exact Hk. }
    unfold settings_accepted.
    rewrite (dict_get_set_other "INSTALLED_APPS" "UNFOLD") by discriminate.
    rewrite !dict_get_set_same. reflexivity. }
  intros A H navigation extended.
  destruct (Hgen main_settings apps A H) as (H1 & H2 & H3 & H4 & H5 & H6 & H7).
  fold extended in H1, H2, H3, H4, H5, H6, H7.
  destruct (Hgen extended (apps ++ [PStr app_label])%list H2 H7)
    as (G1 & G2 & G3 & _).
  repeat split; try assumption.
  - unfold installed_apps. rewrite H2. reflexivity.
  - unfold installed_apps. rewrite G2, <- app_assoc. reflexivity.
  - rewrite G3, H3, <- app_assoc. reflexivity.
Qed.

Lemma settings_extension_appends_witness :
  dict_get "INSTALLED_APPS" sample_settings
  = Some (PList [PStr "django.contrib.admin"; PStr "unfold"])
  /\ settings_accepted sample_settings = true
  /\ snd (extend_superapp_settings sample_settings)
     = [ ("DEBUG", PBool true);
         ("INSTALLED_APPS",
          PList [PStr "django.contrib.admin"; PStr "unfold"; PStr app_label]);
         ("UNFOLD",
          PDict [ ("SITE_TITLE", PStr "Back office");
                  ("SIDEBAR", PDict [("navigation", PList [error_tracking_nav])]) ]) ]
  /\ sidebar_navigation (snd (extend_superapp_settings sample_settings))
     = Some [error_tracking_nav].
Proof.
  split; [reflexivity|]. split; [reflexivity|]. split; [reflexivity|].
  exact (proj1 (proj2 (proj2
           (settings_extension_appends sample_settings
              [PStr "django.contrib.admin"; PStr "unfold"] eq_refl eq_refl)))).
Defined.

(** X27.  A failed call is not rolled back.  When [INSTALLED_APPS] is a
    list but the function then raises - some part of the path [UNFOLD],
    [SIDEBAR], [navigation] is there and is not what the function can
    use - the app label has been appended all the same, and that is the
    only change: the settings are left with the app registered and no
    navigation entry for it. *)
Theorem failed_settings_extension_keeps_the_app main_settings apps :
  dict_get "INSTALLED_APPS" main_settings = Some (PList apps) ->
  fst (extend_superapp_settings main_settings) <> None ->
  snd (extend_superapp_settings main_settings)
  = dict_set "INSTALLED_APPS" (PList (apps ++ [PStr app_label])) main_settings
  /\ installed_apps (snd (extend_superapp_settings main_settings))
     = Some (apps ++ [PStr app_label])%list
  /\ sidebar_navigation (snd (extend_superapp_settings main_settings))
     = sidebar_navigation main_settings.
Proof.
  intros A Hfail.
  assert (snd (extend_superapp_settings main_settings)
          = dict_set "INSTALLED_APPS" (PList (apps ++ [PStr app_label])) main_settings) as E.
  { revert Hfail. unfold extend_superapp_settings. rewrite A. cbv zeta.
    unfold dict_has.
    rewrite (dict_get_set_other "UNFOLD" "INSTALLED_APPS") by discriminate.
    destruct (dict_get "UNFOLD" main_settings) as [v|] eqn:U.
    - rewrite (dict_get_set_other "UNFOLD" "INSTALLED_APPS") by discriminate. rewrite U.
      destruct v as [| | | | |unfold|]; try reflexivity.
      destruct (dict_get "SIDEBAR" unfold) as [v|] eqn:S.
      + rewrite S. destruct v as [| | | | |sidebar|]; try reflexivity.
        destruct (dict_get "navigation" sidebar) as [v|] eqn:N.
        * rewrite N. destruct v as [| | | |navigation| |]; try reflexivity.
          cbn [fst]. congruence.
        * rewrite dict_get_set_same. cbn [fst]. congruence.
      + rewrite dict_get_set_same. cbn [dict_get].
        rewrite dict_get_set_same. cbn [fst]. congruence.
    - rewrite dict_get_set_same. cbn [dict_get].
      rewrite dict_get_set_same. cbn [dict_get].
      rewrite dict_get_set_same. cbn [fst]. congruence. }
  rewrite E. split; [reflexivity|]. split.
  - unfold installed_apps. rewrite dict_get_set_same. reflexivity.
  - unfold sidebar_navigation.
    rewrite (dict_get_set_other "UNFOLD" "INSTALLED_APPS") by discriminate. reflexivity.
Qed.

Lemma failed_settings_extension_keeps_the_app_witness :
  dict_get "INSTALLED_APPS" broken_settings = Some (PList [PStr "django.contrib.admin"])
  /\ fst (extend_superapp_settings broken_settings) <> None
  /\ snd (extend_superapp_settings broken_settings)
     = [ ("INSTALLED_APPS", PList [PStr "django.contrib.admin"; PStr app_label]);
         ("UNFOLD", PNone) ].
Proof.
  split; [reflexivity|]. split; [discriminate|].
  exact (proj1 (failed_settings_extension_keeps_the_app broken_settings
                  [PStr "django.contrib.admin"] eq_refl ltac:(discriminate))).
Defined.

(** ** What reaches the caller *)



Section CallerFacts.

Variable json_loads : string -> outcome pyval.
Variable format_exception : string -> exc_obj -> traceback -> string.






End CallerFacts.

